(** * Route Scouter: the route-proximity search pipeline

    A shallow embedding of [src/utils.py] (route parsing, great-circle
    geometry, downsampling, assembly of place results, map rendering) and of
    the page script [src/app.py] (upload, search, filter loop, display),
    with the properties the specification states about them and further
    properties the code itself shows.

    Python values are modelled as follows.
    - [float] is an IEEE-754 binary64 value, as specified by the Standard
      Library's [SpecFloat] ([prec = 53], [emax = 1024]); arithmetic is the
      correctly rounded arithmetic of that specification.
    - [int] is [Z]; a list is a [list]; [None] is [None] of an [option].
    - A raised exception is the [Raise] case of [result].
    - The C mathematical library ([sin], [cos], [atan2], [pow]) and the
      string formatting of floats are parameters of the development. *)

From Stdlib Require Import ZArith List Bool String Lia Znumtheory.
From Stdlib Require Import Ascii DecimalString Sorted SpecFloat.
From stdpp Require Import gmap strings pretty.
Import ListNotations.

#[local] Open Scope Z_scope.

(** ** Exceptions *)

Inductive exn : Type :=
  | ZeroDivisionError
  | IndexError
  | ValueError
  | OverflowError.

Inductive result (A : Type) : Type :=
  | Ok (a : A)
  | Raise (e : exn).

Arguments Ok {A} a.
Arguments Raise {A} e.

Definition bind {A B : Type} (r : result A) (k : A -> result B) : result B :=
  match r with
  | Ok a => k a
  | Raise e => Raise e
  end.

Notation "'let*' x ':=' r 'in' k" := (bind r (fun x => k))
  (at level 10, x name, r at level 100, k at level 200).

(** A list comprehension whose element expression may raise: the first
    exception, in list order, is the comprehension's. *)
Fixpoint comprehension {A B : Type} (f : A -> result B) (l : list A)
  : result (list B) :=
  match l with
  | [] => Ok []
  | a :: l' =>
      let* b := f a in
      let* bs := comprehension f l' in
      Ok (b :: bs)
  end.

(** ** Python floats *)

Definition prec : Z := 53.
Definition emax : Z := 1024.

Definition float : Type := spec_float.

Definition fadd : float -> float -> float := SFadd prec emax.
Definition fsub : float -> float -> float := SFsub prec emax.
Definition fmul : float -> float -> float := SFmul prec emax.
Definition fdiv : float -> float -> float := SFdiv prec emax.
Definition fsqrt : float -> float := SFsqrt prec emax.
Definition flt : float -> float -> bool := SFltb.
Definition feqb : float -> float -> bool := SFeqb.

(** [float(z)]: the nearest binary64 value; exact for [|z| <= 2^53]. *)
Definition float_of_Z (z : Z) : float := binary_normalize prec emax z 0 false.

Definition fzero : float := S754_zero false.
Definition finf : float := S754_infinity false.

(** Truth value of a float: false exactly for [0.0] and [-0.0]. *)
Definition float_truthy (x : float) : bool := negb (feqb x fzero).

(** [int(x)]: truncation toward zero. *)
Definition py_int (x : float) : result Z :=
  match x with
  | S754_zero _ => Ok 0
  | S754_nan => Raise ValueError
  | S754_infinity _ => Raise OverflowError
  | S754_finite s m e =>
      let a := match e with
               | Zneg p => Z.pos m / Z.pow_pos 2 p
               | _ => Z.pos m * 2 ^ e
               end in
      Ok (if s then - a else a)
  end.

(** [a / b] on integers (true division).  Both operands of the callers
    below are list lengths or small constants, exactly representable, so
    the correctly rounded quotient of the integers is the quotient of
    their floats. *)
Definition py_truediv (a b : Z) : result float :=
  if b =? 0 then Raise ZeroDivisionError
  else Ok (fdiv (float_of_Z a) (float_of_Z b)).

(** ** Python lists *)

Definition len {A : Type} (l : list A) : Z := Z.of_nat (length l).

(** [l[i]]: a negative index counts from the end. *)
Definition getitem {A : Type} (l : list A) (i : Z) : result A :=
  let j := if i <? 0 then len l + i else i in
  if j <? 0 then Raise IndexError
  else match nth_error l (Z.to_nat j) with
       | Some a => Ok a
       | None => Raise IndexError
       end.

(** [range(k)]. *)
Definition range (k : Z) : list Z := map Z.of_nat (seq 0 (Z.to_nat k)).

(** ** Route compressor: [downsample_points] *)

Definition downsample_points {A : Type} (points : list A) (max_points : Z)
  : result (list A) :=
  if len points <=? max_points then Ok points
  else
    let* step := py_truediv (len points - 1) (max_points - 1) in
    let* head := comprehension (fun i => py_int (fmul (float_of_Z i) step))
                   (range (max_points - 1)) in
    let indices := head ++ [len points - 1] in
    comprehension (fun i => getitem points i) indices.

(** [encode_polyline]: the compressor.  It downsamples with the fixed
    ceiling of 500 points and hands the result to the [polyline] library. *)
Section Compressor.
Variable polyline_encode : list (float * float) -> string.

Definition encode_polyline (points : list (float * float)) : result string :=
  let* points := downsample_points points 500 in
  Ok (polyline_encode points).
End Compressor.

(** ** External collaborators

    [PyMath]: the functions of Python's [math] module and the float power
    operator that the geometry code calls and that are implemented by the
    platform's C library.  [math.sqrt] and [math.radians] are not among
    them: the first is IEEE-754's correctly rounded square root, the second
    a single multiplication. *)

Class PyMath : Type := {
  math_sin : float -> result float;
  math_cos : float -> result float;
  math_atan2 : float -> float -> result float;
  float_pow : float -> float -> result float
}.

(** [PyFormat]: formatting of floats inside f-strings, [format_1f x] for
    [f"{x:.1f}"] and [format_float x] for [f"{x}"]. *)
Class PyFormat : Type := {
  format_1f : float -> string;
  format_float : float -> string
}.

(** ** Geometry utilities *)

Definition fopp : float -> float := SFopp.
Definition fabs : float -> float := SFabs.
Definition fone : float := float_of_Z 1.
Definition ftwo : float := float_of_Z 2.

Definition is_nan (x : float) : bool :=
  match x with S754_nan => true | _ => false end.

Definition is_finite (x : float) : bool :=
  match x with S754_zero _ | S754_finite _ _ _ => true | _ => false end.

(** [math.pi], the binary64 value 0x400921FB54442D18. *)
Definition math_pi : float := S754_finite false 7074237752028440 (-51).

(** [math.radians(x)] is [x * (pi / 180)]. *)
Definition math_radians (x : float) : float :=
  fmul x (fdiv math_pi (float_of_Z 180)).

(** [math.sqrt(x)]: a negative argument is a domain error. *)
Definition math_sqrt (x : float) : result float :=
  match x with
  | S754_finite true _ _ | S754_infinity true => Raise ValueError
  | _ => Ok (fsqrt x)
  end.

Section Geometry.
Context {M : PyMath}.

Definition haversine_distance (lat1 lon1 lat2 lon2 : float) : result float :=
  let R := float_of_Z 6371000 in
  let phi1 := math_radians lat1 in
  let phi2 := math_radians lat2 in
  let delta_phi := math_radians (fsub lat2 lat1) in
  let delta_lambda := math_radians (fsub lon2 lon1) in
  let* s1 := math_sin (fdiv delta_phi ftwo) in
  let* s1sq := float_pow s1 ftwo in
  let* c1 := math_cos phi1 in
  let* c2 := math_cos phi2 in
  let* s2 := math_sin (fdiv delta_lambda ftwo) in
  let* s2sq := float_pow s2 ftwo in
  let a := fadd s1sq (fmul (fmul c1 c2) s2sq) in
  let* ra := math_sqrt a in
  let* rb := math_sqrt (fsub fone a) in
  let* t := math_atan2 ra rb in
  let c := fmul ftwo t in
  Ok (fmul R c).

(** [l[::step]] for a positive [step]: the elements at indices
    [0, step, 2*step, ...]; [skip] counts the elements still to pass over. *)
Fixpoint slice_from {A : Type} (skip step : nat) (l : list A) : list A :=
  match l with
  | [] => []
  | x :: l' =>
      match skip with
      | O => x :: slice_from (Nat.pred step) step l'
      | S skip' => slice_from skip' step l'
      end
  end.

Definition slice_step {A : Type} (l : list A) (step : Z) : list A :=
  slice_from 0 (Z.to_nat step) l.

(** The loop of [distance_from_route] over the sampled points. *)
Fixpoint min_dist_loop (place_lat place_lon : float)
    (sampled_points : list (float * float)) (min_dist : float) : result float :=
  match sampled_points with
  | [] => Ok min_dist
  | (lat, lon) :: rest =>
      let* dist := haversine_distance place_lat place_lon lat lon in
      min_dist_loop place_lat place_lon rest
        (if flt dist min_dist then dist else min_dist)
  end.

Definition distance_from_route (place_lat place_lon : float)
    (route_points : list (float * float)) : result float :=
  let min_dist := finf in
  let step := Z.max 1 (len route_points / 100) in
  let sampled_points := slice_step route_points step in
  min_dist_loop place_lat place_lon sampled_points min_dist.
End Geometry.

(** ** Route parser: format A (GPX)

    [gpxpy.parse] is an external collaborator; what it returns is the
    document below with its three tiers. *)

Record GPXPoint : Type := { latitude : float; longitude : float }.
Record GPXTrackSegment : Type := { seg_points : list GPXPoint }.
Record GPXTrack : Type := { segments : list GPXTrackSegment }.
Record GPXRoute : Type := { rte_points : list GPXPoint }.
Record GPX : Type := {
  tracks : list GPXTrack;
  routes : list GPXRoute;
  waypoints : list GPXPoint
}.

Definition coordinate (point : GPXPoint) : float * float :=
  (latitude point, longitude point).

(** The three sources, each in document order. *)
Definition track_coordinates (gpx : GPX) : list (float * float) :=
  flat_map (fun track =>
    flat_map (fun segment => map coordinate (seg_points segment))
      (segments track)) (tracks gpx).

Definition route_coordinates (gpx : GPX) : list (float * float) :=
  flat_map (fun route => map coordinate (rte_points route)) (routes gpx).

Definition waypoint_coordinates (gpx : GPX) : list (float * float) :=
  map coordinate (waypoints gpx).

Definition is_empty {A : Type} (l : list A) : bool :=
  match l with [] => true | _ => false end.

Section Parser.
Variable gpxpy_parse : list Byte.byte -> result GPX.

Definition parse_gpx (file_content : list Byte.byte)
  : result (list (float * float)) :=
  let* gpx := gpxpy_parse file_content in
  let points := [] in
  let points := points ++ track_coordinates gpx in
  let points :=
    if is_empty points then points ++ route_coordinates gpx else points in
  let points :=
    if is_empty points then points ++ waypoint_coordinates gpx else points in
  Ok points.
End Parser.

(** ** Search client and result assembler *)

(** One element of the response's [places] array; an absent attribute is
    [None]. *)
Record Location : Type := {
  loc_latitude : option float;
  loc_longitude : option float
}.

Record Place : Type := {
  place_id : option string;
  displayName_text : option string;
  formattedAddress : option string;
  place_rating : option float;
  userRatingCount : option Z;
  place_location : option Location;
  place_types : option (list string);
  priceLevel : option string;
  openNow : option bool
}.

(** The result dictionary of [search_along_route].  A field of option type
    is what [dict.get] gives for its key. *)
Record PlaceResult : Type := {
  name : string;
  address : string;
  rating : option float;
  rating_count : option Z;
  lat : option float;
  lon : option float;
  types : string;
  price_level : option string;
  price_raw : string;
  open_now : option bool;
  distance_m : option float;
  distance_mi : option float;
  distance_display : string;
  maps_url : string
}.

Definition price_map : gmap string string :=
  <["PRICE_LEVEL_FREE" := "Free"]>
  (<["PRICE_LEVEL_INEXPENSIVE" := "$"]>
  (<["PRICE_LEVEL_MODERATE" := "$$"]>
  (<["PRICE_LEVEL_EXPENSIVE" := "$$$"]>
  (<["PRICE_LEVEL_VERY_EXPENSIVE" := "$$$$"]> ∅))))%string.

(** [price_map.get(price_raw, "")]. *)
Definition price_display_of (price_raw : string) : string :=
  default ""%string (price_map !! price_raw).

(** Truth values of optional floats, strings and lists. *)
Definition truthy_float (x : option float) : bool :=
  match x with Some v => float_truthy v | None => false end.

Definition truthy_string (x : option string) : bool :=
  match x with Some ""%string | None => false | Some _ => true end.

Definition truthy_route (r : option (list (float * float))) : bool :=
  match r with Some (_ :: _) => true | _ => false end.

(** The literal [1609.34]: the binary64 value nearest to 160934/100. *)
Definition meters_per_mile : float := fdiv (float_of_Z 160934) (float_of_Z 100).

Section Search.
Context {M : PyMath} {F : PyFormat}.

(** The body of the loop over [places]. *)
Definition assemble_place (route_points : option (list (float * float)))
    (place : Place) : result PlaceResult :=
  let lat := match place_location place with Some l => loc_latitude l | None => None end in
  let lon := match place_location place with Some l => loc_longitude l | None => None end in
  let* dist_from_route :=
    match route_points, lat, lon with
    | Some pts, Some la, Some lo =>
        if truthy_route route_points && float_truthy la && float_truthy lo
        then let* d := distance_from_route la lo pts in Ok (Some d)
        else Ok None
    | _, _, _ => Ok None
    end in
  let price_raw := default ""%string (priceLevel place) in
  let price_display := price_display_of price_raw in
  let open_now := openNow place in
  let place_id := default ""%string (place_id place) in
  let maps_url :=
    if negb (String.eqb place_id "")
    then ("https://www.google.com/maps/place/?q=place_id:" ++ place_id)%string
    else match lat, lon with
         | Some la, Some lo =>
             if float_truthy la && float_truthy lo
             then ("https://www.google.com/maps/search/?api=1&query="
                     ++ format_float la ++ "," ++ format_float lo)%string
             else ""%string
         | _, _ => ""%string
         end in
  Ok {| name := default "Unknown"%string (displayName_text place);
        address := default ""%string (formattedAddress place);
        rating := place_rating place;
        rating_count := userRatingCount place;
        lat := lat;
        lon := lon;
        types := String.concat ", " (firstn 3 (default [] (place_types place)));
        price_level := Some price_display;
        price_raw := price_raw;
        open_now := open_now;
        distance_m := dist_from_route;
        distance_mi :=
          if truthy_float dist_from_route
          then option_map (fun d => fdiv d meters_per_mile) dist_from_route
          else None;
        distance_display :=
          match dist_from_route with
          | Some d =>
              if float_truthy d
              then (format_1f (fdiv d meters_per_mile) ++ " mi")%string
              else ""%string
          | None => ""%string
          end;
        maps_url := maps_url |}.

(** [response] stands for the outcome of the single POST request, after
    [raise_for_status] and [data.get("places", [])]. *)
Definition search_along_route (response : result (list Place))
    (route_points : option (list (float * float)))
  : result (list PlaceResult) :=
  let* places := response in
  comprehension (assemble_place route_points) places.
End Search.

(** ** Filter pipeline ([app.py]) *)

Definition not_in (x : option string) (l : list string) : bool :=
  match x with
  | Some v => negb (existsb (String.eqb v) l)
  | None => true
  end.

Definition is_True (x : option bool) : bool :=
  match x with Some true => true | _ => false end.

(** One pass of the loop body: [false] where the body reaches a [continue],
    [true] where it reaches [filtered_results.append(place)]. *)
Definition passes_filters (min_rating : float) (price_filter : list string)
    (open_now_only : bool) (max_distance_mi : float) (place : PlaceResult) : bool :=
  if truthy_float (rating place)
     && match rating place with Some r => flt r min_rating | None => false end
  then false
  else if flt fzero min_rating && negb (truthy_float (rating place))
  then false
  else if negb (is_empty price_filter) && not_in (price_level place) price_filter
          && truthy_string (price_level place)
  then false
  else if open_now_only && negb (is_True (open_now place))
  then false
  else if truthy_float (distance_mi place)
          && match distance_mi place with
             | Some d => flt max_distance_mi d
             | None => false
             end
  then false
  else true.

Definition filter_results (min_rating : float) (price_filter : list string)
    (open_now_only : bool) (max_distance_mi : float) (results : list PlaceResult)
  : list PlaceResult :=
  List.filter (passes_filters min_rating price_filter open_now_only max_distance_mi)
    results.


(** ** Text

    The methods of [str] that the parsers and the page call.  [isspace],
    the test for a whitespace character, [float] on a string and
    [str.lower] are parameters where they are used. *)

(** [s.split(sep)] for a separator of one character: the pieces between
    the separators, empty ones included; there is always one piece. *)
Fixpoint str_split (sep : ascii) (s : string) : list string :=
  match s with
  | EmptyString => [EmptyString]
  | String c s' =>
      if Ascii.eqb c sep then EmptyString :: str_split sep s'
      else match str_split sep s' with
           | piece :: pieces => String c piece :: pieces
           | [] => [String c EmptyString]
           end
  end.

(** [needle in haystack]. *)
Fixpoint contains (needle haystack : string) : bool :=
  String.prefix needle haystack
  || match haystack with
     | EmptyString => false
     | String _ rest => contains needle rest
     end.

Section Whitespace.
Variable isspace : ascii -> bool.

(** [s.split()]: the maximal runs of characters that are not whitespace.
    [words inside s] are the words of [s], the first of them continuing a
    word already begun when [inside] is set. *)
Fixpoint words (inside : bool) (s : string) : list string :=
  match s with
  | EmptyString => if inside then [EmptyString] else []
  | String c s' =>
      if isspace c
      then if inside then EmptyString :: words false s' else words false s'
      else match words true s' with
           | word :: rest => String c word :: rest
           | [] => [String c EmptyString]
           end
  end.

Definition split_whitespace (s : string) : list string := words false s.

(** [s.strip()]. *)
Fixpoint lstrip (s : string) : string :=
  match s with
  | EmptyString => EmptyString
  | String c s' => if isspace c then lstrip s' else s
  end.

Fixpoint rstrip (s : string) : string :=
  match s with
  | EmptyString => EmptyString
  | String c s' =>
      match rstrip s' with
      | EmptyString => if isspace c then EmptyString else String c EmptyString
      | kept => String c kept
      end
  end.

Definition strip (s : string) : string := rstrip (lstrip s).
End Whitespace.

(** ** Route parser: format B (KML) and the dispatcher

    [pykml]'s parser is an external collaborator; what [parse_kml] reads of
    its element tree is, for each element, [str(element.coordinates)] where
    [hasattr(element, 'coordinates')] holds, and [element.iterchildren()]. *)

#[warnings="-register-all"] Inductive Element : Type :=
  | element (coordinates : option string) (children : list Element).

Section RouteParser.
Variable isspace : ascii -> bool.
Variable float_of_str : string -> result float.
Variable str_lower : string -> string.
Variable gpxpy_parse : list Byte.byte -> result GPX.
Variable kml_parse : list Byte.byte -> result Element.

(** The body of the loop of [extract_coords] for one token. *)
Definition extract_coord (coord : string) : result (list (float * float)) :=
  let parts := str_split "," coord in
  if 2 <=? len parts then
    let* part0 := getitem parts 0 in
    let* lon := float_of_str part0 in
    let* part1 := getitem parts 1 in
    let* lat := float_of_str part1 in
    Ok [(lat, lon)]
  else Ok [].

Definition extract_coords (coord_text : string) : result (list (float * float)) :=
  let* coords :=
    comprehension extract_coord (split_whitespace isspace (strip isspace coord_text)) in
  Ok (concat coords).

Fixpoint find_coordinates (e : Element) : result (list (float * float)) :=
  match e with
  | element coordinates children =>
      let* found :=
        match coordinates with
        | Some text => extract_coords text
        | None => Ok []
        end in
      let* below :=
        (fix iterchildren (l : list Element) : result (list (float * float)) :=
           match l with
           | [] => Ok []
           | child :: l' =>
               let* here := find_coordinates child in
               let* after := iterchildren l' in
               Ok (here ++ after)
           end) children in
      Ok (found ++ below)
  end.

Definition parse_kml (file_content : list Byte.byte)
  : result (list (float * float)) :=
  let* root := kml_parse file_content in
  find_coordinates root.

Definition parse_route (file_content : list Byte.byte) (file_type : string)
  : result (list (float * float)) :=
  let file_type := str_lower file_type in
  if String.eqb file_type "gpx" then parse_gpx gpxpy_parse file_content
  else if String.eqb file_type "kml" then parse_kml file_content
  else Raise ValueError.
End RouteParser.

(** ** Map rendering: [generate_map]

    [folium] is an external collaborator.  A map is what the function hands
    to it: the centre and zoom given to [folium.Map], the layers added with
    [add_to], in order, and the argument of [fit_bounds] when it is
    called. *)

(** What the popup and the tooltip of a place marker are built from. *)
Record Popup : Type := {
  popup_name : string;
  rating_str : string;
  price_str : string;
  open_str : string;
  distance_str : string;
  popup_address : string;
  popup_maps_url : string
}.

Inductive Layer : Type :=
  | PolyLine (locations : list (float * float))
  | RouteMarker (location : float * float) (tooltip : string)
  | PlaceMarker (location : float * float) (popup : Popup) (tooltip : string).

Record FoliumMap : Type := {
  map_location : float * float;
  zoom_start : Z;
  layers : list Layer;
  fit_bounds : option (list (option float * option float))
}.

(** The literal [[30.2672, -97.7431]]. *)
Definition austin : float * float :=
  (fdiv (float_of_Z 302672) (float_of_Z 10000),
   fdiv (float_of_Z (-977431)) (float_of_Z 10000)).

(** The places the loops of [generate_map] run over: none when [places]
    is [None]. *)
Definition truthy_places (places : option (list PlaceResult)) : list PlaceResult :=
  match places with
  | Some places => places
  | None => []
  end.

Section MapRendering.
Context {F : PyFormat}.

(** The body of the loop over [places]: no marker unless latitude and
    longitude are both true.  A result always has the key [maps_url], so
    the default of [place.get] is not used. *)
Definition place_marker (place : PlaceResult) : list Layer :=
  match lat place, lon place with
  | Some la, Some lo =>
      if float_truthy la && float_truthy lo then
        let rating_str :=
          match rating place with
          | Some r => if float_truthy r then format_1f r else "N/A"%string
          | None => "N/A"%string
          end in
        let price_str :=
          if truthy_string (price_level place)
          then (" · " ++ default ""%string (price_level place))%string
          else ""%string in
        let distance_str :=
          if negb (String.eqb (distance_display place) "")
          then ("<br>" ++ distance_display place ++ " from route")%string
          else ""%string in
        let open_str :=
          if is_True (open_now place) then " · Open"%string else ""%string in
        [PlaceMarker (la, lo)
           {| popup_name := name place;
              rating_str := rating_str;
              price_str := price_str;
              open_str := open_str;
              distance_str := distance_str;
              popup_address := address place;
              popup_maps_url := maps_url place |}
           (name place ++ " (" ++ rating_str ++ ")")%string]
      else []
  | _, _ => []
  end.

Definition generate_map (route_points : list (float * float))
    (places : option (list PlaceResult)) : result FoliumMap :=
  let* view :=
    if is_empty route_points then Ok (austin, 10)
    else
      let mid_idx := len route_points / 2 in
      let* center := getitem route_points mid_idx in
      Ok (center, 12) in
  let* route_layers :=
    if is_empty route_points then Ok []
    else
      let* start := getitem route_points 0 in
      let* stop := getitem route_points (-1) in
      Ok [PolyLine route_points; RouteMarker start "Start";
          RouteMarker stop "End"] in
  let place_layers := flat_map place_marker (truthy_places places) in
  let bounds :=
    if is_empty route_points then None
    else
      let all_points := map (fun p => (Some (fst p), Some (snd p))) route_points in
      Some (all_points
              ++ map (fun p => (lat p, lon p))
                   (List.filter (fun p => truthy_float (lat p))
                      (truthy_places places))) in
  Ok {| map_location := fst view;
        zoom_start := snd view;
        layers := route_layers ++ place_layers;
        fit_bounds := bounds |}.
End MapRendering.

(** ** The page ([app.py])

    One run of the script takes the values of the sidebar widgets and the
    session state, and gives the session state it leaves and what it shows,
    in order; the fixed texts of the page (title, captions, help) are left
    out. *)

Record UploadedFile : Type := {
  file_name : string;
  getvalue : list Byte.byte
}.

Record Sidebar : Type := {
  uploaded_file : option UploadedFile;
  query : string;
  api_key : string;
  max_results : Z;
  search_btn : bool;
  min_rating : float;
  price_filter : list string;
  open_now_only : bool;
  max_distance_mi : float
}.

(** [st.session_state] once its keys are initialised: a key that is absent
    and a key that holds [None] are both [None]. *)
Record SessionState : Type := {
  ss_results : option (list PlaceResult);
  ss_route_points : option (list (float * float));
  ss_filtered_results : option (list PlaceResult);
  ss_results_unfiltered_count : option Z
}.

Definition fresh_session : SessionState :=
  {| ss_results := None; ss_route_points := None;
     ss_filtered_results := None; ss_results_unfiltered_count := None |}.

(** The texts the page shows, by what they say; a text that quotes a count
    or an error message carries it. *)
Inductive Message : Type :=
  | RouteTooShort                        (* Route must have at least 2 points *)
  | RouteLoaded (n : Z)                  (* Route loaded: {n} points *)
  | ErrorParsingRoute (error_msg : string) (* Error parsing route file: {str(e)} *)
  | UploadRouteFirst                     (* Please upload a route file first *)
  | EnterSearchQuery                     (* Please enter a search query *)
  | MissingApiKey                        (* Missing API key. ... *)
  | NoResultsFound                       (* No results found. ... *)
  | ApiKeyError                          (* API key error. ... *)
  | InvalidRequest                       (* Invalid request. ... *)
  | SearchError (error_msg : string)     (* Search error: {error_msg} *)
  | Showing (shown total_count : Z)      (* Showing {shown} of {total_count} places *)
  | Found (shown : Z)                    (* Found {shown} places *)
  | NoPlacesMatch                        (* No places match your filters. ... *)
  | MapHeading                           (* Map *)
  | UploadToSeeMap                       (* Upload a route file to see it on the map *)
  | ApiKeyLoaded                         (* API key loaded *)
  | SetApiKey.                           (* Set GOOGLE_API_KEY in .env *)

(** The calls that show something, [st.sidebar.success] counted with
    [st.success]; [uncaught e] is an exception that no [try] of the script
    catches, which ends the run. *)
Inductive Output : Type :=
  | st_error (msg : Message)
  | st_warning (msg : Message)
  | st_info (msg : Message)
  | st_success (msg : Message)
  | st_subheader (msg : Message)
  | st_dataframe (rows : list PlaceResult)
  | st_folium (m : FoliumMap) (height : Z)
  | uncaught (e : exn).

(** The options of the price multiselect. *)
Definition price_options : list string := ["$"; "$$"; "$$$"; "$$$$"]%string.

Definition placeholder_map : FoliumMap :=
  {| map_location := austin; zoom_start := 11; layers := []; fit_bounds := None |}.

(** The message chosen for a failed search. *)
Definition search_error (error_msg : string) : Message :=
  if contains "401" error_msg || contains "403" error_msg then ApiKeyError
  else if contains "400" error_msg then InvalidRequest
  else SearchError error_msg.

(** The libraries the page relies on: [str.isspace] on one character,
    [float] on a string, [str.lower], the parsers of [gpxpy] and [pykml],
    [polyline.encode], and [str] on an exception. *)
Class Libraries : Type := {
  isspace : ascii -> bool;
  float_of_str : string -> result float;
  str_lower : string -> string;
  gpxpy_parse : list Byte.byte -> result GPX;
  kml_parse : list Byte.byte -> result Element;
  polyline_encode : list (float * float) -> string;
  exn_str : exn -> string
}.

Section Page.
Context {M : PyMath} {F : PyFormat} {L : Libraries}.
(** The POST request of [search_along_route] for an encoded polyline, a
    query, a key and a result count. *)
Variable places_search : string -> string -> string -> Z -> result (list Place).

(** The key status at the foot of the sidebar. *)
Definition key_status (api_key : string) : list Output :=
  if String.eqb api_key "" then [st_warning SetApiKey]
  else [st_success ApiKeyLoaded].

(** "Parse route when file is uploaded". *)
Definition load_route (uploaded_file : option UploadedFile) (s : SessionState)
  : SessionState * list Output :=
  match uploaded_file with
  | None => (s, [])
  | Some file =>
      let parsed :=
        let* extension := getitem (str_split "." (file_name file)) (-1) in
        let file_type := str_lower extension in
        parse_route isspace float_of_str str_lower gpxpy_parse kml_parse
          (getvalue file) file_type in
      match parsed with
      | Ok points =>
          if len points <? 2
          then ({| ss_results := ss_results s;
                   ss_route_points := None;
                   ss_filtered_results := ss_filtered_results s;
                   ss_results_unfiltered_count := ss_results_unfiltered_count s |},
                [st_error RouteTooShort])
          else ({| ss_results := ss_results s;
                   ss_route_points := Some points;
                   ss_filtered_results := ss_filtered_results s;
                   ss_results_unfiltered_count := ss_results_unfiltered_count s |},
                [st_success (RouteLoaded (len points))])
      | Raise e =>
          ({| ss_results := ss_results s;
              ss_route_points := None;
              ss_filtered_results := ss_filtered_results s;
              ss_results_unfiltered_count := ss_results_unfiltered_count s |},
           [st_error (ErrorParsingRoute (exn_str e))])
      end
  end.

(** "Handle search". *)
Definition handle_search (w : Sidebar) (s : SessionState)
  : SessionState * list Output :=
  if negb (search_btn w) then (s, [])
  else
    match ss_route_points s with
    | Some ((_ :: _) as route_points) =>
        if String.eqb (query w) "" then (s, [st_warning EnterSearchQuery])
        else if String.eqb (api_key w) "" then (s, [st_warning MissingApiKey])
        else
          let searched :=
            let* encoded := encode_polyline polyline_encode route_points in
            search_along_route
              (places_search encoded (query w) (api_key w) (max_results w))
              (Some route_points) in
          match searched with
          | Ok results =>
              ({| ss_results := Some results;
                  ss_route_points := ss_route_points s;
                  ss_filtered_results := ss_filtered_results s;
                  ss_results_unfiltered_count := Some (len results) |},
               if is_empty results then [st_info NoResultsFound] else [])
          | Raise e => (s, [st_error (search_error (exn_str e))])
          end
    | _ => (s, [st_warning UploadRouteFirst])
    end.

(** "Display results". *)
Definition display_results (w : Sidebar) (s : SessionState)
  : SessionState * list Output :=
  match ss_results s with
  | Some ((_ :: _) as results) =>
      let filtered_results :=
        filter_results (min_rating w) (price_filter w) (open_now_only w)
          (max_distance_mi w) results in
      let total_count := default (len results) (ss_results_unfiltered_count s) in
      let heading :=
        if len filtered_results <? total_count
        then Showing (len filtered_results) total_count
        else Found (len filtered_results) in
      if is_empty filtered_results
      then (s, [st_subheader heading; st_info NoPlacesMatch])
      else ({| ss_results := ss_results s;
               ss_route_points := ss_route_points s;
               ss_filtered_results := Some filtered_results;
               ss_results_unfiltered_count := ss_results_unfiltered_count s |},
            [st_subheader heading; st_dataframe filtered_results])
  | _ => (s, [])
  end.

(** "Display map".  The key [filtered_results] is always present, so the
    default of [session_state.get] is never what the map gets. *)
Definition display_map (w : Sidebar) (s : SessionState) : list Output :=
  match ss_route_points s with
  | Some ((_ :: _) as route_points) =>
      let map_results := ss_filtered_results s in
      match generate_map route_points map_results with
      | Ok m => [st_subheader MapHeading; st_folium m 600]
      | Raise e => [st_subheader MapHeading; uncaught e]
      end
  | _ =>
      match uploaded_file w with
      | None => [st_subheader MapHeading; st_info UploadToSeeMap;
                 st_folium placeholder_map 400]
      | Some _ => []
      end
  end.

Definition script (w : Sidebar) (s : SessionState) : SessionState * list Output :=
  let loaded := load_route (uploaded_file w) s in
  let searched := handle_search w (fst loaded) in
  let displayed := display_results w (fst searched) in
  (fst displayed,
   key_status (api_key w) ++ snd loaded ++ snd searched ++ snd displayed
     ++ display_map w (fst displayed)).

(** The session after a sequence of runs. *)
Definition session_after (runs : list Sidebar) (s : SessionState) : SessionState :=
  fold_left (fun s w => fst (script w s)) runs s.
End Page.


(** ** Fixtures used by examples *)

(** The five upstream price-tier codes. *)
Definition price_codes : list string :=
  ["PRICE_LEVEL_FREE"; "PRICE_LEVEL_INEXPENSIVE"; "PRICE_LEVEL_MODERATE";
   "PRICE_LEVEL_EXPENSIVE"; "PRICE_LEVEL_VERY_EXPENSIVE"]%string.

(** A response element that carries an identifier and a location only. *)
Definition place_at (id : option string) (la lo : option float) : Place :=
  {| place_id := id;
     displayName_text := None;
     formattedAddress := None;
     place_rating := None;
     userRatingCount := None;
     place_location := Some {| loc_latitude := la; loc_longitude := lo |};
     place_types := None;
     priceLevel := None;
     openNow := None |}.

(** A result dictionary that holds a price tier and nothing else. *)
Definition priced (price : option string) : PlaceResult :=
  {| name := EmptyString; address := EmptyString; rating := None;
     rating_count := None; lat := None; lon := None; types := EmptyString;
     price_level := price; price_raw := EmptyString; open_now := None;
     distance_m := None; distance_mi := None; distance_display := EmptyString;
     maps_url := EmptyString |}.

(** A document whose only coordinates are two standalone waypoints. *)
Definition two_waypoints : GPX :=
  {| tracks := []; routes := [];
     waypoints := [ {| latitude := float_of_Z 30; longitude := float_of_Z (-97) |};
                    {| latitude := float_of_Z 31; longitude := float_of_Z (-97) |} ] |}.

(** A first-order stand-in for the C library, accurate near zero only:
    [sin x ~ x], [cos x ~ 1], [atan2 y x ~ y / x], [x ** 2 = x * x]. *)
Definition small_angle_math : PyMath :=
  {| math_sin x := Ok x;
     math_cos x := Ok fone;
     math_atan2 y x := Ok (fdiv y x);
     float_pow x y := Ok (fmul x x) |}.

(** A formatter that prints the integer part only. *)
Definition integer_part_format : PyFormat :=
  {| format_1f x := match py_int x with Ok z => pretty z | Raise _ => "nan"%string end;
     format_float x := match py_int x with Ok z => pretty z | Raise _ => "nan"%string end |}.

Definition austin_route : list (float * float) :=
  [(float_of_Z 30, float_of_Z (-97)); (float_of_Z 31, float_of_Z (-97))].


(** A reader of decimal integers, standing for [float] on a string. *)
Definition integer_reader (s : string) : result float :=
  match NilZero.int_of_string s with
  | Some i => Ok (float_of_Z (Z.of_int i))
  | None => Raise ValueError
  end.

(** A document with the two coordinates of [austin_route] in one line
    string, the first with an altitude. *)
Definition austin_kml : Element :=
  element None [element (Some "-97,30,0 -97,31"%string) []].

Definition plain_libraries : Libraries :=
  {| isspace := Ascii.is_space;
     float_of_str := integer_reader;
     str_lower := fun s => s;
     gpxpy_parse := fun _ => Ok two_waypoints;
     kml_parse := fun _ => Ok austin_kml;
     polyline_encode := fun _ => EmptyString;
     exn_str := fun _ => EmptyString |}.

(** The sidebar as the page first shows it, nothing uploaded or typed. *)
Definition idle_sidebar : Sidebar :=
  {| uploaded_file := None; query := EmptyString; api_key := EmptyString;
     max_results := 20; search_btn := false; min_rating := fzero;
     price_filter := []; open_now_only := false;
     max_distance_mi := float_of_Z 5 |}.

(** A session that holds a route and nothing else. *)
Definition route_session : SessionState :=
  {| ss_results := None; ss_route_points := Some austin_route;
     ss_filtered_results := None; ss_results_unfiltered_count := None |}.

(** A session that holds two results, one without a price tier. *)
Definition results_session : SessionState :=
  {| ss_results := Some [priced None; priced (Some "$$"%string)];
     ss_route_points := None;
     ss_filtered_results := None;
     ss_results_unfiltered_count := Some 2 |}.

(** A response element of the free tier. *)
Definition free_place : Place :=
  {| place_id := None;
     displayName_text := None;
     formattedAddress := None;
     place_rating := None;
     userRatingCount := None;
     place_location := None;
     place_types := None;
     priceLevel := Some "PRICE_LEVEL_FREE"%string;
     openNow := None |}.


(** The C library at the arguments the haversine formula reaches from
    (-43.5577, -28.3277), in the Azores, to itself and to
    (43.5577, 151.6723), almost its antipode.  The recorded values are
    those of binary64 [sin] and [cos]:
    [sin 0x1.853c3f72e9fafp-1 = 0x1.60cfb65353868p-1] (half the difference
    of the latitudes), [sin 0x1.921fb54442d18p+0 = 1.0] (half the
    difference of the longitudes, [pi/2]),
    [cos 0x1.853c3f72e9fafp-1 = 0x1.73095c5ed51d7p-1] (either latitude),
    [sin 0.0 = 0.0], [atan2 0.0 1.0 = 0.0], and [x ** 2 = x * x].  Other
    arguments are not reached between these two places. *)
Definition libm_at_antipodes : PyMath :=
  {| math_sin x :=
       if feqb x (S754_finite false 6847500571811759 (-53))
       then Ok (S754_finite false 6206723361945704 (-53))
       else if feqb x (S754_finite false 7074237752028440 (-52))
       then Ok fone
       else Ok x;
     math_cos x :=
       if feqb (fabs x) (S754_finite false 6847500571811759 (-53))
       then Ok (S754_finite false 6527344293269975 (-53))
       else Ok fone;
     math_atan2 y x := Ok y;
     float_pow x y := Ok (fmul x x) |}.

(** The literals [(-43.5577, -28.3277)] and [(43.5577, 151.6723)]. *)
Definition azores : float * float :=
  (fdiv (float_of_Z (-435577)) (float_of_Z 10000),
   fdiv (float_of_Z (-283277)) (float_of_Z 10000)).

Definition antipode : float * float :=
  (fdiv (float_of_Z 435577) (float_of_Z 10000),
   fdiv (float_of_Z 1516723) (float_of_Z 10000)).

(** A route of 200 coordinates going west from (30, -97), a thousandth of
    a degree apart: its stride is 2 and its last index, 199, is odd. *)
Definition long_route : list (float * float) :=
  map (fun i => (float_of_Z 30,
                 fsub (float_of_Z (-97)) (fdiv (float_of_Z i) (float_of_Z 1000))))
    (range 200).

(** The last coordinate of [long_route]. *)
Definition west_end : float * float :=
  (float_of_Z 30, fsub (float_of_Z (-97)) (fdiv (float_of_Z 199) (float_of_Z 1000))).


(** ** Notions of the specification *)

Definition fle : float -> float -> bool := SFleb.

(** The sampling stride [k = max(1, floor(n / 100))]. *)
Definition stride (n : Z) : Z := Z.max 1 (n / 100).

(** [q] is one of "every k-th coordinate of the route, starting at the
    first": it sits at an index that is a multiple of [k]. *)
Definition sampled_vertex {A : Type} (route : list A) (k : Z) (q : A) : Prop :=
  exists j : Z, 0 <= j /\ nth_error route (Z.to_nat (j * k)) = Some q.

(** The index positions the specification names for a route of [n]
    coordinates: [floor(i * (n-1) / (max_points-1))] for
    [i = 0 .. max_points-2], then the last index. *)
Definition spec_indices (n max_points : Z) : list Z :=
  map (fun i => i * (n - 1) / (max_points - 1)) (range (max_points - 1))
    ++ [n - 1].

(** What the specification says of the compressor for one route and one
    ceiling: a route within the ceiling is returned unchanged; a longer one
    is cut down to exactly [max_points] coordinates, those at
    [spec_indices], the first and the last being the route's own. *)
Definition selects_evenly {A : Type} (points : list A) (max_points : Z) : Prop :=
  (len points <= max_points ->
     downsample_points points max_points = Ok points) /\
  (max_points < len points ->
     exists selected : list A,
       downsample_points points max_points = Ok selected /\
       len selected = max_points /\
       map Some selected
         = map (fun idx => nth_error points (Z.to_nat idx))
             (spec_indices (len points) max_points) /\
       nth_error selected 0 = nth_error points 0 /\
       nth_error selected (Z.to_nat (max_points - 1))
         = nth_error points (Z.to_nat (len points - 1))).

(** What holds of the compressor for one route and any ceiling of two or
    more: a route within the ceiling is returned unchanged; a longer one is
    cut down to exactly [max_points] coordinates, the first and the last
    being the route's own, and the one at position [i] in between being
    taken at an index within one of [floor(i * (n-1) / (max_points-1))]. *)
Definition selects_spread {A : Type} (points : list A) (max_points : Z) : Prop :=
  (len points <= max_points ->
     downsample_points points max_points = Ok points) /\
  (max_points < len points ->
     exists (selected : list A) (indices : list Z),
       downsample_points points max_points = Ok selected /\
       len selected = max_points /\
       Forall2 (fun i idx =>
                  0 <= idx < len points /\
                  i * (len points - 1) / (max_points - 1) - 1 <= idx
                    <= i * (len points - 1) / (max_points - 1) + 1)
         (range (max_points - 1)) indices /\
       map Some selected
         = map (fun idx => nth_error points (Z.to_nat idx))
             (indices ++ [len points - 1]) /\
       nth_error selected 0 = nth_error points 0 /\
       nth_error selected (Z.to_nat (max_points - 1))
         = nth_error points (Z.to_nat (len points - 1))).

(** What the specification says of [distance_from_route]: it returns the
    distance to a sampled vertex that is below or equal to the distance to
    every sampled vertex. *)
Definition sampled_minimum {M : PyMath} (la lo : float)
    (route : list (float * float)) : Prop :=
  exists d q,
    distance_from_route la lo route = Ok d /\
    sampled_vertex route (stride (len route)) q /\
    haversine_distance la lo (fst q) (snd q) = Ok d /\
    forall q' dq', sampled_vertex route (stride (len route)) q' ->
      haversine_distance la lo (fst q') (snd q') = Ok dq' -> fle d dq' = true.

(** What the specification says of the first coordinate: the result is at
    most the distance to it. *)
Definition bounded_by_first {M : PyMath} (la lo : float)
    (route : list (float * float)) : Prop :=
  exists d q0 d0,
    distance_from_route la lo route = Ok d /\
    nth_error route 0 = Some q0 /\
    haversine_distance la lo (fst q0) (snd q0) = Ok d0 /\
    fle d d0 = true.

(** ** Notions used to state the further properties *)

(** Every character of [s] passes the test [P]. *)
Fixpoint all_chars (P : ascii -> bool) (s : string) : bool :=
  match s with
  | EmptyString => true
  | String c s' => P c && all_chars P s'
  end.

(** The coordinates texts of a document: for each element that has one,
    in document order. *)
Fixpoint coordinate_texts (e : Element) : list string :=
  match e with
  | element coordinates children =>
      match coordinates with Some text => [text] | None => [] end
      ++ flat_map coordinate_texts children
  end.

(** The coordinate a tuple of a KML coordinates text stands for: its first
    two numbers, swapped; none for a tuple of fewer than two. *)
Section Tuples.
Variable float_of_str : string -> result float.

Definition point_of_tuple (pieces : list string) : result (list (float * float)) :=
  match pieces with
  | lon :: lat :: _ =>
      let* x := float_of_str lon in
      let* y := float_of_str lat in
      Ok [(y, x)]
  | _ => Ok []
  end.
End Tuples.

(** What every run of the page leaves in the session: no route or one of
    at least two coordinates, a count that is the number of stored results,
    and never an empty list of places kept for the map. *)
Definition session_consistent (s : SessionState) : Prop :=
  match ss_route_points s with
  | Some points => 2 <= len points
  | None => True
  end /\
  match ss_results s with
  | Some results => ss_results_unfiltered_count s = Some (len results)
  | None => ss_results_unfiltered_count s = None
  end /\
  ss_filtered_results s <> Some [].

(** ** Rounding: where an exact value sits between two mantissas

    [located m l num den]: the rational [num / den] lies in [[m, m + 1)],
    at the place [l] says (on [m], below, at or above the midpoint). *)
Definition located (m : Z) (l : location) (num den : Z) : Prop :=
  match l with
  | loc_Exact => num = m * den
  | loc_Inexact Lt => m * den < num /\ 2 * num < (2 * m + 1) * den
  | loc_Inexact Eq => 2 * num = (2 * m + 1) * den
  | loc_Inexact Gt => (2 * m + 1) * den < 2 * num /\ num < (m + 1) * den
  end.

(** ** Binary64 values and the C library's guarantees *)

(** [x] is a binary64 value: its mantissa and exponent are in range. *)
Definition valid (x : float) : Prop := valid_binary prec emax x = true.

(** [x] is zero or finite, with sign [s]. *)
Definition finite_signed (s : bool) (x : float) : Prop :=
  match x with
  | S754_zero s' | S754_finite s' _ _ => s' = s
  | _ => False
  end.

Definition result_map {A B : Type} (f : A -> B) (r : result A) : result B :=
  match r with
  | Ok a => Ok (f a)
  | Raise e => Raise e
  end.

(** What the geometry relies on from the C library and from CPython's
    float power: the sine is odd and exact at zero, the cosine of a finite
    number is a binary64 value in [[-1, 1]] and fails with a domain error
    only, [atan2(0, 1)] is [0], and squaring ignores the sign. *)
Class PyMathSpec (M : PyMath) : Prop := {
  sin_odd : forall x, math_sin (fopp x) = result_map fopp (math_sin x);
  sin_zero : math_sin fzero = Ok fzero;
  cos_unit : forall x, is_finite x = true ->
    exists c, math_cos x = Ok c /\ valid c /\ fle (fabs c) fone = true;
  cos_error : forall x e, math_cos x = Raise e -> e = ValueError;
  atan2_zero : math_atan2 fzero fone = Ok fzero;
  pow_even : forall x, float_pow (fopp x) ftwo = float_pow x ftwo;
  pow_zero : float_pow fzero ftwo = Ok fzero
}.

(** The haversine formula: the central angle
    [2 * atan2(sqrt a, sqrt (1 - a))] with
    [a = sin^2(dphi / 2) + cos phi1 * cos phi2 * sin^2(dlambda / 2)]. *)
Definition haversine_angle {M : PyMath} (lat1 lon1 lat2 lon2 : float) : result float :=
  let phi1 := math_radians lat1 in
  let phi2 := math_radians lat2 in
  let delta_phi := math_radians (fsub lat2 lat1) in
  let delta_lambda := math_radians (fsub lon2 lon1) in
  let* s1 := math_sin (fdiv delta_phi ftwo) in
  let* s1sq := float_pow s1 ftwo in
  let* c1 := math_cos phi1 in
  let* c2 := math_cos phi2 in
  let* s2 := math_sin (fdiv delta_lambda ftwo) in
  let* s2sq := float_pow s2 ftwo in
  let a := fadd s1sq (fmul (fmul c1 c2) s2sq) in
  let* ra := math_sqrt a in
  let* rb := math_sqrt (fsub fone a) in
  let* t := math_atan2 ra rb in
  Ok (fmul ftwo t).

(** ** Proof helpers *)

(** Case analysis on every comparison of exponents and mantissas. *)
Ltac cmp_cases :=
  repeat match goal with
  | H : context [Z.compare ?a ?b] |- _ => destruct (Z.compare_spec a b)
  | |- context [Z.compare ?a ?b] => destruct (Z.compare_spec a b)
  | H : context [Pos.compare_cont Eq ?a ?b] |- _ =>
      change (Pos.compare_cont Eq a b) with (Pos.compare a b) in H;
      destruct (Pos.compare_spec a b)
  | |- context [Pos.compare_cont Eq ?a ?b] =>
      change (Pos.compare_cont Eq a b) with (Pos.compare a b);
      destruct (Pos.compare_spec a b)
  end.

(** Distributes products over the denominator [den], so that what is left
    is linear in [a * den]. *)
Ltac expand_den den :=
  repeat match goal with
  | |- context [?a * (2 * den)] => replace (a * (2 * den)) with (2 * (a * den)) by ring
  | H : context [(2 * ?a + 1) * den] |- _ =>
      replace ((2 * a + 1) * den) with (2 * (a * den) + den) in H by ring
  | |- context [(2 * ?a + 1) * den] =>
      replace ((2 * a + 1) * den) with (2 * (a * den) + den) by ring
  | H : context [(?a + 1) * den] |- _ =>
      replace ((a + 1) * den) with (a * den + den) in H by ring
  | |- context [(?a + 1) * den] =>
      replace ((a + 1) * den) with (a * den + den) by ring
  end.

(** Splits the loop body of [search_along_route] by what the response
    element and the route provide. *)
Ltac assemble_cases route_points place :=
  unfold assemble_place;
  destruct route_points as [pts |],
    (place_location place) as [[[la |] [lo |]] |];
  cbn [loc_latitude loc_longitude];
  try match goal with
  | |- context [truthy_route (Some ?pts) && float_truthy ?la && float_truthy ?lo] =>
      let Eg := fresh "Eguard" in
      destruct (truthy_route (Some pts) && float_truthy la && float_truthy lo) eqn:Eg;
      [ let Ed := fresh "Edist" in
        destruct (distance_from_route la lo pts) as [d | e] eqn:Ed | ]
  end;
  cbn [bind].

(** * Properties *)

(** ** Route parser *)



(** ** Binary64 rounding

    The lemmas below follow [SpecFloat]'s [binary_round_aux] through its
    shift, its rounding to nearest even and its renormalisation, for
    results in the normal range. *)

Lemma digits2_pos_bounds (p : positive) :
  2 ^ (Z.pos (digits2_pos p) - 1) <= Z.pos p < 2 ^ Z.pos (digits2_pos p).
Proof.
  induction p as [p IH | p IH |]; [| | simpl; lia];
    cbn [digits2_pos]; rewrite Pos2Z.inj_succ;
    replace (Z.succ (Z.pos (digits2_pos p)) - 1)
      with (Z.succ (Z.pos (digits2_pos p) - 1)) by lia;
    rewrite !Z.pow_succ_r by lia;
    [change (Z.pos p~1) with (2 * Z.pos p + 1) | change (Z.pos p~0) with (2 * Z.pos p)]; lia.
Qed.

Lemma Zdigits2_bounds (x : Z) :
  0 < x -> 2 ^ (Zdigits2 x - 1) <= x < 2 ^ Zdigits2 x.
Proof. destruct x; try lia. intros _. apply digits2_pos_bounds. Qed.

Lemma Zdigits2_unique (x d : Z) :
  2 ^ (d - 1) <= x < 2 ^ d -> 0 < d -> Zdigits2 x = d.
Proof.
  intros Hx Hd.
  assert (Hpos : 0 < x) by (pose proof (Z.pow_pos_nonneg 2 (d - 1)); lia).
  pose proof (Zdigits2_bounds x Hpos) as Hb.
  assert (0 < Zdigits2 x) by (destruct x; simpl; lia).
  destruct (Z.lt_trichotomy (Zdigits2 x) d) as [Hlt | [Heq | Hgt]]; [| exact Heq |].
  - assert (2 ^ Zdigits2 x <= 2 ^ (d - 1)) by (apply Z.pow_le_mono_r; lia). lia.
  - assert (2 ^ d <= 2 ^ (Zdigits2 x - 1)) by (apply Z.pow_le_mono_r; lia). lia.
Qed.

Lemma located_floor (m : Z) (l : location) (num den : Z) :
  0 < den -> located m l num den -> m * den <= num < (m + 1) * den.
Proof.
  intros Hden. replace ((m + 1) * den) with (m * den + den) by ring.
  replace ((2 * m + 1) * den) with (2 * (m * den) + den) by ring.
  destruct l as [| []]; simpl;
    try replace ((m + 1) * den) with (m * den + den) by ring;
    try replace ((2 * m + 1) * den) with (2 * (m * den) + den) by ring; lia.
Qed.

Lemma shr_1_located (r : shr_record) (num den : Z) :
  0 < den -> 0 <= shr_m r ->
  located (shr_m r) (loc_of_shr_record r) num den ->
  located (shr_m (shr_1 r)) (loc_of_shr_record (shr_1 r)) num (2 * den) /\
  0 <= shr_m (shr_1 r).
Proof.
  intros Hden Hm H. destruct r as [m b s]. cbn [shr_m] in Hm.
  destruct m as [| [p | p |] | p]; try lia;
    destruct b, s;
    cbn [shr_1 shr_m loc_of_shr_record located orb] in *;
    (split; [| lia]);
    try change (Z.pos p~1) with (2 * Z.pos p + 1) in H;
    try change (Z.pos p~0) with (2 * Z.pos p) in H.
  all: expand_den den; lia.
Qed.

Lemma pow2_xI (p : positive) : 2 ^ Z.pos p~1 = 2 ^ Z.pos p * (2 ^ Z.pos p * 2).
Proof.
  rewrite (Pos2Z.inj_xI p).
  replace (2 * Z.pos p + 1) with (Z.pos p + Z.pos p + 1) by lia.
  rewrite !Z.pow_add_r by lia. ring.
Qed.

Lemma pow2_xO (p : positive) : 2 ^ Z.pos p~0 = 2 ^ Z.pos p * 2 ^ Z.pos p.
Proof.
  rewrite (Pos2Z.inj_xO p).
  replace (2 * Z.pos p) with (Z.pos p + Z.pos p) by lia.
  now rewrite Z.pow_add_r by lia.
Qed.

Lemma iter_shr_1_located (num : Z) (p : positive) :
  forall (r : shr_record) (den : Z),
    0 < den -> 0 <= shr_m r ->
    located (shr_m r) (loc_of_shr_record r) num den ->
    located (shr_m (SpecFloat.iter_pos shr_1 p r)) (loc_of_shr_record (SpecFloat.iter_pos shr_1 p r))
      num (2 ^ Z.pos p * den) /\
    0 <= shr_m (SpecFloat.iter_pos shr_1 p r).
Proof.
  induction p as [p IH | p IH |]; intros r den Hden Hm H; cbn [SpecFloat.iter_pos].
  - destruct (shr_1_located r num den Hden Hm H) as [H1 Hm1].
    assert (Hp : 0 < 2 ^ Z.pos p) by (apply Z.pow_pos_nonneg; lia).
    destruct (IH _ (2 * den) ltac:(lia) Hm1 H1) as [H2 Hm2].
    destruct (IH _ (2 ^ Z.pos p * (2 * den)) ltac:(lia) Hm2 H2) as [H3 Hm3].
    split; [| exact Hm3].
    rewrite pow2_xI.
    replace (2 ^ Z.pos p * (2 ^ Z.pos p * 2) * den)
      with (2 ^ Z.pos p * (2 ^ Z.pos p * (2 * den))) by ring.
    exact H3.
  - assert (Hp : 0 < 2 ^ Z.pos p) by (apply Z.pow_pos_nonneg; lia).
    destruct (IH _ den Hden Hm H) as [H2 Hm2].
    destruct (IH _ (2 ^ Z.pos p * den) ltac:(lia) Hm2 H2) as [H3 Hm3].
    split; [| exact Hm3].
    rewrite pow2_xO.
    replace (2 ^ Z.pos p * 2 ^ Z.pos p * den)
      with (2 ^ Z.pos p * (2 ^ Z.pos p * den)) by ring.
    exact H3.
  - change (2 ^ 1) with 2. now apply shr_1_located.
Qed.

Lemma shr_located (r : shr_record) (e n num den : Z) :
  0 < den -> 0 <= n -> 0 <= shr_m r ->
  located (shr_m r) (loc_of_shr_record r) num den ->
  located (shr_m (fst (shr r e n))) (loc_of_shr_record (fst (shr r e n)))
    num (2 ^ n * den) /\
  0 <= shr_m (fst (shr r e n)) /\ snd (shr r e n) = e + n.
Proof.
  intros Hden Hn Hm H. destruct n as [| p | p]; try lia; cbn [shr fst snd].
  - rewrite Z.mul_1_l. repeat split; auto. lia.
  - destruct (iter_shr_1_located num p r den Hden Hm H). auto.
Qed.

Lemma loc_of_shr_record_of_loc (m : Z) (l : location) :
  loc_of_shr_record (shr_record_of_loc m l) = l /\
  shr_m (shr_record_of_loc m l) = m.
Proof. now destruct l as [| []]. Qed.

Lemma round_nearest_even_near (m : Z) (l : location) (num den : Z) :
  0 < den -> located m l num den ->
  m <= round_nearest_even m l <= m + 1 /\
  2 * Z.abs (round_nearest_even m l * den - num) <= den.
Proof.
  intros Hden H.
  destruct l as [| []]; cbn [round_nearest_even located] in *;
    try destruct (Z.even m); expand_den den; (split; [lia |]);
    try replace ((m + 1) * den) with (m * den + den) by ring; lia.
Qed.

Lemma fexp_normal (x : Z) : -1074 <= x - 53 -> fexp prec emax x = x - 53.
Proof. unfold fexp, emin, prec, emax. lia. Qed.

Lemma shifted_mantissa_bounds (mx d n m1 num den : Z) :
  0 < den -> 0 <= n -> d = n + 53 ->
  2 ^ (d - 1) <= mx < 2 ^ d ->
  mx * den <= num < (mx + 1) * den ->
  m1 * (2 ^ n * den) <= num < (m1 + 1) * (2 ^ n * den) ->
  2 ^ 52 <= m1 < 2 ^ 53.
Proof.
  intros Hden Hn -> Hmx H0 H1.
  replace (n + 53 - 1) with (52 + n) in Hmx by lia.
  replace (n + 53) with (53 + n) in Hmx by lia.
  rewrite !Z.pow_add_r in Hmx by lia.
  assert (HD : 0 < 2 ^ n * den)
    by (apply Z.mul_pos_pos; [apply Z.pow_pos_nonneg; lia | exact Hden]).
  set (D := 2 ^ n * den) in *.
  assert (Hlo : 2 ^ 52 * D <= mx * den).
  { unfold D. rewrite Z.mul_assoc. apply Z.mul_le_mono_nonneg_r; lia. }
  assert (Hhi : (mx + 1) * den <= 2 ^ 53 * D).
  { unfold D. rewrite Z.mul_assoc. apply Z.mul_le_mono_nonneg_r; lia. }
  split.
  - assert (H : 2 ^ 52 * D < (m1 + 1) * D) by lia.
    apply Z.mul_lt_mono_pos_r in H; lia.
  - assert (H : m1 * D < 2 ^ 53 * D) by lia.
    apply Z.mul_lt_mono_pos_r in H; lia.
Qed.

Lemma binary_round_aux_normal (sx : bool) (mx ex : Z) (lx : location) (num den : Z) :
  0 < den -> 0 < mx -> located mx lx num den ->
  53 <= Zdigits2 mx ->
  -1074 <= Zdigits2 mx + ex - 53 < 971 ->
  exists (m : positive) (n : Z),
    binary_round_aux prec emax sx mx ex lx = S754_finite sx m (ex + n) /\
    2 ^ 52 <= Z.pos m < 2 ^ 53 /\
    Zdigits2 mx - 53 <= n <= Zdigits2 mx - 52 /\
    2 * Z.abs (Z.pos m * (2 ^ n * den) - num) <= 2 ^ n * den.
Proof.
  intros Hden Hmx Hloc Hd He.
  pose proof (Zdigits2_bounds mx Hmx) as Hdig.
  set (d := Zdigits2 mx) in *. set (n0 := d - 53).
  unfold binary_round_aux, shr_fexp. fold d.
  rewrite (fexp_normal (d + ex)) by lia.
  replace (d + ex - 53 - ex) with n0 by (unfold n0; lia).
  destruct (loc_of_shr_record_of_loc mx lx) as [Hl Hm].
  destruct (shr_located (shr_record_of_loc mx lx) ex n0 num den) as (H1 & Hm1 & He1);
    [lia | unfold n0; lia | rewrite Hm; lia | now rewrite Hl, Hm |].
  destruct (shr (shr_record_of_loc mx lx) ex n0) as [r1 e1] eqn:Hshr.
  cbn [fst snd] in H1, Hm1, He1. subst e1.
  set (m1 := shr_m r1) in *. set (l1 := loc_of_shr_record r1) in *.
  assert (HD : 0 < 2 ^ n0 * den)
    by (apply Z.mul_pos_pos; [apply Z.pow_pos_nonneg; unfold n0; lia | exact Hden]).
  pose proof (located_floor _ _ _ _ Hden Hloc) as Hf0.
  pose proof (located_floor _ _ _ _ HD H1) as Hf1.
  assert (Hb1 : 2 ^ 52 <= m1 < 2 ^ 53).
  { apply (shifted_mantissa_bounds mx d n0 m1 num den); auto; unfold n0; lia. }
  destruct (round_nearest_even_near m1 l1 num _ HD H1) as [Hr Hnear].
  set (m2 := round_nearest_even m1 l1) in *.
  destruct (Z.eq_dec m2 (2 ^ 53)) as [Hover | Hin].
  - rewrite Hover. change (Zdigits2 (2 ^ 53)) with 54.
    rewrite (fexp_normal (54 + (ex + n0))) by (unfold n0; lia).
    replace (54 + (ex + n0) - 53 - (ex + n0)) with 1 by lia.
    change (shr (shr_record_of_loc (2 ^ 53) loc_Exact) (ex + n0) 1)
      with ({| shr_m := Z.pos 4503599627370496; shr_r := false; shr_s := false |},
            ex + n0 + 1).
    cbn [shr_m].
    replace (ex + n0 + 1 <=? emax - prec) with true
      by (symmetry; apply Z.leb_le; unfold emax, prec, n0; lia).
    exists 4503599627370496%positive, (n0 + 1).
    split; [f_equal; lia |].
    split; [cbn; lia |]. split; [unfold n0; lia |].
    rewrite Z.pow_add_r by (unfold n0; lia).
    rewrite Hover in Hnear.
    replace (4503599627370496 * (2 ^ n0 * 2 ^ 1 * den))
      with (2 ^ 53 * (2 ^ n0 * den)) by (change (2 ^ 53) with (4503599627370496 * 2 ^ 1); ring).
    change (2 ^ 1) with 2. lia.
  - assert (Hb2 : 2 ^ 52 <= m2 < 2 ^ 53) by lia.
    rewrite (Zdigits2_unique m2 53) by (simpl; lia).
    rewrite (fexp_normal (53 + (ex + n0))) by (unfold n0; lia).
    replace (53 + (ex + n0) - 53 - (ex + n0)) with 0 by lia.
    cbn [shr shr_record_of_loc shr_m].
    destruct m2 as [| p | p] eqn:Hm2; try (simpl in Hb2; lia).
    replace (ex + n0 <=? emax - prec) with true
      by (symmetry; apply Z.leb_le; unfold emax, prec, n0; lia).
    exists p, n0. repeat split; try lia.
Qed.

Lemma binary_round_aux_canonical (s : bool) (m : positive) (e : Z) :
  Zdigits2 (Z.pos m) = 53 -> -1074 <= e <= 971 ->
  binary_round_aux prec emax s (Z.pos m) e loc_Exact = S754_finite s m e.
Proof.
  intros Hd He. unfold binary_round_aux, shr_fexp.
  cbn [shr_record_of_loc round_nearest_even].
  rewrite Hd, (fexp_normal (53 + e)) by lia.
  replace (53 + e - 53 - e) with 0 by lia.
  cbn [shr shr_m loc_of_shr_record round_nearest_even shr_record_of_loc].
  rewrite Hd, (fexp_normal (53 + e)) by lia.
  replace (53 + e - 53 - e) with 0 by lia.
  cbn [shr shr_m].
  replace (e <=? emax - prec) with true
    by (symmetry; apply Z.leb_le; unfold emax, prec; lia).
  reflexivity.
Qed.

Lemma iter_xO_pow2 (p k : positive) :
  Z.pos (Pos.iter xO p k) = Z.pos p * 2 ^ Z.pos k.
Proof.
  induction k as [| k IH] using Pos.peano_ind.
  - cbn [Pos.iter]. change (Z.pos p~0) with (2 * Z.pos p). change (2 ^ 1) with 2. lia.
  - rewrite Pos.iter_succ, Pos2Z.inj_succ, Z.pow_succ_r by lia.
    change (Z.pos (Pos.iter xO p k)~0) with (2 * Z.pos (Pos.iter xO p k)).
    rewrite IH. ring.
Qed.

(** The canonical form of a positive integer below [2^53]. *)
Lemma float_of_Z_canonical (z : Z) :
  0 < z < 2 ^ 53 ->
  exists m : positive,
    float_of_Z z = S754_finite false m (Zdigits2 z - 53) /\
    Z.pos m = z * 2 ^ (53 - Zdigits2 z) /\
    Zdigits2 (Z.pos m) = 53.
Proof.
  intros Hz. destruct z as [| p | p]; try lia.
  pose proof (digits2_pos_bounds p) as Hb.
  assert (Hd : Z.pos (digits2_pos p) <= 53).
  { destruct (Z.le_gt_cases (Z.pos (digits2_pos p)) 53) as [H | H]; [exact H |].
    assert (2 ^ 53 <= 2 ^ (Z.pos (digits2_pos p) - 1)) by (apply Z.pow_le_mono_r; lia).
    lia. }
  unfold float_of_Z, binary_normalize, binary_round.
  cbn [Zdigits2]. rewrite Z.add_0_r, fexp_normal by lia.
  unfold shl_align. rewrite Z.sub_0_r.
  destruct (Z.pos (digits2_pos p) - 53) as [| k | k] eqn:Hk; try lia.
  - exists p. assert (Hd53 : Zdigits2 (Z.pos p) = 53) by (cbn [Zdigits2]; lia).
    rewrite binary_round_aux_canonical by (auto; lia).
    replace (53 - Z.pos (digits2_pos p)) with 0 by lia.
    repeat split; auto. lia.
  - exists (Pos.iter xO p k).
    assert (Hm : Z.pos (Pos.iter xO p k) = Z.pos p * 2 ^ (53 - Z.pos (digits2_pos p))).
    { rewrite iter_xO_pow2. f_equal. f_equal. lia. }
    assert (Hd53 : Zdigits2 (Z.pos (Pos.iter xO p k)) = 53).
    { apply Zdigits2_unique; [| lia]. rewrite Hm.
      set (d := Z.pos (digits2_pos p)) in *.
      assert (Hp : 0 < 2 ^ (53 - d)) by (apply Z.pow_pos_nonneg; lia).
      replace (2 ^ (53 - 1)) with (2 ^ (d - 1) * 2 ^ (53 - d))
        by (rewrite <- Z.pow_add_r by lia; f_equal; lia).
      replace (2 ^ 53) with (2 ^ d * 2 ^ (53 - d))
        by (rewrite <- Z.pow_add_r by lia; f_equal; lia).
      split; [apply Z.mul_le_mono_nonneg_r; lia | apply Z.mul_lt_mono_pos_r; lia]. }
    rewrite binary_round_aux_canonical by (auto; lia).
    repeat split; auto.
Qed.

Lemma new_location_located (my r q num : Z) :
  0 < my -> 0 <= r < my -> num = q * my + r ->
  located q (new_location my r) num my.
Proof.
  intros Hmy Hr ->. unfold new_location, new_location_even, new_location_odd.
  destruct (Z.even my) eqn:Heven; destruct (Z.eqb_spec r 0) as [-> | Hr0];
    cbn [located]; try lia.
  - destruct (Z.compare_spec (2 * r) my); cbn [located]; expand_den my; lia.
  - assert (Hodd : Z.odd my = true) by (now rewrite <- Z.negb_even, Heven).
    apply Z.odd_spec in Hodd as [k Hk].
    destruct (Z.compare_spec (2 * r + 1) my); cbn [located]; expand_den my; lia.
Qed.

Lemma Zdigits2_range (q a b : Z) :
  0 <= a -> 2 ^ a <= q < 2 ^ b -> a < Zdigits2 q <= b.
Proof.
  intros Ha Hq.
  assert (Hpos : 0 < q) by (pose proof (Z.pow_pos_nonneg 2 a); lia).
  pose proof (Zdigits2_bounds q Hpos) as Hb.
  assert (Hd : 0 < Zdigits2 q) by (destruct q; simpl; lia).
  split.
  - destruct (Z.lt_ge_cases a (Zdigits2 q)) as [H | H]; [exact H |].
    assert (2 ^ Zdigits2 q <= 2 ^ a) by (apply Z.pow_le_mono_r; lia). lia.
  - destruct (Z.le_gt_cases (Zdigits2 q) b) as [H | H]; [exact H |].
    assert (0 <= b).
    { destruct (Z.le_gt_cases 0 b); [assumption |].
      rewrite (Z.pow_neg_r 2 b) in Hq by lia. lia. }
    assert (2 ^ b <= 2 ^ (Zdigits2 q - 1)) by (apply Z.pow_le_mono_r; lia). lia.
Qed.

Lemma canonical_mantissa_bounds (m : positive) :
  Zdigits2 (Z.pos m) = 53 -> 2 ^ 52 <= Z.pos m < 2 ^ 53.
Proof.
  intros Hd. pose proof (Zdigits2_bounds (Z.pos m) ltac:(lia)) as Hb.
  rewrite Hd in Hb. exact Hb.
Qed.

(** Correctly rounded quotient of two positive normal numbers. *)
Lemma fdiv_canonical (mx my : positive) (ex ey : Z) :
  Zdigits2 (Z.pos mx) = 53 -> Zdigits2 (Z.pos my) = 53 ->
  -1074 <= ex - ey - 53 < 969 ->
  exists (m : positive) (n : Z),
    fdiv (S754_finite false mx ex) (S754_finite false my ey)
      = S754_finite false m (ex - ey - 53 + n) /\
    2 ^ 52 <= Z.pos m < 2 ^ 53 /\ 0 <= n <= 2 /\
    2 * Z.abs (Z.pos m * (2 ^ n * Z.pos my) - Z.pos mx * 2 ^ 53)
      <= 2 ^ n * Z.pos my.
Proof.
  intros Hdx Hdy He.
  pose proof (canonical_mantissa_bounds mx Hdx) as Hbx.
  pose proof (canonical_mantissa_bounds my Hdy) as Hby.
  unfold fdiv, SFdiv, SFdiv_core_binary. cbn [xorb].
  rewrite Hdx, Hdy.
  replace (53 + ex - (53 + ey)) with (ex - ey) by lia.
  rewrite fexp_normal by lia.
  rewrite Z.min_l by lia.
  replace (ex - ey - (ex - ey - 53)) with 53 by lia.
  rewrite Z.shiftl_mul_pow2 by lia.
  pose proof (Z_div_mod (Z.pos mx * 2 ^ 53) (Z.pos my) ltac:(lia)) as Hdiv.
  destruct (Z.div_eucl (Z.pos mx * 2 ^ 53) (Z.pos my)) as [q r].
  destruct Hdiv as [Hnum Hr].
  assert (Hq : 2 ^ 52 <= q < 2 ^ 54).
  { split.
    - assert (H : 2 ^ 52 * Z.pos my < (q + 1) * Z.pos my).
      { replace ((q + 1) * Z.pos my) with (Z.pos my * q + Z.pos my) by ring.
        assert (2 ^ 52 * Z.pos my <= 2 ^ 52 * 2 ^ 53)
          by (apply Z.mul_le_mono_nonneg_l; lia).
        assert (2 ^ 52 * 2 ^ 53 <= Z.pos mx * 2 ^ 53)
          by (apply Z.mul_le_mono_nonneg_r; lia).
        lia. }
      apply Z.mul_lt_mono_pos_r in H; lia.
    - assert (H : q * Z.pos my < 2 ^ 54 * Z.pos my).
      { assert (Z.pos mx * 2 ^ 53 < 2 ^ 53 * 2 ^ 53)
          by (apply Z.mul_lt_mono_pos_r; lia).
        assert (2 ^ 54 * 2 ^ 52 <= 2 ^ 54 * Z.pos my)
          by (apply Z.mul_le_mono_nonneg_l; lia).
        change (2 ^ 54 * 2 ^ 52) with (2 ^ 53 * 2 ^ 53) in *. lia. }
      apply Z.mul_lt_mono_pos_r in H; lia. }
  pose proof (Zdigits2_range q 52 54 ltac:(lia) Hq) as Hdq.
  destruct (binary_round_aux_normal false q (ex - ey - 53) (new_location (Z.pos my) r)
              (Z.pos mx * 2 ^ 53) (Z.pos my)) as (m & n & Heq & Hm & Hn & Hnear);
    try lia.
  { apply new_location_located; lia. }
  exists m, n. repeat split; auto; lia.
Qed.

(** Correctly rounded product of two positive normal numbers. *)
Lemma fmul_canonical (mx my : positive) (ex ey : Z) :
  Zdigits2 (Z.pos mx) = 53 -> Zdigits2 (Z.pos my) = 53 ->
  -1074 <= ex + ey + 52 -> ex + ey + 53 < 971 ->
  exists (m : positive) (n : Z),
    fmul (S754_finite false mx ex) (S754_finite false my ey)
      = S754_finite false m (ex + ey + n) /\
    2 ^ 52 <= Z.pos m < 2 ^ 53 /\ 52 <= n <= 54 /\
    2 * Z.abs (Z.pos m * 2 ^ n - Z.pos mx * Z.pos my) <= 2 ^ n.
Proof.
  intros Hdx Hdy He1 He2.
  pose proof (canonical_mantissa_bounds mx Hdx) as Hbx.
  pose proof (canonical_mantissa_bounds my Hdy) as Hby.
  unfold fmul, SFmul. cbn [xorb]. rewrite Pos2Z.inj_mul.
  assert (Hq : 2 ^ 104 <= Z.pos mx * Z.pos my < 2 ^ 106).
  { split.
    - change (2 ^ 104) with (2 ^ 52 * 2 ^ 52).
      apply Z.mul_le_mono_nonneg; lia.
    - change (2 ^ 106) with (2 ^ 53 * 2 ^ 53).
      apply Z.mul_lt_mono_nonneg; lia. }
  pose proof (Zdigits2_range _ 104 106 ltac:(lia) Hq) as Hdq.
  destruct (binary_round_aux_normal false (Z.pos mx * Z.pos my) (ex + ey) loc_Exact
              (Z.pos mx * Z.pos my) 1) as (m & n & Heq & Hm & Hn & Hnear);
    try lia.
  { cbn [located]. ring. }
  exists m, n. rewrite !Z.mul_1_r in Hnear. repeat split; auto; lia.
Qed.

Lemma abs_cancel (k a b : Z) :
  0 < k -> 2 * Z.abs (k * a) <= k * b -> 2 * Z.abs a <= b.
Proof.
  intros Hk H. rewrite Z.abs_mul, (Z.abs_eq k) in H by lia.
  replace (2 * (k * Z.abs a)) with (k * (2 * Z.abs a)) in H by ring.
  apply Z.mul_le_mono_pos_l in H; assumption.
Qed.

Lemma gcd_499 (i : Z) : 1 <= i <= 498 -> Z.gcd 499 i = 1.
Proof.
  intros Hi.
  assert (H : forallb (fun k => Z.gcd 499 (Z.of_nat k) =? 1) (seq 1 498) = true)
    by (vm_compute; reflexivity).
  rewrite forallb_forall in H. specialize (H (Z.to_nat i)).
  rewrite Z2Nat.id in H by lia. apply Z.eqb_eq, H, in_seq. lia.
Qed.

Lemma mod_499_product (i N : Z) :
  1 <= i <= 498 -> N mod 499 <> 0 -> (i * N) mod 499 <> 0.
Proof.
  intros Hi HN Hprod. apply HN.
  apply Z.mod_divide in Hprod; [| lia].
  apply Z.mod_divide; [lia |].
  apply Z.gauss with (m := i); [exact Hprod | now apply gcd_499].
Qed.

Lemma float_of_Z_499 : float_of_Z 499 = S754_finite false 8778500836163584 (-44).
Proof. reflexivity. Qed.

(** The arithmetic core: from the two half-ulp bounds to the floor. *)
Lemma index_from_bounds (i N ms mp S P : Z) :
  1 <= i <= 498 -> 0 < N ->
  2 ^ 20 <= S -> 2 ^ 10 <= P ->
  2 * Z.abs (499 * ms - N * S) <= 499 ->
  2 * Z.abs (mp * S - i * P * ms) <= S ->
  mp / P = i * N / 499.
Proof.
  intros Hi HN HS HP H1 H2.
  destruct (Z.eq_dec (N mod 499) 0) as [Hdiv | Hndiv].
  - apply Z.mod_divide in Hdiv as [Q ->]; [| lia].
    assert (Hms : ms = Q * S).
    { replace (499 * ms - Q * 499 * S) with (499 * (ms - Q * S)) in H1 by ring.
      rewrite Z.abs_mul in H1. lia. }
    subst ms.
    assert (Hmp : mp = i * Q * P).
    { replace (mp * S - i * P * (Q * S)) with (S * (mp - i * Q * P)) in H2 by ring.
      assert (H3 : 2 * Z.abs (S * (mp - i * Q * P)) <= S * 1) by lia.
      apply abs_cancel in H3; lia. }
    subst mp.
    replace (i * (Q * 499)) with (i * Q * 499) by ring.
    now rewrite !Z.div_mul by lia.
  - pose proof (mod_499_product i N Hi Hndiv) as Hrho.
    pose proof (Z.div_mod (i * N) 499 ltac:(lia)) as Hdm.
    pose proof (Z.mod_pos_bound (i * N) 499 ltac:(lia)) as Hrb.
    set (f := i * N / 499) in *. set (rho := (i * N) mod 499) in *.
    assert (HPS : 0 < P * S) by (apply Z.mul_pos_pos; lia).
    assert (HSP : 499 * S < P * S) by (apply Z.mul_lt_mono_pos_r; lia).
    assert (HiP : 499 * (i * P) < P * S).
    { replace (499 * (i * P)) with (P * (499 * i)) by ring.
      apply Z.mul_lt_mono_pos_l; lia. }
    assert (Hsum : 2 * Z.abs (499 * (mp * S) - i * N * (P * S))
                   <= 499 * S + 499 * (i * P)).
    { assert (Ha : 2 * Z.abs (499 * (mp * S) - 499 * (i * P * ms)) <= 499 * S).
      { replace (499 * (mp * S) - 499 * (i * P * ms))
          with (499 * (mp * S - i * P * ms)) by ring.
        rewrite Z.abs_mul. lia. }
      assert (Hb : 2 * Z.abs (499 * (i * P * ms) - i * N * (P * S))
                   <= 499 * (i * P)).
      { replace (499 * (i * P * ms) - i * N * (P * S))
          with ((i * P) * (499 * ms - N * S)) by ring.
        rewrite Z.abs_mul, (Z.abs_eq (i * P)) by (apply Z.mul_nonneg_nonneg; lia).
        replace (2 * (i * P * Z.abs (499 * ms - N * S)))
          with ((i * P) * (2 * Z.abs (499 * ms - N * S))) by ring.
        replace (499 * (i * P)) with ((i * P) * 499) by ring.
        apply Z.mul_le_mono_nonneg_l; [| exact H1].
        apply Z.mul_nonneg_nonneg; lia. }
      lia. }
    rewrite Hdm in Hsum.
    replace ((499 * f + rho) * (P * S))
      with (499 * (f * (P * S)) + rho * (P * S)) in Hsum by ring.
    assert (Hrho1 : P * S <= rho * (P * S))
      by (rewrite <- (Z.mul_1_l (P * S)) at 1; apply Z.mul_le_mono_nonneg_r; lia).
    assert (Hrho2 : rho * (P * S) <= 498 * (P * S))
      by (apply Z.mul_le_mono_nonneg_r; lia).
    symmetry. apply Z.div_unique with (r := mp - f * P); [| ring].
    left. split.
    + destruct (Z.le_gt_cases (f * P) mp) as [H | H]; [lia | exfalso].
      assert (Hc : (mp + 1) * S <= f * P * S)
        by (apply Z.mul_le_mono_nonneg_r; lia).
      replace ((mp + 1) * S) with (mp * S + S) in Hc by ring.
      replace (f * P * S) with (f * (P * S)) in Hc by ring.
      lia.
    + destruct (Z.lt_ge_cases mp ((f + 1) * P)) as [H | H]; [lia | exfalso].
      assert (Hc : (f + 1) * P * S <= mp * S)
        by (apply Z.mul_le_mono_nonneg_r; lia).
      replace ((f + 1) * P * S) with (f * (P * S) + P * S) in Hc by ring.
      lia.
Qed.

(** [int(i * ((n - 1) / 499))] in binary64 is the exact floor. *)
Lemma float_index (N i : Z) :
  500 <= N < 2 ^ 40 -> 0 <= i <= 498 ->
  py_int (fmul (float_of_Z i) (fdiv (float_of_Z N) (float_of_Z 499)))
  = Ok (i * N / 499).
Proof.
  intros HN Hi. rewrite float_of_Z_499.
  destruct (float_of_Z_canonical N) as (mN & HfN & HmN & HdN);
    [split; [lia | apply Z.lt_trans with (2 ^ 40); lia] |].
  pose proof (Zdigits2_range N 8 40 ltac:(lia) ltac:(simpl; lia)) as HdigN.
  set (dN := Zdigits2 N) in *. rewrite HfN.
  destruct (fdiv_canonical mN 8778500836163584 (dN - 53) (-44))
    as (ms & n1 & Hs & Hms & Hn1 & HD1); [exact HdN | reflexivity | lia |].
  rewrite Hs. clear Hs HfN.
  destruct (Z.eq_dec i 0) as [-> | Hi0]; [reflexivity |].
  destruct (float_of_Z_canonical i) as (mi & Hfi & Hmi & Hdi);
    [split; [lia | apply Z.le_lt_trans with 498; lia] |].
  pose proof (Zdigits2_range i 0 9 ltac:(lia) ltac:(simpl; lia)) as Hdigi.
  set (di := Zdigits2 i) in *. rewrite Hfi. clear Hfi.
  assert (Hdms : Zdigits2 (Z.pos ms) = 53) by (apply Zdigits2_unique; simpl; lia).
  destruct (fmul_canonical mi ms (di - 53) (dN - 53 - -44 - 53 + n1))
    as (mp & n2 & Hp & Hmp & Hn2 & HD2); [exact Hdi | exact Hdms | lia | lia |].
  rewrite Hp. clear Hp. unfold py_int.
  destruct (di - 53 + (dN - 53 - -44 - 53 + n1) + n2) as [| pe | pe] eqn:He; try lia.
  f_equal. change (Z.pow_pos 2 pe) with (2 ^ Z.pos pe).
  assert (HE : Z.pos pe = 115 - di - dN - n1 - n2) by lia.
  apply index_from_bounds with (ms := Z.pos ms) (S := 2 ^ (62 - dN - n1)).
  - lia.
  - lia.
  - apply Z.pow_le_mono_r; lia.
  - apply Z.pow_le_mono_r; lia.
  - rewrite HmN in HD1.
    assert (Hpow : 2 ^ (53 - dN) * 2 ^ 53 = 2 ^ n1 * 2 ^ 44 * 2 ^ (62 - dN - n1))
      by (rewrite <- !Z.pow_add_r by lia; f_equal; lia).
    assert (HK : 0 < 2 ^ n1 * 2 ^ 44)
      by (apply Z.mul_pos_pos; apply Z.pow_pos_nonneg; lia).
    apply (abs_cancel (2 ^ n1 * 2 ^ 44)); [exact HK |].
    replace (2 ^ n1 * 2 ^ 44 * (499 * Z.pos ms - N * 2 ^ (62 - dN - n1)))
      with (Z.pos ms * (2 ^ n1 * (499 * 2 ^ 44))
            - N * (2 ^ n1 * 2 ^ 44 * 2 ^ (62 - dN - n1))) by ring.
    rewrite <- Hpow.
    replace (N * (2 ^ (53 - dN) * 2 ^ 53)) with (N * 2 ^ (53 - dN) * 2 ^ 53) by ring.
    replace (2 ^ n1 * 2 ^ 44 * 499) with (2 ^ n1 * (499 * 2 ^ 44)) by ring.
    exact HD1.
  - rewrite Hmi in HD2.
    assert (Hpow : 2 ^ (53 - di) * 2 ^ (62 - dN - n1) = 2 ^ Z.pos pe * 2 ^ n2)
      by (rewrite <- !Z.pow_add_r by lia; f_equal; lia).
    assert (HS : 0 < 2 ^ (62 - dN - n1)) by (apply Z.pow_pos_nonneg; lia).
    assert (HW : 0 < 2 ^ n2) by (apply Z.pow_pos_nonneg; lia).
    apply (abs_cancel (2 ^ n2)); [exact HW |].
    replace (2 ^ n2 * (Z.pos mp * 2 ^ (62 - dN - n1) - i * 2 ^ Z.pos pe * Z.pos ms))
      with (2 ^ (62 - dN - n1) * (Z.pos mp * 2 ^ n2)
            - i * Z.pos ms * (2 ^ Z.pos pe * 2 ^ n2)) by ring.
    rewrite <- Hpow.
    replace (2 ^ (62 - dN - n1) * (Z.pos mp * 2 ^ n2)
             - i * Z.pos ms * (2 ^ (53 - di) * 2 ^ (62 - dN - n1)))
      with (2 ^ (62 - dN - n1) * (Z.pos mp * 2 ^ n2 - i * 2 ^ (53 - di) * Z.pos ms))
      by ring.
    rewrite Z.abs_mul, (Z.abs_eq (2 ^ (62 - dN - n1))) by lia.
    replace (2 * (2 ^ (62 - dN - n1) * Z.abs (Z.pos mp * 2 ^ n2 - i * 2 ^ (53 - di) * Z.pos ms)))
      with (2 ^ (62 - dN - n1) * (2 * Z.abs (Z.pos mp * 2 ^ n2 - i * 2 ^ (53 - di) * Z.pos ms)))
      by ring.
    rewrite (Z.mul_comm (2 ^ n2)).
    apply Z.mul_le_mono_nonneg_l; [lia | exact HD2].
Qed.

(** The arithmetic core for any ceiling: from the two half-ulp bounds to
    within one of the floor. *)
Lemma index_near_from_bounds (i N D ms mp S P : Z) :
  0 < i < D -> 0 < N -> i < S -> 0 < P ->
  2 * Z.abs (D * ms - N * S) <= D ->
  2 * Z.abs (mp * S - i * P * ms) <= S ->
  i * N / D - 1 <= mp / P <= i * N / D + 1.
Proof.
  intros Hi HN HiS HP H1 H2.
  assert (HS : 0 < S) by lia.
  assert (HD : 0 < D) by lia.
  assert (HPS : 0 < P * S) by (apply Z.mul_pos_pos; lia).
  assert (HDPS : 0 < D * (P * S)) by (apply Z.mul_pos_pos; lia).
  assert (HiP : 0 < i * P) by (apply Z.mul_pos_pos; lia).
  assert (Ha : 2 * Z.abs (D * (mp * S - i * P * ms)) <= D * S).
  { rewrite Z.abs_mul, (Z.abs_eq D) by lia.
    replace (2 * (D * Z.abs (mp * S - i * P * ms)))
      with (D * (2 * Z.abs (mp * S - i * P * ms))) by ring.
    apply Z.mul_le_mono_nonneg_l; [lia | exact H2]. }
  assert (Hb : 2 * Z.abs ((i * P) * (D * ms - N * S)) <= (i * P) * D).
  { rewrite Z.abs_mul, (Z.abs_eq (i * P)) by lia.
    replace (2 * (i * P * Z.abs (D * ms - N * S)))
      with ((i * P) * (2 * Z.abs (D * ms - N * S))) by ring.
    apply Z.mul_le_mono_nonneg_l; [lia | exact H1]. }
  assert (Hsplit : D * (mp * S) - i * N * (P * S)
                   = D * (mp * S - i * P * ms) + (i * P) * (D * ms - N * S)) by ring.
  assert (Hsum : 2 * Z.abs (D * (mp * S) - i * N * (P * S)) <= D * S + (i * P) * D).
  { rewrite Hsplit.
    set (u := D * (mp * S - i * P * ms)) in *.
    set (v := (i * P) * (D * ms - N * S)) in *. lia. }
  assert (Hsmall : D * S + (i * P) * D < 2 * (D * (P * S))).
  { assert (D * S <= D * (P * S)).
    { apply Z.mul_le_mono_nonneg_l; [lia |].
      rewrite <- (Z.mul_1_l S) at 1. apply Z.mul_le_mono_nonneg_r; lia. }
    assert (i * P * D < D * (P * S)).
    { replace (i * P * D) with (D * (P * i)) by ring.
      apply Z.mul_lt_mono_pos_l; [lia |]. apply Z.mul_lt_mono_pos_l; lia. }
    lia. }
  pose proof (Z.div_mod (i * N) D ltac:(lia)) as Hdm.
  pose proof (Z.mod_pos_bound (i * N) D ltac:(lia)) as Hrb.
  set (f := i * N / D) in *. set (r := (i * N) mod D) in *.
  rewrite Hdm in Hsum.
  replace ((D * f + r) * (P * S)) with (D * (f * (P * S)) + r * (P * S)) in Hsum by ring.
  assert (Hr1 : 0 <= r * (P * S)) by (apply Z.mul_nonneg_nonneg; lia).
  assert (Hr2 : r * (P * S) < D * (P * S)) by (apply Z.mul_lt_mono_pos_r; lia).
  split.
  - apply Z.div_le_lower_bound; [lia |].
    destruct (Z.le_gt_cases (P * (f - 1)) mp) as [H | H]; [exact H | exfalso].
    assert (Hc : (mp + 1) * (D * S) <= P * (f - 1) * (D * S))
      by (apply Z.mul_le_mono_nonneg_r; [apply Z.mul_nonneg_nonneg |]; lia).
    replace ((mp + 1) * (D * S)) with (D * (mp * S) + D * S) in Hc by ring.
    replace (P * (f - 1) * (D * S)) with (D * (f * (P * S)) - D * (P * S)) in Hc by ring.
    assert (0 < D * S) by (apply Z.mul_pos_pos; lia).
    lia.
  - assert (Hlt : mp / P < f + 2); [| lia].
    apply Z.div_lt_upper_bound; [lia |].
    destruct (Z.lt_ge_cases mp (P * (f + 2))) as [H | H]; [exact H | exfalso].
    assert (Hc : P * (f + 2) * (D * S) <= mp * (D * S))
      by (apply Z.mul_le_mono_nonneg_r; [apply Z.mul_nonneg_nonneg |]; lia).
    replace (mp * (D * S)) with (D * (mp * S)) in Hc by ring.
    replace (P * (f + 2) * (D * S)) with (D * (f * (P * S)) + 2 * (D * (P * S))) in Hc by ring.
    lia.
Qed.

(** [int(i * (N / D))] in binary64 is within one of the exact floor. *)
Lemma float_index_near (N D i : Z) :
  1 <= D < N -> N < 2 ^ 40 -> 0 <= i < D ->
  exists idx,
    py_int (fmul (float_of_Z i) (fdiv (float_of_Z N) (float_of_Z D))) = Ok idx /\
    0 <= idx /\ (i = 0 -> idx = 0) /\
    i * N / D - 1 <= idx <= i * N / D + 1.
Proof.
  intros HD HN Hi.
  assert (H40 : 2 ^ 40 < 2 ^ 53) by (apply Z.pow_lt_mono_r; lia).
  destruct (float_of_Z_canonical N) as (mN & HfN & HmN & HdN); [lia |].
  pose proof (Zdigits2_range N 0 40 ltac:(lia) ltac:(simpl; lia)) as HdigN.
  set (dN := Zdigits2 N) in *. rewrite HfN. clear HfN.
  destruct (float_of_Z_canonical D) as (mD & HfD & HmD & HdD); [lia |].
  pose proof (Zdigits2_range D 0 40 ltac:(lia) ltac:(simpl; lia)) as HdigD.
  pose proof (Zdigits2_bounds D ltac:(lia)) as HboundD.
  set (dD := Zdigits2 D) in *. rewrite HfD. clear HfD.
  destruct (fdiv_canonical mN mD (dN - 53) (dD - 53))
    as (ms & n1 & Hs & Hms & Hn1 & HD1); [exact HdN | exact HdD | lia |].
  rewrite Hs. clear Hs.
  destruct (Z.eq_dec i 0) as [-> | Hi0].
  { exists 0. split; [reflexivity |]. rewrite Z.mul_0_l, Z.div_0_l by lia. lia. }
  destruct (float_of_Z_canonical i) as (mi & Hfi & Hmi & Hdi); [lia |].
  pose proof (Zdigits2_range i 0 40 ltac:(lia) ltac:(simpl; lia)) as Hdigi.
  pose proof (Zdigits2_bounds i ltac:(lia)) as Hboundi.
  set (di := Zdigits2 i) in *. rewrite Hfi. clear Hfi.
  assert (Hdid : di <= dD).
  { assert (2 ^ (di - 1) < 2 ^ dD) by lia.
    apply Z.pow_lt_mono_r_iff in H; lia. }
  assert (Hdms : Zdigits2 (Z.pos ms) = 53) by (apply Zdigits2_unique; simpl; lia).
  destruct (fmul_canonical mi ms (di - 53) (dN - 53 - (dD - 53) - 53 + n1))
    as (mp & n2 & Hp & Hmp & Hn2 & HD2); [exact Hdi | exact Hdms | lia | lia |].
  rewrite Hp. clear Hp. unfold py_int.
  destruct (di - 53 + (dN - 53 - (dD - 53) - 53 + n1) + n2) as [| pe | pe] eqn:He;
    try lia.
  change (Z.pow_pos 2 pe) with (2 ^ Z.pos pe).
  assert (HE : Z.pos pe = 106 - di - dN + dD - n1 - n2) by lia.
  assert (HP : 0 < 2 ^ Z.pos pe) by (apply Z.pow_pos_nonneg; lia).
  exists (Z.pos mp / 2 ^ Z.pos pe). split; [reflexivity |].
  split; [apply Z.div_pos; lia |]. split; [intros ->; contradiction |].
  apply index_near_from_bounds with (ms := Z.pos ms) (S := 2 ^ (53 + dD - dN - n1)).
  - lia.
  - lia.
  - assert (2 ^ dD <= 2 ^ (53 + dD - dN - n1)) by (apply Z.pow_le_mono_r; lia).
    lia.
  - exact HP.
  - rewrite HmN, HmD in HD1.
    assert (Hpow : 2 ^ (53 - dN) * 2 ^ 53
                   = 2 ^ n1 * 2 ^ (53 - dD) * 2 ^ (53 + dD - dN - n1))
      by (rewrite <- !Z.pow_add_r by lia; f_equal; lia).
    assert (HK : 0 < 2 ^ n1 * 2 ^ (53 - dD))
      by (apply Z.mul_pos_pos; apply Z.pow_pos_nonneg; lia).
    apply (abs_cancel (2 ^ n1 * 2 ^ (53 - dD))); [exact HK |].
    replace (2 ^ n1 * 2 ^ (53 - dD) * (D * Z.pos ms - N * 2 ^ (53 + dD - dN - n1)))
      with (Z.pos ms * (2 ^ n1 * (D * 2 ^ (53 - dD)))
            - N * (2 ^ n1 * 2 ^ (53 - dD) * 2 ^ (53 + dD - dN - n1))) by ring.
    rewrite <- Hpow.
    replace (N * (2 ^ (53 - dN) * 2 ^ 53)) with (N * 2 ^ (53 - dN) * 2 ^ 53) by ring.
    replace (2 ^ n1 * 2 ^ (53 - dD) * D) with (2 ^ n1 * (D * 2 ^ (53 - dD))) by ring.
    exact HD1.
  - rewrite Hmi in HD2.
    assert (Hpow : 2 ^ (53 - di) * 2 ^ (53 + dD - dN - n1) = 2 ^ Z.pos pe * 2 ^ n2)
      by (rewrite <- !Z.pow_add_r by lia; f_equal; lia).
    assert (HS : 0 < 2 ^ (53 + dD - dN - n1)) by (apply Z.pow_pos_nonneg; lia).
    assert (HW : 0 < 2 ^ n2) by (apply Z.pow_pos_nonneg; lia).
    apply (abs_cancel (2 ^ n2)); [exact HW |].
    replace (2 ^ n2 * (Z.pos mp * 2 ^ (53 + dD - dN - n1) - i * 2 ^ Z.pos pe * Z.pos ms))
      with (2 ^ (53 + dD - dN - n1) * (Z.pos mp * 2 ^ n2)
            - i * Z.pos ms * (2 ^ Z.pos pe * 2 ^ n2)) by ring.
    rewrite <- Hpow.
    replace (2 ^ (53 + dD - dN - n1) * (Z.pos mp * 2 ^ n2)
             - i * Z.pos ms * (2 ^ (53 - di) * 2 ^ (53 + dD - dN - n1)))
      with (2 ^ (53 + dD - dN - n1) * (Z.pos mp * 2 ^ n2 - i * 2 ^ (53 - di) * Z.pos ms))
      by ring.
    rewrite Z.abs_mul, (Z.abs_eq (2 ^ (53 + dD - dN - n1))) by lia.
    replace (2 * (2 ^ (53 + dD - dN - n1) * Z.abs (Z.pos mp * 2 ^ n2 - i * 2 ^ (53 - di) * Z.pos ms)))
      with (2 ^ (53 + dD - dN - n1) * (2 * Z.abs (Z.pos mp * 2 ^ n2 - i * 2 ^ (53 - di) * Z.pos ms)))
      by ring.
    rewrite (Z.mul_comm (2 ^ n2)).
    apply Z.mul_le_mono_nonneg_l; [lia | exact HD2].
Qed.

(** ** Route compressor *)

Lemma comprehension_ok {A B : Type} (f : A -> result B) (g : A -> B) (l : list A) :
  (forall x, In x l -> f x = Ok (g x)) -> comprehension f l = Ok (map g l).
Proof.
  induction l as [| a l IH]; intros Hf; [reflexivity |].
  cbn [comprehension map]. rewrite (Hf a) by now left.
  cbn [bind]. rewrite IH by (intros x Hx; apply Hf; now right).
  reflexivity.
Qed.

Lemma getitem_in_range {A : Type} (points : list A) (idx : Z) :
  0 <= idx < len points ->
  exists a, getitem points idx = Ok a /\ nth_error points (Z.to_nat idx) = Some a.
Proof.
  intros Hidx. unfold getitem.
  assert (Hneg : (idx <? 0) = false) by (apply Z.ltb_ge; lia).
  rewrite Hneg. cbv zeta. rewrite Hneg.
  destruct (nth_error points (Z.to_nat idx)) as [a |] eqn:Hnth;
    [exists a; split; reflexivity |].
  apply nth_error_None in Hnth. unfold len in Hidx. lia.
Qed.

Lemma comprehension_getitem {A : Type} (points : list A) (indices : list Z) :
  (forall idx, In idx indices -> 0 <= idx < len points) ->
  exists selected,
    comprehension (fun i => getitem points i) indices = Ok selected /\
    map Some selected = map (fun idx => nth_error points (Z.to_nat idx)) indices.
Proof.
  induction indices as [| idx indices IH]; intros Hin.
  - exists []. split; reflexivity.
  - destruct (getitem_in_range points idx) as (a & Hget & Hnth);
      [apply Hin; now left |].
    destruct IH as (selected & Hsel & Hmap); [intros j Hj; apply Hin; now right |].
    exists (a :: selected). cbn [comprehension map].
    rewrite Hget. cbn [bind]. rewrite Hsel. cbn [bind].
    split; [reflexivity |]. now rewrite Hnth, Hmap.
Qed.

Lemma in_range (k i : Z) : In i (range k) -> 0 <= i < k.
Proof.
  unfold range. intros Hin. apply in_map_iff in Hin as (j & <- & Hj).
  apply in_seq in Hj. lia.
Qed.

Lemma selected_nth_error {A : Type} (points selected : list A) (indices : list Z)
    (k : nat) (idx : Z) :
  map Some selected = map (fun idx => nth_error points (Z.to_nat idx)) indices ->
  nth_error indices k = Some idx ->
  nth_error selected k = nth_error points (Z.to_nat idx).
Proof.
  intros Hmap Hk. apply (f_equal (fun l => nth_error l k)) in Hmap.
  rewrite !nth_error_map, Hk in Hmap.
  destruct (nth_error selected k); cbn in Hmap; congruence.
Qed.

(** The compressor, whose ceiling is 500, on routes of up to [2^40]
    coordinates. *)
Lemma downsample_500_selects_evenly {A : Type} (points : list A) :
  len points <= 2 ^ 40 -> selects_evenly points 500.
Proof.
  intros Hlen. split.
  - intros Hle. unfold downsample_points.
    now destruct (Z.leb_spec (len points) 500); [| lia].
  - intros Hgt. unfold downsample_points.
    destruct (Z.leb_spec (len points) 500) as [H | _]; [lia |].
    change (500 - 1) with 499. unfold py_truediv.
    change (499 =? 0) with false. cbn [bind].
    rewrite (comprehension_ok _ (fun i => i * (len points - 1) / 499)).
    2:{ intros i Hi. apply in_range in Hi. apply float_index; lia. }
    cbn [bind].
    destruct (comprehension_getitem points
                (map (fun i => i * (len points - 1) / 499) (range 499)
                   ++ [len points - 1])) as (selected & Hsel & Hmap).
    { intros idx Hidx. apply in_app_or in Hidx as [Hidx | [<- | []]]; [| lia].
      apply in_map_iff in Hidx as (i & <- & Hi). apply in_range in Hi. split.
      - apply Z.div_pos; [| lia]. apply Z.mul_nonneg_nonneg; lia.
      - apply Z.div_lt_upper_bound; [lia |].
        assert (i * (len points - 1) <= 498 * (len points - 1))
          by (apply Z.mul_le_mono_nonneg_r; lia).
        lia. }
    exists selected. split; [exact Hsel |].
    assert (Hlength : length (map (fun i => i * (len points - 1) / 499) (range 499))
                      = 499%nat)
      by (unfold range; now rewrite !length_map, length_seq).
    split; [| split; [exact Hmap | split]].
    + apply (f_equal (@length _)) in Hmap.
      rewrite !length_map, length_app, Hlength in Hmap.
      unfold len. rewrite Hmap. reflexivity.
    + rewrite (selected_nth_error points selected _ 0 0 Hmap); reflexivity.
    + apply (selected_nth_error points selected _ _ _ Hmap).
      rewrite nth_error_app2 by (rewrite Hlength; cbn; lia).
      rewrite Hlength. reflexivity.
Qed.

Lemma comprehension_related {A B : Type} (f : A -> result B) (R : A -> B -> Prop)
    (l : list A) :
  (forall x, In x l -> exists b, f x = Ok b /\ R x b) ->
  exists bs, comprehension f l = Ok bs /\ Forall2 R l bs.
Proof.
  induction l as [| a l IH]; intros Hf.
  - exists []. split; [reflexivity | constructor].
  - destruct (Hf a (or_introl eq_refl)) as (b & Hb & HR).
    destruct IH as (bs & Hbs & HF); [intros x Hx; apply Hf; now right |].
    exists (b :: bs). cbn [comprehension]. rewrite Hb. cbn [bind]. rewrite Hbs.
    split; [reflexivity | now constructor].
Qed.

Lemma Forall2_strengthen {A B : Type} (R Q : A -> B -> Prop)
    (l : list A) (l' : list B) :
  Forall2 R l l' -> (forall a b, In a l -> R a b -> Q a b) -> Forall2 Q l l'.
Proof.
  induction 1 as [| a b l l' HR _ IH]; intros HQ; constructor.
  - apply HQ; [now left | exact HR].
  - apply IH. intros a' b' Ha'. apply HQ. now right.
Qed.

Lemma Forall2_witness_r {A B : Type} (R : A -> B -> Prop)
    (l : list A) (l' : list B) (b : B) :
  Forall2 R l l' -> In b l' -> exists a, In a l /\ R a b.
Proof.
  induction 1 as [| a b' l l' HR _ IH]; intros Hb; [destruct Hb |].
  destruct Hb as [<- | Hb].
  - exists a. split; [now left | exact HR].
  - destruct (IH Hb) as (a' & Ha' & HR'). exists a'. split; [now right | exact HR'].
Qed.

(** The compressor with any ceiling of two or more, on routes of up to
    [2^40] coordinates. *)
Lemma downsample_selects_spread {A : Type} (points : list A) (max_points : Z) :
  2 <= max_points -> len points <= 2 ^ 40 -> selects_spread points max_points.
Proof.
  intros Hmax Hlen. split.
  - intros Hle. unfold downsample_points.
    now destruct (Z.leb_spec (len points) max_points); [| lia].
  - intros Hgt. unfold downsample_points.
    destruct (Z.leb_spec (len points) max_points) as [H | _]; [lia |].
    unfold py_truediv. destruct (Z.eqb_spec (max_points - 1) 0); [lia |].
    cbn [bind].
    set (N := len points - 1). set (D := max_points - 1).
    destruct (comprehension_related
                (fun i => py_int (fmul (float_of_Z i) (fdiv (float_of_Z N) (float_of_Z D))))
                (fun i idx => 0 <= idx /\ (i = 0 -> idx = 0) /\
                              i * N / D - 1 <= idx <= i * N / D + 1)
                (range D)) as (indices & Hindices & Hnear).
    { intros i Hi. apply in_range in Hi. apply float_index_near; lia. }
    rewrite Hindices. cbn [bind].
    assert (Hlength : length indices = Z.to_nat D).
    { apply Forall2_length in Hnear. rewrite <- Hnear.
      unfold range. now rewrite length_map, length_seq. }
    assert (Hbound : Forall2 (fun i idx =>
                0 <= idx < len points /\
                i * N / D - 1 <= idx <= i * N / D + 1) (range D) indices).
    { apply (Forall2_strengthen _ _ _ _ Hnear).
      intros i idx Hi (H0 & _ & Hn). apply in_range in Hi.
      split; [| exact Hn]. split; [exact H0 |].
      assert (i * N / D < N - 1); [| lia].
      apply Z.div_lt_upper_bound; [lia |].
      assert (i * N <= (D - 1) * N) by (apply Z.mul_le_mono_nonneg_r; lia).
      replace ((D - 1) * N) with (D * N - N) in H by ring.
      replace (D * (N - 1)) with (D * N - D) by ring. lia. }
    destruct (comprehension_getitem points (indices ++ [len points - 1]))
      as (selected & Hsel & Hmap).
    { intros idx Hidx. apply in_app_or in Hidx as [Hidx | [<- | []]]; [| lia].
      destruct (Forall2_witness_r _ _ _ idx Hbound Hidx) as (i & _ & Hb & _).
      exact Hb. }
    exists selected, indices. split; [exact Hsel |].
    split; [| split; [exact Hbound | split; [exact Hmap | split]]].
    + apply (f_equal (@length _)) in Hmap.
      rewrite !length_map, length_app, Hlength in Hmap.
      unfold len. rewrite Hmap. cbn [length]. lia.
    + destruct indices as [| idx0 indices].
      { cbn [length] in Hlength. lia. }
      rewrite (selected_nth_error points selected _ 0 idx0 Hmap) by reflexivity.
      unfold range in Hnear.
      destruct (Z.to_nat D) as [| k] eqn:HD; [lia |].
      cbn [seq map] in Hnear. inversion Hnear as [| ? ? ? ? (_ & Hzero & _) _]; subst.
      now rewrite Hzero.
    + apply (selected_nth_error points selected _ _ _ Hmap).
      fold D. rewrite nth_error_app2 by (rewrite Hlength; lia).
      rewrite Hlength, Nat.sub_diag. reflexivity.
Qed.

(** C1, as amended.  A route within the ceiling is returned unchanged,
    whatever the ceiling.  For every ceiling of two or more and every
    route of at most [2^40] coordinates, a longer route is cut down to
    exactly [max_points] coordinates, the first and the last being the
    route's own, so the result never exceeds the ceiling; the coordinate at
    position [i] in between is taken at the index [int(i * step)], which is
    within one of [floor(i * (n-1) / (max_points-1))], and for the ceiling
    of 500 it is that floor.  A ceiling of 1 on a longer route divides by
    zero. *)
Theorem compressor_selects_evenly {A : Type} (points : list A) (max_points : Z) :
  (len points <= max_points ->
     downsample_points points max_points = Ok points) /\
  (2 <= max_points -> len points <= 2 ^ 40 ->
     selects_spread points max_points /\
     forall selected, downsample_points points max_points = Ok selected ->
       len selected <= max_points) /\
  (max_points = 500 -> len points <= 2 ^ 40 ->
     selects_evenly points max_points) /\
  (max_points = 1 -> 1 < len points ->
     downsample_points points max_points = Raise ZeroDivisionError).
Proof.
  split; [| split; [| split]].
  - intros Hle. unfold downsample_points.
    now destruct (Z.leb_spec (len points) max_points); [| lia].
  - intros Hmax Hlen.
    pose proof (downsample_selects_spread points max_points Hmax Hlen) as Hsel.
    split; [exact Hsel |].
    intros selected Hd. destruct Hsel as [Hle Hgt].
    destruct (Z.le_gt_cases (len points) max_points) as [H | H].
    + rewrite (Hle H) in Hd. injection Hd as <-. exact H.
    + destruct (Hgt ltac:(lia)) as (selected' & indices & Hd' & Hlen' & _).
      rewrite Hd' in Hd. injection Hd as <-. lia.
  - intros -> Hlen. now apply downsample_500_selects_evenly.
  - intros -> Hlen. unfold downsample_points.
    destruct (Z.leb_spec (len points) 1); [lia | reflexivity].
Qed.

(** The compressor does not fail on a route of up to [2^40] coordinates,
    and what it encodes has at most 500 coordinates. *)
Lemma encode_polyline_total (polyline_encode : list (float * float) -> string)
    (points : list (float * float)) :
  len points <= 2 ^ 40 ->
  exists selected,
    downsample_points points 500 = Ok selected /\ len selected <= 500 /\
    encode_polyline polyline_encode points = Ok (polyline_encode selected).
Proof.
  intros Hlen. unfold encode_polyline.
  destruct (downsample_500_selects_evenly points Hlen) as [Hle Hgt].
  destruct (Z.le_gt_cases (len points) 500) as [H | H].
  - exists points. rewrite (Hle H). auto.
  - destruct (Hgt ltac:(lia)) as (selected & Hd & Hsel & _).
    exists selected. rewrite Hd. split; [reflexivity |]. split; [lia | reflexivity].
Qed.

Lemma compressor_selects_evenly_witness :
  selects_evenly (range 600) 500 /\
  exists selected,
    downsample_points (range 31) 23 = Ok selected /\
    len selected = 23 /\
    nth_error selected 0 = Some 0 /\
    nth_error selected 11 = Some 14 /\
    nth_error selected 22 = Some 30.
Proof.
  split.
  - apply (compressor_selects_evenly (range 600) 500);
      [reflexivity | vm_compute; discriminate].
  - destruct (compressor_selects_evenly (range 31) 23) as (_ & Hspread & _).
    destruct Hspread as [[_ Hgt] _]; [lia | vm_compute; discriminate |].
    destruct Hgt as (selected & indices & Hd & Hlen & _ & _ & Hfirst & Hlast);
      [vm_compute; reflexivity |].
    exists selected. split; [exact Hd |]. split; [exact Hlen |].
    split; [exact Hfirst |]. split; [| exact Hlast].
    vm_compute in Hd. injection Hd as <-. reflexivity.
Defined.

(** For other ceilings the rounding of the float quotient and product can
    leave the truncated index one below the floor: with 31 coordinates and
    a ceiling of 23, position 11 selects index 14, not
    [floor(11 * 30 / 22) = 15]. *)
Lemma downsample_23_of_31_misses_floor : ~ selects_evenly (range 31) 23.
Proof.
  intros [_ Hgt].
  destruct Hgt as (selected & Hd & _ & Hmap & _); [vm_compute; reflexivity |].
  vm_compute in Hd. injection Hd as <-.
  vm_compute in Hmap. discriminate Hmap.
Qed.

(** ** Great-circle distance *)

Lemma fexp_lower (x : Z) : -1074 <= fexp prec emax x /\ x - 53 <= fexp prec emax x.
Proof. unfold fexp, emin, prec, emax. lia. Qed.

Lemma fexp_cases (x : Z) :
  fexp prec emax x = x - 53 \/ fexp prec emax x = -1074.
Proof. unfold fexp, emin, prec, emax. lia. Qed.

Lemma shr_nonpos (r : shr_record) (e n : Z) : n <= 0 -> shr r e n = (r, e).
Proof. destruct n; try lia; reflexivity. Qed.

Lemma Zdigits2_le (x k : Z) : 0 <= k -> 0 <= x <= 2 ^ k -> Zdigits2 x <= k + 1.
Proof.
  intros Hk Hx. destruct (Z.eq_dec x 0) as [-> | Hx0]; [simpl; lia |].
  apply (Zdigits2_range x 0 (k + 1)); [lia |].
  rewrite Z.pow_add_r by lia. change (2 ^ 0) with 1. change (2 ^ 1) with 2. lia.
Qed.

Lemma binary_round_aux_exact_finite (s : bool) (mx : positive) (ex : Z) :
  Zdigits2 (Z.pos mx) <= 106 -> ex <= 917 ->
  finite_signed s (binary_round_aux prec emax s (Z.pos mx) ex loc_Exact).
Proof.
  intros Hd He.
  pose proof (Zdigits2_bounds (Z.pos mx) ltac:(lia)) as Hb.
  set (d := Zdigits2 (Z.pos mx)) in *.
  assert (Hdpos : 0 < d) by (unfold d; simpl; lia).
  unfold binary_round_aux, shr_fexp. fold d.
  pose proof (fexp_lower (d + ex)) as Hf. pose proof (fexp_cases (d + ex)) as Hfc.
  set (n0 := fexp prec emax (d + ex) - ex) in *.
  (* first shift *)
  assert (H1 : exists r1 e1,
             shr (shr_record_of_loc (Z.pos mx) loc_Exact) ex n0 = (r1, e1) /\
             0 <= shr_m r1 <= 2 ^ 53 - 1 + (if n0 <=? 0 then Z.pos mx else 0) /\
             (n0 <= 0 -> r1 = shr_record_of_loc (Z.pos mx) loc_Exact) /\
             -1074 <= e1 <= 970 /\ e1 = ex + Z.max n0 0).
  { destruct (Z.leb_spec n0 0) as [Hn | Hn].
    - rewrite shr_nonpos by exact Hn. eexists _, _. split; [reflexivity |].
      cbn [shr_record_of_loc shr_m]. repeat split; try lia.
    - destruct (shr_located (shr_record_of_loc (Z.pos mx) loc_Exact) ex n0
                  (Z.pos mx) 1) as (Hl & Hm & Hs); try lia.
      { cbn [shr_record_of_loc shr_m]. lia. }
      { cbn [shr_record_of_loc shr_m loc_of_shr_record located]. lia. }
      destruct (shr (shr_record_of_loc (Z.pos mx) loc_Exact) ex n0) as [r1 e1].
      cbn [fst snd] in *. exists r1, e1. split; [reflexivity |].
      assert (Hp : 0 < 2 ^ n0) by (apply Z.pow_pos_nonneg; lia).
      apply located_floor in Hl; [| lia]. rewrite Z.mul_1_r in Hl.
      assert (Hpow : 2 ^ d <= 2 ^ 53 * 2 ^ n0).
      { rewrite <- Z.pow_add_r by lia. apply Z.pow_le_mono_r; lia. }
      assert (Hlt : shr_m r1 * 2 ^ n0 < 2 ^ 53 * 2 ^ n0) by lia.
      apply Z.mul_lt_mono_pos_r in Hlt; [| exact Hp].
      repeat split; try lia. }
  destruct H1 as (r1 & e1 & -> & Hm1 & Hr1 & He1 & He1').
  pose proof (Z.le_refl 0) as _.
  set (m2 := round_nearest_even (shr_m r1) (loc_of_shr_record r1)).
  assert (Hm2 : 0 <= m2 /\ (0 < n0 -> m2 <= 2 ^ 53) /\ (n0 <= 0 -> m2 = Z.pos mx)).
  { unfold m2. split; [| split].
    - destruct (loc_of_shr_record r1) as [| []]; cbn [round_nearest_even];
        try destruct (Z.even (shr_m r1)); lia.
    - intros Hn. destruct (Z.leb_spec n0 0); [lia |].
      destruct (loc_of_shr_record r1) as [| []]; cbn [round_nearest_even];
        try destruct (Z.even (shr_m r1)); lia.
    - intros Hn. rewrite (Hr1 Hn). reflexivity. }
  destruct Hm2 as (Hm2a & Hm2b & Hm2c).
  (* second shift *)
  set (n2 := fexp prec emax (Zdigits2 m2 + e1) - e1).
  assert (Hn2 : n2 <= 1).
  { unfold n2. destruct (Z.leb_spec n0 0) as [Hn | Hn].
    - rewrite (Hm2c Hn). fold d. replace e1 with ex by lia. fold n0. lia.
    - pose proof (Zdigits2_le m2 53 ltac:(lia) (conj Hm2a (Hm2b Hn))) as Hd2.
      destruct (fexp_cases (Zdigits2 m2 + e1)); lia. }
  assert (H2 : exists r2 e2,
             shr (shr_record_of_loc m2 loc_Exact) e1 n2 = (r2, e2) /\
             0 <= shr_m r2 /\ e2 <= 971).
  { destruct (Z.leb_spec n2 0) as [Hn | Hn].
    - rewrite shr_nonpos by exact Hn. eexists _, _. split; [reflexivity |].
      cbn [shr_record_of_loc shr_m]. lia.
    - assert (n2 = 1) as -> by lia. cbn [shr SpecFloat.iter_pos].
      eexists _, _. split; [reflexivity |]. split; [| lia].
      cbn [shr_record_of_loc].
      destruct m2 as [| [p | p |] | p]; cbn [shr_1 shr_m]; lia. }
  destruct H2 as (r2 & e2 & -> & Hm2' & He2).
  destruct (shr_m r2) as [| m | m]; cbn [finite_signed]; try lia; [reflexivity |].
  replace (e2 <=? emax - prec) with true
    by (symmetry; apply Z.leb_le; unfold emax, prec; lia).
  reflexivity.
Qed.

Lemma valid_finite (s : bool) (m : positive) (e : Z) :
  valid (S754_finite s m e) -> Zdigits2 (Z.pos m) <= 53 /\ e <= 971.
Proof.
  unfold valid, valid_binary, bounded, canonical_mantissa. intros H.
  apply andb_true_iff in H as [Hc He].
  apply Z.eqb_eq in Hc. apply Z.leb_le in He.
  pose proof (fexp_lower (Z.pos (digits2_pos m) + e)).
  cbn [Zdigits2]. unfold emax, prec in He. lia.
Qed.

Lemma fmul_finite (sx sy : bool) (mx my : positive) (ex ey : Z) :
  Zdigits2 (Z.pos mx) <= 53 -> Zdigits2 (Z.pos my) <= 53 -> ex + ey <= 917 ->
  finite_signed (xorb sx sy)
    (fmul (S754_finite sx mx ex) (S754_finite sy my ey)).
Proof.
  intros Hx Hy He. unfold fmul, SFmul.
  apply binary_round_aux_exact_finite; [| exact He].
  pose proof (Zdigits2_bounds (Z.pos mx) ltac:(lia)) as Hbx.
  pose proof (Zdigits2_bounds (Z.pos my) ltac:(lia)) as Hby.
  assert (Hx53 : Z.pos mx < 2 ^ 53).
  { apply Z.lt_le_trans with (2 ^ Zdigits2 (Z.pos mx)); [lia |].
    apply Z.pow_le_mono_r; lia. }
  assert (Hy53 : Z.pos my < 2 ^ 53).
  { apply Z.lt_le_trans with (2 ^ Zdigits2 (Z.pos my)); [lia |].
    apply Z.pow_le_mono_r; lia. }
  rewrite Pos2Z.inj_mul.
  apply (Zdigits2_range (Z.pos mx * Z.pos my) 0 106); [lia |].
  split; [change (2 ^ 0) with 1; lia |].
  change (2 ^ 106) with (2 ^ 53 * 2 ^ 53). apply Z.mul_lt_mono_nonneg; lia.
Qed.

Lemma binary_round_aux_opp (s : bool) (mx ex : Z) (lx : location) :
  binary_round_aux prec emax (negb s) mx ex lx
  = fopp (binary_round_aux prec emax s mx ex lx).
Proof.
  unfold binary_round_aux.
  destruct (shr_fexp prec emax mx ex lx) as [r1 e1].
  destruct (shr_fexp prec emax _ e1 loc_Exact) as [r2 e2].
  destruct (shr_m r2); [reflexivity | | reflexivity].
  now destruct (e2 <=? emax - prec).
Qed.

Lemma fmul_opp_l (x c : float) : fmul (fopp x) c = fopp (fmul x c).
Proof.
  destruct x as [sx | sx | | sx mx ex], c as [sc | sc | | sc mc ec];
    try reflexivity; cbn [fmul SFmul fopp SFopp];
    try (now destruct sx, sc).
  unfold fmul, SFmul. rewrite <- binary_round_aux_opp. now destruct sx, sc.
Qed.

Lemma fdiv_opp_l (x c : float) : fdiv (fopp x) c = fopp (fdiv x c).
Proof.
  destruct x as [sx | sx | | sx mx ex], c as [sc | sc | | sc mc ec];
    try reflexivity; cbn [fdiv SFdiv fopp SFopp];
    try (now destruct sx, sc).
  unfold fdiv, SFdiv.
  destruct (SFdiv_core_binary prec emax (Z.pos mx) ex (Z.pos mc) ec) as [[mz ez] lz].
  rewrite <- binary_round_aux_opp. now destruct sx, sc.
Qed.

Lemma fmul_comm (x y : float) : fmul x y = fmul y x.
Proof.
  destruct x as [sx | sx | | sx mx ex], y as [sy | sy | | sy my ey];
    try reflexivity; cbn [fmul SFmul]; try (now destruct sx, sy).
  unfold fmul, SFmul. now rewrite xorb_comm, Pos.mul_comm, Z.add_comm.
Qed.

Lemma fopp_involutive (x : float) : fopp (fopp x) = x.
Proof. destruct x as [[] | [] | | [] m e]; reflexivity. Qed.

Lemma binary_normalize_opp (v e : Z) :
  v <> 0 ->
  binary_normalize prec emax (- v) e false
  = fopp (binary_normalize prec emax v e false).
Proof.
  intros Hv. destruct v as [| p | p]; [lia | |].
  - change (- Z.pos p) with (Z.neg p). unfold binary_normalize, binary_round.
    destruct (shl_align p e (fexp prec emax (Z.pos (digits2_pos p) + e))) as [mz ez].
    apply (binary_round_aux_opp false).
  - change (- Z.neg p) with (Z.pos p). unfold binary_normalize, binary_round.
    destruct (shl_align p e (fexp prec emax (Z.pos (digits2_pos p) + e))) as [mz ez].
    now rewrite <- (binary_round_aux_opp true).
Qed.

(** Subtraction in the other order gives the opposite, or the same zero. *)
Lemma fsub_swap (x y : float) :
  fsub y x = fopp (fsub x y) \/ fsub y x = fsub x y.
Proof.
  destruct x as [sx | sx | | sx mx ex], y as [sy | sy | | sy my ey];
    cbn [fsub SFsub fopp SFopp];
    try (destruct sx, sy; auto; fail); auto.
  change (IntDef.Z.min ey ex) with (Z.min ey ex).
  change (IntDef.Z.min ex ey) with (Z.min ex ey).
  rewrite (Z.min_comm ey ex).
  set (a := cond_Zopp sx (Z.pos (fst (shl_align mx ex (Z.min ex ey))))).
  set (b := cond_Zopp sy (Z.pos (fst (shl_align my ey (Z.min ex ey))))).
  destruct (Z.eq_dec (a - b) 0) as [H0 | Hne].
  - right. replace (b - a) with 0 by lia. now rewrite H0.
  - left. replace (b - a) with (- (a - b)) by lia.
    now apply binary_normalize_opp.
Qed.

Section Haversine.
Context {M : PyMath} {MS : PyMathSpec M}.

Lemma half_angle_swap (x y : float) :
  fdiv (math_radians (fsub y x)) ftwo = fopp (fdiv (math_radians (fsub x y)) ftwo) \/
  fdiv (math_radians (fsub y x)) ftwo = fdiv (math_radians (fsub x y)) ftwo.
Proof.
  destruct (fsub_swap x y) as [-> | ->]; [left | now right].
  unfold math_radians. now rewrite fmul_opp_l, fdiv_opp_l.
Qed.

Lemma sin_squared_swap {A : Type} (x y : float) (K : float -> result A) :
  (let* s := math_sin (fdiv (math_radians (fsub y x)) ftwo) in
   let* q := float_pow s ftwo in K q)
  = (let* s := math_sin (fdiv (math_radians (fsub x y)) ftwo) in
     let* q := float_pow s ftwo in K q).
Proof.
  destruct (half_angle_swap x y) as [-> | ->]; [| reflexivity].
  rewrite sin_odd.
  destruct (math_sin (fdiv (math_radians (fsub x y)) ftwo)) as [s | e];
    cbn [bind result_map]; [| reflexivity].
  now rewrite pow_even.
Qed.

Lemma cos_pair_swap {A : Type} (x y : float) (K : float -> result A) :
  (let* c1 := math_cos x in let* c2 := math_cos y in K (fmul c1 c2))
  = (let* c1 := math_cos y in let* c2 := math_cos x in K (fmul c1 c2)).
Proof.
  destruct (math_cos x) as [cx | e1] eqn:Hx, (math_cos y) as [cy | e2] eqn:Hy;
    cbn [bind]; try reflexivity.
  - now rewrite fmul_comm.
  - now rewrite (cos_error _ _ Hx), (cos_error _ _ Hy).
Qed.

Lemma haversine_symmetric (lat1 lon1 lat2 lon2 : float) :
  haversine_distance lat1 lon1 lat2 lon2 = haversine_distance lat2 lon2 lat1 lon1.
Proof.
  unfold haversine_distance. cbv zeta.
  rewrite (sin_squared_swap lat1 lat2).
  destruct (math_sin (fdiv (math_radians (fsub lat1 lat2)) ftwo)) as [s1 | e];
    cbn [bind]; [| reflexivity].
  destruct (float_pow s1 ftwo) as [s1sq | e]; cbn [bind]; [| reflexivity].
  rewrite (cos_pair_swap (math_radians lat1) (math_radians lat2)
             (fun c12 =>
                let* s2 := math_sin (fdiv (math_radians (fsub lon2 lon1)) ftwo) in
                let* s2sq := float_pow s2 ftwo in
                let* ra := math_sqrt (fadd s1sq (fmul c12 s2sq)) in
                let* rb := math_sqrt (fsub fone (fadd s1sq (fmul c12 s2sq))) in
                let* t := math_atan2 ra rb in
                Ok (fmul (float_of_Z 6371000) (fmul ftwo t)))).
  destruct (math_cos (math_radians lat2)) as [c1 | e]; cbn [bind]; [| reflexivity].
  destruct (math_cos (math_radians lat1)) as [c2 | e]; cbn [bind]; [| reflexivity].
  apply (sin_squared_swap lon1 lon2).
Qed.

Lemma fsub_self (x : float) : is_finite x = true -> fsub x x = fzero.
Proof.
  destruct x as [[] | s | | s m e]; try discriminate; try reflexivity.
  intros _. unfold fsub, SFsub. now rewrite Z.sub_diag.
Qed.

Lemma radians_finite (x : float) :
  valid x -> is_finite x = true -> is_finite (math_radians x) = true.
Proof.
  intros Hv Hf. destruct x as [s | s | | s m e]; try discriminate; [reflexivity |].
  apply valid_finite in Hv as [Hd He].
  unfold math_radians.
  change (fdiv math_pi (float_of_Z 180))
    with (S754_finite false 5030569068109113 (-58)).
  pose proof (fmul_finite s false m 5030569068109113 e (-58) Hd
                ltac:(simpl; lia) ltac:(lia)) as H.
  destruct (fmul _ _); cbn in H |- *; try contradiction; reflexivity.
Qed.

Lemma unit_square_zero (c : float) :
  valid c -> fle (fabs c) fone = true -> fmul (fmul c c) fzero = fzero.
Proof.
  intros Hv Hle.
  assert (H : finite_signed false (fmul c c)).
  { destruct c as [[] | s | | s m e]; try discriminate; try reflexivity.
    apply valid_finite in Hv as [Hd _].
    assert (He : e <= -52).
    { revert Hle. change fone with (S754_finite false 4503599627370496 (-52)).
      unfold fle, SFleb, fabs, SFabs, SFcompare.
      destruct (Z.compare_spec e (-52)); try discriminate; lia. }
    replace false with (xorb s s) by (now destruct s).
    apply fmul_finite; auto; lia. }
  destruct (fmul c c) as [s | s | | s m e]; cbn in H; try contradiction;
    subst s; reflexivity.
Qed.

Lemma haversine_same_point (lat lon : float) :
  valid lat -> valid lon -> is_finite lat = true -> is_finite lon = true ->
  haversine_distance lat lon lat lon = Ok fzero.
Proof.
  intros Hvlat Hvlon Hflat Hflon. unfold haversine_distance. cbv zeta.
  rewrite (fsub_self lat Hflat), (fsub_self lon Hflon).
  change (fdiv (math_radians fzero) ftwo) with fzero.
  rewrite sin_zero. cbn [bind]. rewrite pow_zero. cbn [bind].
  destruct (cos_unit (math_radians lat) (radians_finite lat Hvlat Hflat))
    as (c & Hc & Hvc & Hle).
  rewrite Hc. cbn [bind]. rewrite (unit_square_zero c Hvc Hle).
  change (fadd fzero fzero) with fzero.
  change (math_sqrt fzero) with (Ok fzero). cbn [bind].
  change (math_sqrt (fsub fone fzero)) with (Ok fone). cbn [bind].
  rewrite atan2_zero. reflexivity.
Qed.

End Haversine.

Lemma fmul_opp_opp (x : float) : fmul (fopp x) (fopp x) = fmul x x.
Proof.
  now rewrite fmul_opp_l, (fmul_comm x (fopp x)), fmul_opp_l, fopp_involutive.
Qed.

Lemma small_angle_math_spec : PyMathSpec small_angle_math.
Proof.
  split; cbn [math_sin math_cos math_atan2 float_pow small_angle_math];
    try reflexivity.
  - intros x _. exists fone. repeat split; reflexivity.
  - discriminate.
  - intros x. now rewrite fmul_opp_opp.
Qed.


(** ** Distance from a point to a sampled route *)

(** [<] on floats is a strict order, total on numbers. *)
Lemma flt_trans (a b c : float) :
  flt a b = true -> flt b c = true -> flt a c = true.
Proof.
  unfold flt, SFltb, SFcompare.
  destruct a as [sa | sa | | sa ma ea], b as [sb | sb | | sb mb eb],
    c as [sc | sc | | sc mc ec];
    try destruct sa; try destruct sb; try destruct sc;
    try discriminate; try reflexivity;
    intros H1 H2; cmp_cases; simpl in *;
    try discriminate; try reflexivity; try lia.
Qed.

Lemma flt_cotrans (a b c : float) :
  is_nan b = false -> flt a c = true -> flt a b = true \/ flt b c = true.
Proof.
  unfold flt, SFltb, SFcompare, is_nan.
  destruct a as [sa | sa | | sa ma ea], b as [sb | sb | | sb mb eb],
    c as [sc | sc | | sc mc ec];
    try destruct sa; try destruct sb; try destruct sc;
    try discriminate; auto;
    intros _ H1; cmp_cases; simpl in *; auto;
    try discriminate; try lia.
Qed.


Lemma slice_from_nth_error {A : Type} (step : nat) (l : list A) :
  (0 < step)%nat ->
  forall skip j : nat,
    nth_error (slice_from skip step l) j = nth_error l (skip + j * step).
Proof.
  intros Hstep. destruct step as [| s]; [lia |].
  induction l as [| x l IH]; intros skip j.
  - simpl. now destruct j, (skip + _)%nat.
  - destruct skip as [| skip].
    + destruct j as [| j]; [reflexivity |].
      cbn [slice_from Nat.pred nth_error]. rewrite IH.
      replace (0 + S j * S s)%nat with (S (s + j * S s)) by lia.
      reflexivity.
    + cbn [slice_from]. rewrite IH. reflexivity.
Qed.

Lemma slice_step_sampled {A : Type} (route : list A) (k : Z) (q : A) :
  0 < k -> In q (slice_step route k) <-> sampled_vertex route k q.
Proof.
  intros Hk. unfold slice_step, sampled_vertex. split.
  - intros Hin. apply In_nth_error in Hin as [j Hj].
    rewrite slice_from_nth_error in Hj by lia.
    exists (Z.of_nat j). split; [lia |].
    replace (Z.to_nat (Z.of_nat j * k)) with (0 + j * Z.to_nat k)%nat by lia.
    exact Hj.
  - intros (j & Hj & Hq). apply nth_error_In with (n := Z.to_nat j).
    rewrite slice_from_nth_error by lia.
    replace (0 + Z.to_nat j * Z.to_nat k)%nat with (Z.to_nat (j * k)) by lia.
    exact Hq.
Qed.

Lemma slice_from_insert {A : Type} (step : nat) (c : A) (l : list A) :
  (0 < step)%nat ->
  forall skip i : nat,
    (forall j : nat, i <> (skip + j * step)%nat) ->
    slice_from skip step (<[i := c]> l) = slice_from skip step l.
Proof.
  intros Hstep. induction l as [| x l IH]; intros skip i Hi; [reflexivity |].
  destruct i as [| i], skip as [| skip]; simpl.
  - exfalso. apply (Hi 0%nat). reflexivity.
  - reflexivity.
  - f_equal. apply IH. intros j Hj. apply (Hi (S j)).
    destruct step; simpl in *; lia.
  - apply IH. intros j Hj. apply (Hi j). lia.
Qed.

Section DistanceFromRoute.
Context {M : PyMath}.

Lemma min_dist_loop_spec (la lo : float) (pts : list (float * float)) :
  (forall q, In q pts -> exists dq, haversine_distance la lo (fst q) (snd q) = Ok dq) ->
  forall m0, is_nan m0 = false ->
  exists d,
    min_dist_loop la lo pts m0 = Ok d /\
    is_nan d = false /\
    (d = m0 \/ exists q, In q pts /\ haversine_distance la lo (fst q) (snd q) = Ok d) /\
    flt m0 d = false /\
    (forall q dq, In q pts -> haversine_distance la lo (fst q) (snd q) = Ok dq ->
       flt dq d = false).
Proof.
  induction pts as [| [lat lon] pts IH]; intros Hok m0 Hm0.
  - exists m0. simpl. repeat split; auto.
    + destruct (flt m0 m0) eqn:E; [| reflexivity].
      exfalso. revert E. unfold flt, SFltb, SFcompare.
      destruct m0 as [s | s | | s m e]; try destruct s; try discriminate;
        rewrite Z.compare_refl;
        change (Pos.compare_cont Eq m m) with (Pos.compare m m);
        rewrite Pos.compare_refl; discriminate.
    + intros q dq [].
  - destruct (Hok (lat, lon) (or_introl eq_refl)) as [dq Hdq]. simpl in Hdq.
    simpl. rewrite Hdq. cbn [bind].
    set (m1 := if flt dq m0 then dq else m0).
    assert (Hm1 : is_nan m1 = false).
    { subst m1. destruct (flt dq m0) eqn:E; [| exact Hm0].
      destruct dq; try reflexivity. discriminate E. }
    destruct (IH (fun q Hq => Hok q (or_intror Hq)) m1 Hm1)
      as (d & Hloop & Hnan & Hatt & Hle & Hall).
    exists d. split; [exact Hloop |]. split; [exact Hnan |].
    assert (Hdq_d : flt dq d = false /\ flt m0 d = false).
    { subst m1. destruct (flt dq m0) eqn:E.
      - split; [exact Hle |].
        destruct (flt m0 d) eqn:E2; [| reflexivity].
        now rewrite (flt_trans _ _ _ E E2) in Hle.
      - split; [| exact Hle].
        destruct (flt dq d) eqn:E2; [| reflexivity].
        destruct (flt_cotrans dq m0 d Hm0 E2) as [H | H]; congruence. }
    destruct Hdq_d as [Hdq_d Hm0_d].
    split; [| split; [exact Hm0_d |]].
    + destruct Hatt as [-> | (q & Hq & Hd)].
      * subst m1. destruct (flt dq m0); [| now left].
        right. exists (lat, lon). split; [now left | exact Hdq].
      * right. exists q. split; [now right | exact Hd].
    + intros q dq' [<- | Hq] Hd.
      * simpl in Hd. rewrite Hdq in Hd. injection Hd as <-. exact Hdq_d.
      * now apply (Hall q dq').
Qed.

(** What the loop returned, read back from its result. *)
Lemma min_dist_loop_result (la lo : float) (pts : list (float * float)) :
  forall m0 d, is_nan m0 = false ->
  min_dist_loop la lo pts m0 = Ok d ->
  is_nan d = false /\
  (d = m0 \/ exists q, In q pts /\ haversine_distance la lo (fst q) (snd q) = Ok d) /\
  flt m0 d = false /\
  (forall q, In q pts ->
     exists dq, haversine_distance la lo (fst q) (snd q) = Ok dq /\ flt dq d = false).
Proof.
  intros m0 d Hm0 Hloop.
  assert (Hok : forall q, In q pts ->
            exists dq, haversine_distance la lo (fst q) (snd q) = Ok dq).
  { clear Hm0. revert m0 Hloop. induction pts as [| [lat lon] pts IH]; intros m0 Hloop q [].
    - subst q. cbn [min_dist_loop] in Hloop. cbn [fst snd].
      destruct (haversine_distance la lo lat lon) as [dq | e]; [eauto | discriminate].
    - cbn [min_dist_loop] in Hloop.
      destruct (haversine_distance la lo lat lon) as [dq | e]; [| discriminate].
      cbn [bind] in Hloop. eapply IH; eauto. }
  destruct (min_dist_loop_spec la lo pts Hok m0 Hm0)
    as (d' & Hloop' & Hnan & Hatt & Hle & Hall).
  assert (d' = d) by congruence. subst d'.
  repeat split; auto.
  intros q Hq. destruct (Hok q Hq) as [dq Hdq]. exists dq. split; [exact Hdq |].
  now apply (Hall q).
Qed.


Lemma flt_inf_only (x : float) :
  is_nan x = false -> flt x finf = false -> x = finf.
Proof.
  destruct x as [s | [] | | [] m e]; try discriminate; reflexivity.
Qed.

Lemma flt_false_fle (a b : float) :
  is_nan a = false -> is_nan b = false -> flt a b = false -> fle b a = true.
Proof.
  unfold flt, fle, SFltb, SFleb, SFcompare, is_nan.
  destruct a as [sa | sa | | sa ma ea], b as [sb | sb | | sb mb eb];
    try destruct sa; try destruct sb; try discriminate; auto;
    intros _ _ H; cmp_cases; simpl in *; auto; try discriminate; try lia.
Qed.

Lemma distance_from_route_insert (la lo : float) (route : list (float * float))
    (i : nat) (c : float * float) :
  Z.of_nat i mod stride (len route) <> 0 ->
  slice_step (<[i := c]> route) (stride (len (<[i := c]> route)))
    = slice_step route (stride (len route)) /\
  distance_from_route la lo (<[i := c]> route) = distance_from_route la lo route.
Proof.
  intros Hi.
  assert (Hlen : len (<[i := c]> route) = len route)
    by (unfold len; now rewrite length_insert).
  assert (Hk : 0 < stride (len route)) by (unfold stride; lia).
  assert (Hslice : slice_step (<[i := c]> route) (stride (len (<[i := c]> route)))
                   = slice_step route (stride (len route))).
  { rewrite Hlen. unfold slice_step. apply slice_from_insert; [lia |].
    intros j Hj. apply Hi.
    replace (Z.of_nat i) with (Z.of_nat j * stride (len route)) by lia.
    apply Z_mod_mult. }
  split; [exact Hslice |].
  unfold distance_from_route. fold (stride (len (<[i := c]> route))).
  fold (stride (len route)). now rewrite Hslice.
Qed.

Lemma distance_from_route_spec (la lo : float) (route : list (float * float)) :
  route <> [] ->
  (forall q, sampled_vertex route (stride (len route)) q ->
     exists dq, haversine_distance la lo (fst q) (snd q) = Ok dq /\ is_nan dq = false) ->
  exists d q,
    distance_from_route la lo route = Ok d /\
    sampled_vertex route (stride (len route)) q /\
    haversine_distance la lo (fst q) (snd q) = Ok d /\
    forall q' dq', sampled_vertex route (stride (len route)) q' ->
      haversine_distance la lo (fst q') (snd q') = Ok dq' -> fle d dq' = true.
Proof.
  intros Hroute Hok.
  assert (Hk : 0 < stride (len route)) by (unfold stride; lia).
  pose proof (fun q => slice_step_sampled route (stride (len route)) q Hk) as Hs.
  destruct (min_dist_loop_spec la lo (slice_step route (stride (len route)))) with (m0 := finf)
    as (d & Hloop & Hnan & Hatt & _ & Hall).
  { intros q Hq. apply Hs in Hq. destruct (Hok q Hq) as (dq & Hdq & _). eauto. }
  { reflexivity. }
  assert (Hmin : forall q' dq', sampled_vertex route (stride (len route)) q' ->
            haversine_distance la lo (fst q') (snd q') = Ok dq' -> fle d dq' = true).
  { intros q' dq' Hq' Hd'. destruct (Hok q' Hq') as (dq & Hdq & Hn).
    assert (dq = dq') by congruence. subst dq'.
    apply flt_false_fle; auto. apply (Hall q'); [now apply Hs | exact Hd']. }
  destruct Hatt as [-> | (q & Hq & Hd)].
  - destruct route as [| q0 route]; [contradiction |].
    assert (Hq0 : In q0 (slice_step (q0 :: route) (stride (len (q0 :: route)))))
      by (unfold slice_step; simpl; now left).
    destruct (Hok q0 (proj1 (Hs q0) Hq0)) as (d0 & Hd0 & Hn0).
    pose proof (Hall q0 d0 Hq0 Hd0) as Hle.
    apply flt_inf_only in Hle; [| exact Hn0]. subst d0.
    exists finf, q0. repeat split; auto. now apply Hs.
  - exists d, q. repeat split; auto. now apply Hs.
Qed.

Lemma min_dist_loop_raises (la lo : float) (pts : list (float * float)) :
  forall m0 e, min_dist_loop la lo pts m0 = Raise e ->
  exists q, In q pts /\ haversine_distance la lo (fst q) (snd q) = Raise e.
Proof.
  induction pts as [| [lat lon] pts IH]; intros m0 e Hloop; [discriminate |].
  cbn [min_dist_loop] in Hloop.
  destruct (haversine_distance la lo lat lon) as [dq | e'] eqn:Hq.
  - cbn [bind] in Hloop. destruct (IH _ _ Hloop) as (q & Hin & Hr).
    exists q. split; [now right | exact Hr].
  - cbn [bind] in Hloop. injection Hloop as ->.
    exists (lat, lon). split; [now left | exact Hq].
Qed.

Lemma distance_from_route_returns (la lo : float) (route : list (float * float)) :
  (exists d, distance_from_route la lo route = Ok d) <->
  (forall q, sampled_vertex route (stride (len route)) q ->
     exists dq, haversine_distance la lo (fst q) (snd q) = Ok dq).
Proof.
  assert (Hk : 0 < stride (len route)) by (unfold stride; lia).
  pose proof (fun q => slice_step_sampled route (stride (len route)) q Hk) as Hs.
  unfold distance_from_route. fold (stride (len route)). split.
  - intros (d & Hd) q Hq.
    apply min_dist_loop_result in Hd as (_ & _ & _ & Hall); [| reflexivity].
    destruct (Hall q (proj2 (Hs q) Hq)) as (dq & Hdq & _). eauto.
  - intros Hok.
    destruct (min_dist_loop_spec la lo (slice_step route (stride (len route))))
      with (m0 := finf) as (d & Hd & _); [| reflexivity | eauto].
    intros q Hq. apply Hok. now apply Hs.
Qed.

Lemma distance_from_route_when_returned (la lo : float)
    (route : list (float * float)) (d : float) :
  distance_from_route la lo route = Ok d ->
  is_nan d = false /\
  (d = finf \/
   exists q, sampled_vertex route (stride (len route)) q /\
             haversine_distance la lo (fst q) (snd q) = Ok d) /\
  (forall q dq, sampled_vertex route (stride (len route)) q ->
     haversine_distance la lo (fst q) (snd q) = Ok dq ->
     flt dq d = false /\ (is_nan dq = false -> fle d dq = true)).
Proof.
  intros Hd.
  assert (Hk : 0 < stride (len route)) by (unfold stride; lia).
  pose proof (fun q => slice_step_sampled route (stride (len route)) q Hk) as Hs.
  unfold distance_from_route in Hd. fold (stride (len route)) in Hd.
  apply min_dist_loop_result in Hd as (Hnan & Hatt & _ & Hall); [| reflexivity].
  split; [exact Hnan |]. split.
  - destruct Hatt as [-> | (q & Hq & Hdq)]; [now left |].
    right. exists q. split; [now apply Hs | exact Hdq].
  - intros q dq Hq Hdq. destruct (Hall q (proj2 (Hs q) Hq)) as (dq' & Hdq' & Hlt).
    assert (dq' = dq) by congruence. subst dq'.
    split; [exact Hlt |]. intros Hnum. now apply flt_false_fle.
Qed.


End DistanceFromRoute.



(** The hypothesis on the sampled distances, checked by running the
    formula over the sample. *)
Lemma sampled_numbers (M : PyMath) (la lo : float) (route : list (float * float)) :
  forallb (fun q => match @haversine_distance M la lo (fst q) (snd q) with
                    | Ok dq => negb (is_nan dq)
                    | Raise _ => false
                    end) (slice_step route (stride (len route))) = true ->
  forall q, sampled_vertex route (stride (len route)) q ->
    exists dq, @haversine_distance M la lo (fst q) (snd q) = Ok dq /\
               is_nan dq = false.
Proof.
  intros Hall q Hq.
  assert (Hk : 0 < stride (len route)) by (unfold stride; lia).
  apply slice_step_sampled in Hq; [| exact Hk].
  rewrite forallb_forall in Hall. specialize (Hall q Hq).
  destruct (haversine_distance la lo (fst q) (snd q)) as [dq | e]; [| discriminate].
  exists dq. split; [reflexivity |]. now apply negb_true_iff.
Qed.



(** ** Result assembler: truth tests on coordinates and distances *)

(** C4. A place on the equator has a coordinate, and the route is supplied,
    yet no distance is computed: the guard [route_points and lat and lon]
    reads the latitude [0.0] as false. *)
Theorem equator_place_gets_no_distance {M : PyMath} {F : PyFormat}
    (route_points : list (float * float)) (id : option string) (lo : float) :
  exists r,
    assemble_place (Some route_points) (place_at id (Some fzero) (Some lo)) = Ok r /\
    lat r = Some fzero /\ lon r = Some lo /\
    distance_m r = None /\ distance_mi r = None /\
    distance_display r = EmptyString.
Proof.
  unfold assemble_place. cbn [place_location place_at loc_latitude loc_longitude].
  replace (truthy_route (Some route_points) && float_truthy fzero && float_truthy lo)
    with false by (now rewrite andb_false_r).
  cbn [bind]. eexists. split; [reflexivity |]. cbn. repeat split.
Qed.

(** C7. A place without identifier on the prime meridian has a coordinate,
    yet its link is empty: the guard [lat and lon] reads the longitude
    [0.0] as false. *)
Theorem meridian_place_gets_no_link {M : PyMath} {F : PyFormat} (la : float) :
  exists r,
    assemble_place None (place_at None (Some la) (Some fzero)) = Ok r /\
    lat r = Some la /\ lon r = Some fzero /\
    maps_url r = EmptyString.
Proof.
  unfold assemble_place. cbn [place_location place_at loc_latitude loc_longitude].
  cbn [bind]. eexists. split; [reflexivity |]. cbn.
  repeat split. now rewrite andb_false_r.
Qed.

(** C3. When the computed distance is [0.0], the result carries
    [distance_m] but neither [distance_mi] nor a display string: the
    conditional [... if dist_from_route else ...] reads [0.0] as false. *)
Theorem zero_distance_drops_miles {M : PyMath} {F : PyFormat}
    (route_points : list (float * float)) (id : option string)
    (la lo d : float) :
  route_points <> [] ->
  float_truthy la = true -> float_truthy lo = true ->
  distance_from_route la lo route_points = Ok d ->
  float_truthy d = false ->
  exists r,
    assemble_place (Some route_points) (place_at id (Some la) (Some lo)) = Ok r /\
    distance_m r = Some d /\ distance_mi r = None /\
    distance_display r = EmptyString.
Proof.
  intros Hroute Hla Hlo Hdist Hzero.
  unfold assemble_place. cbn [place_location place_at loc_latitude loc_longitude].
  rewrite Hla, Hlo, Hdist.
  destruct route_points as [| p route_points]; [contradiction |].
  cbn [truthy_route andb bind]. eexists. split; [reflexivity |].
  cbn. rewrite Hzero. repeat split.
Qed.

Lemma zero_distance_drops_miles_witness :
  exists r,
    @assemble_place small_angle_math integer_part_format (Some austin_route)
      (place_at None (Some (float_of_Z 30)) (Some (float_of_Z (-97)))) = Ok r /\
    distance_m r = Some fzero /\ distance_mi r = None /\
    distance_display r = EmptyString.
Proof.
  apply (@zero_distance_drops_miles small_angle_math integer_part_format).
  - discriminate.
  - reflexivity.
  - reflexivity.
  - vm_compute. reflexivity.
  - reflexivity.
Defined.

(** ** Price-tier mapping *)

(** C5. The price-tier mapping is a total function on strings: each of the
    five upstream codes maps to its documented symbol, and every other
    string, the empty string of an absent tier included, maps to the empty
    display value. *)
Theorem price_map_total :
  price_display_of "PRICE_LEVEL_FREE" = "Free"%string /\
  price_display_of "PRICE_LEVEL_INEXPENSIVE" = "$"%string /\
  price_display_of "PRICE_LEVEL_MODERATE" = "$$"%string /\
  price_display_of "PRICE_LEVEL_EXPENSIVE" = "$$$"%string /\
  price_display_of "PRICE_LEVEL_VERY_EXPENSIVE" = "$$$$"%string /\
  price_display_of (default EmptyString None) = EmptyString /\
  forall price_raw : string,
    ~ In price_raw price_codes -> price_display_of price_raw = EmptyString.
Proof.
  repeat split; try reflexivity.
  intros price_raw Hnot. unfold price_display_of, price_map.
  assert (Hne : forall code, In code price_codes -> code <> price_raw)
    by (intros code Hin ->; contradiction).
  rewrite !lookup_insert_ne by (apply Hne; simpl; tauto).
  now rewrite lookup_empty.
Qed.

Lemma price_map_total_witness :
  price_display_of "PRICE_LEVEL_UNSPECIFIED" = EmptyString.
Proof.
  apply price_map_total.
  intros Hin. simpl in Hin.
  repeat (destruct Hin as [Hin | Hin]; [discriminate Hin |]).
  exact Hin.
Defined.

(** ** Filter pipeline *)

Lemma not_in_spec (tier : string) (price_filter : list string) :
  ~ In tier price_filter -> not_in (Some tier) price_filter = true.
Proof.
  intros Hnot. unfold not_in.
  destruct (existsb (String.eqb tier) price_filter) eqn:E; [| reflexivity].
  apply existsb_exists in E as (x & Hin & Heq).
  apply String.eqb_eq in Heq. subst x. contradiction.
Qed.

(** C6. With a non-empty allowed set, a place with no price tier fares
    exactly as with the price filter switched off, a place with a tier
    outside the allowed set is dropped, and the two-element example of the
    specification keeps the untiered place only. *)
Theorem price_filter_policy (min_rating max_distance_mi : float)
    (price_filter : list string) (open_now_only : bool) :
  (forall place,
      truthy_string (price_level place) = false ->
      passes_filters min_rating price_filter open_now_only max_distance_mi place
      = passes_filters min_rating [] open_now_only max_distance_mi place) /\
  (forall place tier,
      price_level place = Some tier -> tier <> EmptyString ->
      ~ In tier price_filter -> price_filter <> [] ->
      passes_filters min_rating price_filter open_now_only max_distance_mi place
      = false) /\
  filter_results fzero ["$"%string] false max_distance_mi
    [priced (Some "$$"%string); priced None] = [priced None].
Proof.
  split; [| split].
  - intros place Hno. unfold passes_filters. rewrite Hno.
    now rewrite andb_false_r.
  - intros place tier Htier Hne Hnot Hfilter. unfold passes_filters.
    rewrite Htier, (not_in_spec _ _ Hnot).
    assert (Htruthy : truthy_string (Some tier) = true)
      by (destruct tier; [contradiction | reflexivity]).
    assert (Hactive : negb (is_empty price_filter) = true)
      by (destruct price_filter; [contradiction | reflexivity]).
    rewrite Htruthy, Hactive. simpl.
    repeat match goal with |- (if ?c then false else _) = false =>
      destruct c; [reflexivity |] end.
    reflexivity.
  - reflexivity.
Qed.

Lemma price_filter_policy_witness :
  passes_filters fzero ["$"%string] false (float_of_Z 5) (priced (Some "$$"%string))
  = false.
Proof.
  apply (proj1 (proj2 (price_filter_policy fzero (float_of_Z 5) ["$"%string] false))
           (priced (Some "$$"%string)) "$$"%string).
  - reflexivity.
  - discriminate.
  - simpl. intros [H | []]. discriminate H.
  - discriminate.
Defined.

(** * Further properties of the code *)

(** ** Lists *)

Lemma getitem_last {A : Type} (l : list A) (x : A) :
  getitem (l ++ [x]) (-1) = Ok x.
Proof.
  unfold getitem. cbn [Z.ltb Z.compare].
  assert (Hlen : len (l ++ [x]) + -1 = len l)
    by (unfold len; rewrite length_app; cbn; lia).
  rewrite Hlen. destruct (Z.ltb_spec (len l) 0); [unfold len in *; lia |].
  unfold len. rewrite Nat2Z.id.
  rewrite nth_error_app2, Nat.sub_diag by lia. reflexivity.
Qed.

Lemma route_ends {A : Type} (route : list A) :
  route <> [] ->
  exists start body stop,
    route = body ++ [stop] /\ nth_error route 0 = Some start.
Proof.
  intros Hne. destruct (exists_last Hne) as (body & stop & ->).
  destruct body as [| start body]; [exists stop, [], stop | exists start, (start :: body), stop];
    split; reflexivity.
Qed.

(** ** Route compressor: order and degenerate ceilings *)

(** X1. Degenerate ceilings.  A ceiling of 1 on a longer route divides by
    zero; a ceiling of zero or less returns the last coordinate alone (more
    than the ceiling allows), and fails on the empty route when negative. *)
Theorem downsample_degenerate_ceilings {A : Type} :
  (forall points : list A,
     1 < len points -> downsample_points points 1 = Raise ZeroDivisionError) /\
  (forall (body : list A) (x : A) (max_points : Z),
     max_points <= 0 -> downsample_points (body ++ [x]) max_points = Ok [x]) /\
  (forall max_points : Z,
     max_points < 0 -> downsample_points (@nil A) max_points = Raise IndexError).
Proof.
  split; [| split].
  - intros points Hlen. unfold downsample_points.
    destruct (Z.leb_spec (len points) 1); [lia | reflexivity].
  - intros body x max_points Hmax. unfold downsample_points.
    assert (Hlen : len (body ++ [x]) = len body + 1)
      by (unfold len; rewrite length_app; cbn; lia).
    assert (Hbody : 0 <= len body) by (unfold len; lia).
    destruct (Z.leb_spec (len (body ++ [x])) max_points); [lia |].
    unfold py_truediv. destruct (Z.eqb_spec (max_points - 1) 0); [lia |].
    cbn [bind]. unfold range.
    replace (Z.to_nat (max_points - 1)) with 0%nat by lia.
    cbn [seq map comprehension bind app].
    destruct (getitem_in_range (body ++ [x]) (len (body ++ [x]) - 1))
      as (a & Hget & Hnth); [lia |].
    rewrite Hget. cbn [bind]. rewrite Hlen in Hnth.
    replace (Z.to_nat (len body + 1 - 1)) with (length body + 0)%nat in Hnth
      by (unfold len; lia).
    rewrite nth_error_app2, Nat.add_comm, Nat.add_sub in Hnth by lia.
    cbn in Hnth. congruence.
  - intros max_points Hmax. unfold downsample_points.
    change (len (@nil A)) with 0.
    destruct (Z.leb_spec 0 max_points); [lia |].
    unfold py_truediv. destruct (Z.eqb_spec (max_points - 1) 0); [lia |].
    cbn [bind]. unfold range.
    replace (Z.to_nat (max_points - 1)) with 0%nat by lia.
    reflexivity.
Qed.

Lemma map_pred_sorted (idxs : list nat) :
  StronglySorted lt idxs -> Forall (fun j => 1 <= j)%nat idxs ->
  StronglySorted lt (map Nat.pred idxs).
Proof.
  induction 1 as [| i idxs Hs IH Hall]; intros Hpos; [constructor |].
  inversion Hpos as [| ? ? Hi Hpos']; subst. cbn [map]. constructor; [auto |].
  rewrite List.Forall_map. rewrite List.Forall_forall in Hall, Hpos' |- *.
  intros j Hj. specialize (Hall j Hj). specialize (Hpos' j Hj). lia.
Qed.

Lemma map_nth_error_cons {A : Type} (x : A) (l : list A) (idxs : list nat) :
  Forall (fun j => 1 <= j)%nat idxs ->
  map (nth_error (x :: l)) idxs = map (nth_error l) (map Nat.pred idxs).
Proof.
  induction 1 as [| i idxs Hi _ IH]; [reflexivity |].
  cbn [map]. rewrite IH. f_equal. destruct i; [lia | reflexivity].
Qed.

(** The elements at strictly increasing positions form a subsequence. *)
Lemma selection_sublist {A : Type} (l : list A) :
  forall (idxs : list nat) (sel : list A),
    StronglySorted lt idxs -> map Some sel = map (nth_error l) idxs ->
    sublist sel l.
Proof.
  induction l as [| x l IH]; intros idxs sel Hs Hmap.
  - destruct idxs as [| i idxs], sel as [| a sel]; try discriminate; [constructor |].
    cbn in Hmap. now destruct i.
  - destruct idxs as [| i idxs], sel as [| a sel]; try discriminate;
      [apply sublist_nil_l |].
    inversion Hs as [| ? ? Hs' Hall]; subst.
    destruct i as [| i].
    + cbn [map nth_error] in Hmap. injection Hmap as <- Hmap.
      assert (Hpos : Forall (fun j => 1 <= j)%nat idxs)
        by (eapply List.Forall_impl; [| exact Hall]; cbn; intros; lia).
      rewrite map_nth_error_cons in Hmap by exact Hpos.
      constructor. apply (IH (map Nat.pred idxs)); [| exact Hmap].
      now apply map_pred_sorted.
    + assert (Hpos : Forall (fun j => 1 <= j)%nat (S i :: idxs)).
      { constructor; [lia |].
        eapply List.Forall_impl; [| exact Hall]; cbn; intros; lia. }
      rewrite map_nth_error_cons in Hmap by exact Hpos.
      constructor. apply (IH (map Nat.pred (S i :: idxs))); [| exact Hmap].
      now apply map_pred_sorted.
Qed.

Lemma seq_map_sorted (f : nat -> nat) (k start : nat) :
  (forall i, (start <= i)%nat -> (S i < start + k)%nat -> (f i < f (S i))%nat) ->
  StronglySorted lt (map f (seq start k)).
Proof.
  revert start. induction k as [| k IH]; intros start Hf; [constructor |].
  cbn [seq map]. constructor.
  - apply IH. intros i Hi1 Hi2. apply Hf; lia.
  - rewrite List.Forall_map, List.Forall_forall. intros j Hj. apply in_seq in Hj.
    assert (Hmono : forall d, (start + S d < start + S k)%nat ->
              (f start < f (start + S d))%nat).
    { induction d as [| d IHd]; intros Hd.
      - replace (start + 1)%nat with (S start) by lia. apply Hf; lia.
      - transitivity (f (start + S d)%nat); [apply IHd; lia |].
        replace (start + S (S d))%nat with (S (start + S d)) by lia.
        apply Hf; lia. }
    replace j with (start + S (j - S start))%nat by lia. apply Hmono. lia.
Qed.

Lemma StronglySorted_snoc (l : list nat) (x : nat) :
  StronglySorted lt l -> Forall (fun j => j < x)%nat l ->
  StronglySorted lt (l ++ [x]).
Proof.
  induction 1 as [| a l Hs IH Hall]; intros Hlt; cbn [app].
  - repeat constructor.
  - inversion Hlt; subst. constructor; [auto |].
    apply List.Forall_app. split; [exact Hall | now repeat constructor].
Qed.

Lemma spec_indices_500_sorted (n : Z) :
  500 < n ->
  StronglySorted lt (map Z.to_nat (spec_indices n 500)).
Proof.
  intros Hn. unfold spec_indices. change (500 - 1) with 499.
  rewrite map_app. cbn [map]. apply StronglySorted_snoc.
  - unfold range. rewrite !map_map. apply seq_map_sorted. intros i _ Hi.
    change (Z.to_nat 499) with 499%nat in Hi.
    apply Z2Nat.inj_lt.
    + apply Z.div_pos; [| lia]. apply Z.mul_nonneg_nonneg; lia.
    + apply Z.div_pos; [| lia]. apply Z.mul_nonneg_nonneg; lia.
    + replace (Z.of_nat (S i) * (n - 1))
        with (Z.of_nat i * (n - 1) + (n - 1)) by lia.
      assert (H499 : Z.of_nat i * (n - 1) / 499 + 1
                     = (Z.of_nat i * (n - 1) + 1 * 499) / 499)
        by (rewrite Z.div_add by lia; reflexivity).
      assert (Hmono : (Z.of_nat i * (n - 1) + 1 * 499) / 499
                      <= (Z.of_nat i * (n - 1) + (n - 1)) / 499)
        by (apply Z.div_le_mono; lia).
      lia.
  - rewrite !List.Forall_map, List.Forall_forall. intros i Hi. apply in_range in Hi.
    apply Z2Nat.inj_lt.
    + apply Z.div_pos; [| lia]. apply Z.mul_nonneg_nonneg; lia.
    + lia.
    + apply Z.div_lt_upper_bound; [lia |].
      assert (i * (n - 1) <= 498 * (n - 1))
        by (apply Z.mul_le_mono_nonneg_r; lia).
      lia.
Qed.

(** X2. What the compressor sends is a subsequence of the route: the selected
    coordinates are the route's own, each taken once, in the order of the
    route.  Compressing the result again changes nothing. *)
Theorem compressor_takes_subsequence {A : Type} (points : list A) :
  len points <= 2 ^ 40 ->
  exists selected,
    downsample_points points 500 = Ok selected /\
    sublist selected points /\
    downsample_points selected 500 = Ok selected.
Proof.
  intros Hlen. destruct (downsample_500_selects_evenly points Hlen) as [Hle Hgt].
  destruct (Z.le_gt_cases (len points) 500) as [H | H].
  - exists points. rewrite (Hle H). repeat split; reflexivity.
  - destruct (Hgt ltac:(lia)) as (selected & Hd & Hsel & Hmap & _).
    exists selected. split; [exact Hd |]. split.
    + apply (selection_sublist points (map Z.to_nat (spec_indices (len points) 500)));
        [apply spec_indices_500_sorted; lia |].
      now rewrite map_map.
    + unfold downsample_points. rewrite Hsel. reflexivity.
Qed.

Lemma compressor_takes_subsequence_witness :
  exists selected,
    downsample_points (range 600) 500 = Ok selected /\
    sublist selected (range 600) /\
    downsample_points selected 500 = Ok selected.
Proof.
  apply (compressor_takes_subsequence (range 600)). vm_compute. discriminate.
Defined.

(** ** Distance from a route: empty routes, short routes, [nan] *)

Section DistanceEdges.
Context {M : PyMath}.

(** X3. The distance to an empty route is [inf].  Whatever the route, a
    returned distance is a number ([nan] distances to single vertices are
    passed over): it is [inf] or the distance to a sampled vertex, and no
    sampled vertex is strictly nearer. *)
Theorem distance_from_route_result (la lo : float) :
  distance_from_route la lo [] = Ok finf /\
  forall (route : list (float * float)) (d : float),
    distance_from_route la lo route = Ok d ->
    is_nan d = false /\
    (d = finf \/
     exists q, sampled_vertex route (stride (len route)) q /\
               haversine_distance la lo (fst q) (snd q) = Ok d) /\
    (forall q, sampled_vertex route (stride (len route)) q ->
       exists dq, haversine_distance la lo (fst q) (snd q) = Ok dq /\
                  flt dq d = false).
Proof.
  split; [reflexivity |]. intros route d Hd.
  assert (Hk : 0 < stride (len route)) by (unfold stride; lia).
  pose proof (fun q => slice_step_sampled route (stride (len route)) q Hk) as Hs.
  unfold distance_from_route in Hd. fold (stride (len route)) in Hd.
  apply min_dist_loop_result in Hd as (Hnan & Hatt & _ & Hall); [| reflexivity].
  split; [exact Hnan |]. split.
  - destruct Hatt as [-> | (q & Hq & Hdq)]; [now left |].
    right. exists q. split; [now apply Hs | exact Hdq].
  - intros q Hq. apply Hall. now apply Hs.
Qed.

Lemma slice_from_all {A : Type} (l : list A) : slice_from 0 1 l = l.
Proof. induction l as [| a l IH]; [reflexivity |]. cbn. now rewrite IH. Qed.

(** X4. On a route of fewer than 200 coordinates the stride is 1: every
    vertex is measured, and none is strictly nearer than the result. *)
Theorem distance_from_route_short_route (la lo : float)
    (route : list (float * float)) (d : float) :
  len route < 200 ->
  distance_from_route la lo route = Ok d ->
  forall q, In q route ->
    exists dq, haversine_distance la lo (fst q) (snd q) = Ok dq /\
               flt dq d = false.
Proof.
  intros Hlen Hd q Hq.
  assert (Hstride : Z.max 1 (len route / 100) = 1).
  { assert (len route / 100 <= 1); [| lia].
    apply Z.lt_succ_r. apply Z.div_lt_upper_bound; lia. }
  unfold distance_from_route in Hd. rewrite Hstride in Hd.
  unfold slice_step in Hd. change (Z.to_nat 1) with 1%nat in Hd.
  rewrite slice_from_all in Hd.
  apply min_dist_loop_result in Hd as (_ & _ & _ & Hall); [| reflexivity].
  now apply Hall.
Qed.
End DistanceEdges.

Lemma distance_from_route_short_route_witness :
  exists dq,
    @haversine_distance small_angle_math (float_of_Z 30) (float_of_Z (-97))
      (float_of_Z 30) (float_of_Z (-97)) = Ok dq /\
    flt dq fzero = false.
Proof.
  apply (@distance_from_route_short_route small_angle_math
           (float_of_Z 30) (float_of_Z (-97)) austin_route fzero)
    with (q := (float_of_Z 30, float_of_Z (-97))).
  - vm_compute. reflexivity.
  - vm_compute. reflexivity.
  - left. reflexivity.
Defined.

(** ** Result assembler: what a result carries *)

Lemma comprehension_Forall2 {A B : Type} (f : A -> result B) (l : list A)
    (bs : list B) :
  comprehension f l = Ok bs -> Forall2 (fun a b => f a = Ok b) l bs.
Proof.
  revert bs. induction l as [| a l IH]; intros bs.
  - intros [= <-]. constructor.
  - cbn [comprehension]. destruct (f a) as [b | e] eqn:Ea; [| discriminate].
    cbn [bind]. destruct (comprehension f l) as [bs' | e]; [| discriminate].
    cbn [bind]. intros [= <-]. constructor; [exact Ea | now apply IH].
Qed.

Lemma Forall2_comprehension {A B : Type} (f : A -> result B) (l : list A)
    (bs : list B) :
  Forall2 (fun a b => f a = Ok b) l bs -> comprehension f l = Ok bs.
Proof.
  induction 1 as [| a b l bs Ha _ IH]; [reflexivity |].
  cbn [comprehension]. rewrite Ha. cbn [bind]. rewrite IH. reflexivity.
Qed.

(** A comprehension raises what its first failing element raises. *)
Lemma comprehension_raises {A B : Type} (f : A -> result B) (l : list A) (e : exn) :
  comprehension f l = Raise e <->
  exists before a after,
    l = before ++ a :: after /\
    Forall (fun x => exists b, f x = Ok b) before /\
    f a = Raise e.
Proof.
  split.
  - induction l as [| x l IH]; [discriminate |]. cbn [comprehension].
    destruct (f x) as [b | e'] eqn:Ex; cbn [bind].
    + destruct (comprehension f l) as [bs | e']; cbn [bind]; [discriminate |].
      intros [= ->]. destruct (IH eq_refl) as (before & a & after & -> & Hb & Ha).
      exists (x :: before), a, after. split; [reflexivity |].
      split; [constructor; eauto | exact Ha].
    + intros [= ->]. exists [], x, l. split; [reflexivity |].
      split; [constructor | exact Ex].
  - intros (before & a & after & -> & Hb & Ha).
    induction Hb as [| x before (b & Hx) _ IH].
    + cbn [app comprehension]. rewrite Ha. reflexivity.
    + cbn [app comprehension]. rewrite Hx. cbn [bind]. rewrite IH. reflexivity.
Qed.

Section Assembler.
Context {M : PyMath} {F : PyFormat}.

Lemma assemble_place_copies (route_points : option (list (float * float)))
    (place : Place) (r : PlaceResult) :
  assemble_place route_points place = Ok r ->
  name r = default "Unknown"%string (displayName_text place) /\
  address r = default ""%string (formattedAddress place) /\
  rating r = place_rating place /\
  rating_count r = userRatingCount place /\
  lat r = match place_location place with Some l => loc_latitude l | None => None end /\
  lon r = match place_location place with Some l => loc_longitude l | None => None end /\
  types r = String.concat ", " (firstn 3 (default [] (place_types place))) /\
  price_raw r = default ""%string (priceLevel place) /\
  price_level r = Some (price_display_of (default ""%string (priceLevel place))) /\
  open_now r = openNow place.
Proof.
  assemble_cases route_points place;
    try discriminate; intros [= <-]; cbn; repeat split; reflexivity.
Qed.

(** The loop body raises only through [distance_from_route], which it calls
    for a place with non-zero latitude and longitude when a non-empty route
    is given. *)
Lemma assemble_place_raises (route_points : option (list (float * float)))
    (place : Place) (e : exn) :
  assemble_place route_points place = Raise e <->
  exists pts la lo,
    route_points = Some pts /\ pts <> [] /\
    place_location place
    = Some {| loc_latitude := Some la; loc_longitude := Some lo |} /\
    float_truthy la = true /\ float_truthy lo = true /\
    distance_from_route la lo pts = Raise e.
Proof.
  split.
  - unfold assemble_place.
    destruct route_points as [pts |],
      (place_location place) as [[[la |] [lo |]] |] eqn:Hloc;
      cbn [loc_latitude loc_longitude bind]; try discriminate.
    destruct (truthy_route (Some pts) && float_truthy la && float_truthy lo)
      eqn:Eguard; [| discriminate].
    destruct (distance_from_route la lo pts) as [d | e'] eqn:Edist;
      cbn [bind]; [discriminate |].
    intros [= ->]. exists pts, la, lo.
    apply andb_true_iff in Eguard as [Eguard Hlo].
    apply andb_true_iff in Eguard as [Hpts Hla].
    split; [reflexivity |]. split; [now destruct pts |]. auto.
  - intros (pts & la & lo & -> & Hpts & Hloc & Hla & Hlo & Hd).
    unfold assemble_place. rewrite Hloc. cbn [loc_latitude loc_longitude].
    destruct pts as [| q pts]; [contradiction |].
    cbn [truthy_route]. rewrite Hla, Hlo. cbn [andb]. rewrite Hd. reflexivity.
Qed.

(** X5. The search is all or nothing.  It returns a list exactly when the
    request succeeded and every element of the response could be
    assembled, and the list then holds one result per element, in the
    order of the response.  Otherwise it raises and returns no result at
    all: either the request failed, or [distance_from_route] raised for an
    element with non-zero latitude and longitude against the non-empty
    route, and every element before that one had been assembled. *)
Theorem search_all_or_nothing (response : result (list Place))
    (route_points : option (list (float * float))) :
  (forall results,
     search_along_route response route_points = Ok results <->
     exists places,
       response = Ok places /\
       Forall2 (fun place r => assemble_place route_points place = Ok r)
         places results) /\
  (forall e,
     search_along_route response route_points = Raise e <->
     response = Raise e \/
     exists before place after pts la lo,
       response = Ok (before ++ place :: after) /\
       Forall (fun p => exists r, assemble_place route_points p = Ok r) before /\
       route_points = Some pts /\ pts <> [] /\
       place_location place
       = Some {| loc_latitude := Some la; loc_longitude := Some lo |} /\
       float_truthy la = true /\ float_truthy lo = true /\
       distance_from_route la lo pts = Raise e).
Proof.
  unfold search_along_route. destruct response as [places | e0]; cbn [bind]; split.
  - intros results. split.
    + intros Hres. exists places. split; [reflexivity |].
      now apply comprehension_Forall2.
    + intros (places' & [= <-] & Hall). now apply Forall2_comprehension.
  - intros e. rewrite comprehension_raises. split.
    + intros (before & place & after & -> & Hbefore & Hplace).
      apply assemble_place_raises in Hplace
        as (pts & la & lo & Hroute & Hpts & Hloc & Hla & Hlo & Hd).
      right. exists before, place, after, pts, la, lo. auto 10.
    + intros [[=] | (before & place & after & pts & la & lo
                     & [= ->] & Hbefore & Hroute & Hpts & Hloc & Hla & Hlo & Hd)].
      exists before, place, after. split; [reflexivity |].
      split; [exact Hbefore |].
      apply assemble_place_raises. exists pts, la, lo. auto 10.
  - intros results. split; [discriminate |].
    intros (places & [=] & _).
  - intros e. split.
    + intros [= ->]. now left.
    + intros [[= ->] | (before & place & after & pts & la & lo & [=] & _)].
      reflexivity.
Qed.

(** X6. The distance fields of a result agree with each other: either all three
    are absent, or [distance_m] is the distance from the place's coordinate
    to the non-empty route, and then [distance_mi] and the display string
    are both present ([distance_m / 1609.34], formatted with one decimal
    and the unit) or, for the distance [0.0], both absent. *)
Theorem assemble_place_distance_fields
    (route_points : option (list (float * float)))
    (place : Place) (r : PlaceResult) :
  assemble_place route_points place = Ok r ->
  (distance_m r = None /\ distance_mi r = None /\
   distance_display r = EmptyString) \/
  (exists pts la lo d,
     route_points = Some pts /\ pts <> [] /\
     lat r = Some la /\ float_truthy la = true /\
     lon r = Some lo /\ float_truthy lo = true /\
     distance_from_route la lo pts = Ok d /\
     distance_m r = Some d /\
     if float_truthy d
     then distance_mi r = Some (fdiv d meters_per_mile) /\
          distance_display r
          = (format_1f (fdiv d meters_per_mile) ++ " mi")%string
     else distance_mi r = None /\ distance_display r = EmptyString).
Proof.
  assemble_cases route_points place; try discriminate; intros [= <-]; cbn;
    try (left; repeat split; reflexivity).
  right. exists pts, la, lo, d.
  apply andb_prop in Eguard as [Eguard Hlo].
  apply andb_prop in Eguard as [Hpts Hla].
  split; [reflexivity |]. split; [now destruct pts |].
  repeat (split; [first [reflexivity | assumption] |]).
  destruct (float_truthy d); split; reflexivity.
Qed.

(** X7. Without a route, or with an empty one, the assembler cannot fail and
    no result carries a distance. *)
Theorem search_without_route (route_points : option (list (float * float)))
    (places : list Place) :
  truthy_route route_points = false ->
  exists results,
    search_along_route (Ok places) route_points = Ok results /\
    length results = length places /\
    Forall (fun r => distance_m r = None /\ distance_mi r = None /\
                     distance_display r = EmptyString) results.
Proof.
  intros Hroute. unfold search_along_route. cbn [bind].
  induction places as [| place places (results & Hres & Hlen & Hall)].
  - exists []. repeat split. constructor.
  - cbn [comprehension].
    assert (Hplace : exists r, assemble_place route_points place = Ok r /\
              distance_m r = None /\ distance_mi r = None /\
              distance_display r = EmptyString).
    { assemble_cases route_points place;
        try (eexists; split; [reflexivity |]; cbn; repeat split; reflexivity);
        rewrite Hroute in Eguard; discriminate. }
    destruct Hplace as (r & Hr & Hnone). rewrite Hr, Hres. cbn [bind].
    exists (r :: results). split; [reflexivity |]. split.
    + cbn. now rewrite Hlen.
    + now constructor.
Qed.

(** X8. The link of a result: the listing of the place whenever the response
    gives a non-empty identifier, whatever the coordinate; without one, a
    coordinate search when latitude and longitude are both present and not
    zero, and the empty string otherwise. *)
Theorem maps_url_policy (route_points : option (list (float * float)))
    (place : Place) (r : PlaceResult) :
  assemble_place route_points place = Ok r ->
  (forall id, place_id place = Some id -> id <> EmptyString ->
     maps_url r = ("https://www.google.com/maps/place/?q=place_id:" ++ id)%string) /\
  (truthy_string (place_id place) = false ->
     maps_url r
     = match lat r, lon r with
       | Some la, Some lo =>
           if float_truthy la && float_truthy lo
           then ("https://www.google.com/maps/search/?api=1&query="
                   ++ format_float la ++ "," ++ format_float lo)%string
           else EmptyString
       | _, _ => EmptyString
       end).
Proof.
  intros Hr. split.
  - intros id Hid Hne. revert Hr.
    assemble_cases route_points place; try discriminate; intros [= <-]; cbn;
      rewrite Hid; cbn; destruct id; try contradiction; reflexivity.
  - intros Hid. revert Hr.
    assert (Hempty : default EmptyString (place_id place) = EmptyString)
      by (destruct (place_id place) as [[| c id] |]; [reflexivity | discriminate | reflexivity]).
    assemble_cases route_points place; try discriminate; intros [= <-]; cbn;
      rewrite Hempty; reflexivity.
Qed.

Lemma price_display_of_other (price_raw : string) :
  ~ In price_raw price_codes -> price_display_of price_raw = EmptyString.
Proof.
  intros Hnot. unfold price_display_of, price_map.
  assert (Hne : forall code, In code price_codes -> code <> price_raw)
    by (intros code Hin ->; contradiction).
  rewrite !lookup_insert_ne by (apply Hne; simpl; tauto).
  now rewrite lookup_empty.
Qed.

(** X9. Price tiers from the response to the filter.  A place whose price code
    is absent or not one of the five known codes is never dropped by the
    price filter.  A place of the free tier is dropped by every selection
    the price multiselect allows, since "Free" is not among its options. *)
Theorem price_tier_through_filter (route_points : option (list (float * float)))
    (place : Place) (r : PlaceResult) :
  assemble_place route_points place = Ok r ->
  (~ In (default EmptyString (priceLevel place)) price_codes ->
   forall min_rating max_distance_mi price_filter open_now_only,
     passes_filters min_rating price_filter open_now_only max_distance_mi r
     = passes_filters min_rating [] open_now_only max_distance_mi r) /\
  (priceLevel place = Some "PRICE_LEVEL_FREE"%string ->
   forall min_rating max_distance_mi price_filter open_now_only,
     price_filter <> [] -> incl price_filter price_options ->
     passes_filters min_rating price_filter open_now_only max_distance_mi r
     = false).
Proof.
  intros Hr. apply assemble_place_copies in Hr
    as (_ & _ & _ & _ & _ & _ & _ & _ & Hprice & _).
  split.
  - intros Hother min_rating max_distance_mi price_filter open_now_only.
    rewrite (price_display_of_other _ Hother) in Hprice.
    unfold passes_filters. rewrite Hprice. cbn [truthy_string].
    now rewrite andb_false_r.
  - intros Hfree min_rating max_distance_mi price_filter open_now_only Hset Hincl.
    assert (Htier : price_level r = Some "Free"%string)
      by (rewrite Hprice, Hfree; reflexivity).
    unfold passes_filters. rewrite Htier.
    assert (Hnot : not_in (Some "Free"%string) price_filter = true).
    { apply not_in_spec. intros Hin. apply Hincl in Hin.
      cbn in Hin. intuition discriminate. }
    assert (Hactive : negb (is_empty price_filter) = true)
      by (destruct price_filter; [contradiction | reflexivity]).
    rewrite Hnot, Hactive. cbn [andb truthy_string].
    repeat match goal with |- (if ?c then false else _) = false =>
      destruct c; [reflexivity |] end.
    reflexivity.
Qed.
End Assembler.

(** Two places searched along a route of one coordinate: the first, on the
    route, is assembled with the distance [0.0]; the second is almost the
    antipode of the route, its distance is a domain error, and the search
    returns nothing. *)
Lemma search_all_or_nothing_witness :
  (exists r,
     @assemble_place libm_at_antipodes integer_part_format (Some [antipode])
       (place_at (Some "there"%string) (Some (fst antipode)) (Some (snd antipode)))
     = Ok r /\
     distance_m r = Some fzero) /\
  @search_along_route libm_at_antipodes integer_part_format
    (Ok [place_at (Some "there"%string) (Some (fst antipode)) (Some (snd antipode));
         place_at (Some "here"%string) (Some (fst azores)) (Some (snd azores))])
    (Some [antipode])
  = Raise ValueError.
Proof.
  split.
  - eexists. split; vm_compute; reflexivity.
  - apply (@search_all_or_nothing libm_at_antipodes integer_part_format).
    right.
    exists [place_at (Some "there"%string) (Some (fst antipode)) (Some (snd antipode))],
      (place_at (Some "here"%string) (Some (fst azores)) (Some (snd azores))),
      [], [antipode], (fst azores), (snd azores).
    split; [reflexivity |].
    split; [constructor; [eexists; vm_compute; reflexivity | constructor] |].
    split; [reflexivity |]. split; [discriminate |].
    split; [reflexivity |].
    split; [vm_compute; reflexivity |]. split; vm_compute; reflexivity.
Defined.

Lemma assemble_place_distance_fields_witness :
  exists r d,
    @assemble_place small_angle_math integer_part_format (Some austin_route)
      (place_at None (Some (float_of_Z 32)) (Some (float_of_Z (-97)))) = Ok r /\
    distance_m r = Some d.
Proof.
  destruct (@assemble_place small_angle_math integer_part_format (Some austin_route)
              (place_at None (Some (float_of_Z 32)) (Some (float_of_Z (-97)))))
    as [r | e] eqn:E; [| vm_compute in E; discriminate E].
  destruct (assemble_place_distance_fields _ _ _ E)
    as [(Hnone & _) | (pts & la & lo & d & _ & _ & _ & _ & _ & _ & _ & Hm & _)].
  - exfalso. vm_compute in E. injection E as <-. discriminate Hnone.
  - exists r, d. split; [reflexivity | exact Hm].
Defined.

Lemma search_without_route_witness :
  exists results,
    @search_along_route small_angle_math integer_part_format
      (Ok [place_at None (Some fone) (Some fone)]) None = Ok results /\
    length results = 1%nat /\
    Forall (fun r => distance_m r = None /\ distance_mi r = None /\
                     distance_display r = EmptyString) results.
Proof.
  apply (@search_without_route small_angle_math integer_part_format None
           [place_at None (Some fone) (Some fone)]).
  reflexivity.
Defined.

Lemma maps_url_policy_witness :
  exists r,
    @assemble_place small_angle_math integer_part_format None
      (place_at (Some "abc"%string) None None) = Ok r /\
    maps_url r = "https://www.google.com/maps/place/?q=place_id:abc"%string.
Proof.
  eexists. split; [reflexivity |].
  refine (proj1 (@maps_url_policy small_angle_math integer_part_format None
                   (place_at (Some "abc"%string) None None) _ eq_refl)
            "abc"%string eq_refl _).
  discriminate.
Defined.

Lemma price_tier_through_filter_witness :
  exists r,
    @assemble_place small_angle_math integer_part_format None free_place = Ok r /\
    passes_filters fzero ["$"%string] false (float_of_Z 5) r = false.
Proof.
  eexists. split; [reflexivity |].
  refine (proj2 (@price_tier_through_filter small_angle_math integer_part_format
                   None free_place _ eq_refl)
            eq_refl fzero (float_of_Z 5) ["$"%string] false _ _).
  - discriminate.
  - intros tier [<- | []]. left. reflexivity.
Defined.

(** ** Filter pipeline: the four criteria *)

Lemma not_in_false (tier : string) (price_filter : list string) :
  not_in (Some tier) price_filter = false <-> In tier price_filter.
Proof.
  unfold not_in. rewrite negb_false_iff. split.
  - intros E. apply existsb_exists in E as (x & Hin & Heq).
    apply String.eqb_eq in Heq. now subst x.
  - intros Hin. apply existsb_exists. exists tier. split; [exact Hin |].
    apply String.eqb_refl.
Qed.

Lemma continue_chain (a b c d e : bool) :
  (if a then false else if b then false else if c then false
   else if d then false else if e then false else true) = true
  <-> a = false /\ b = false /\ c = false /\ d = false /\ e = false.
Proof. destruct a, b, c, d, e; simpl; intuition discriminate. Qed.

Lemma passes_filters_criteria (min_rating max_distance_mi : float)
    (price_filter : list string) (open_now_only : bool) (place : PlaceResult) :
  passes_filters min_rating price_filter open_now_only max_distance_mi place = true
  <->
  match rating place with
  | Some r => if float_truthy r then flt r min_rating = false
              else flt fzero min_rating = false
  | None => flt fzero min_rating = false
  end /\
  (price_filter = [] \/ truthy_string (price_level place) = false \/
   exists tier, price_level place = Some tier /\ In tier price_filter) /\
  (open_now_only = true -> open_now place = Some true) /\
  match distance_mi place with
  | Some d => float_truthy d = true -> flt max_distance_mi d = false
  | None => True
  end.
Proof.
  unfold passes_filters. rewrite continue_chain.
  assert (Hrating :
    (truthy_float (rating place)
       && match rating place with Some r => flt r min_rating | None => false end = false
     /\ flt fzero min_rating && negb (truthy_float (rating place)) = false)
    <-> match rating place with
        | Some r => if float_truthy r then flt r min_rating = false
                    else flt fzero min_rating = false
        | None => flt fzero min_rating = false
        end).
  { destruct (rating place) as [r |]; cbn [truthy_float].
    - destruct (float_truthy r), (flt r min_rating), (flt fzero min_rating);
        simpl; intuition discriminate.
    - destruct (flt fzero min_rating); simpl; intuition discriminate. }
  assert (Hprice :
    negb (is_empty price_filter) && not_in (price_level place) price_filter
      && truthy_string (price_level place) = false
    <-> (price_filter = [] \/ truthy_string (price_level place) = false \/
         exists tier, price_level place = Some tier /\ In tier price_filter)).
  { destruct price_filter as [| t0 price_filter]; [simpl; intuition |].
    cbn [is_empty negb andb].
    destruct (price_level place) as [tier |].
    - destruct (not_in (Some tier) (t0 :: price_filter)) eqn:E.
      + cbn [andb]. split; [auto |].
        intros [H | [H | (tier' & [= <-] & Hin)]]; [discriminate | exact H |].
        apply not_in_false in Hin. congruence.
      + cbn [andb]. split; [| reflexivity]. intros _. right. right.
        exists tier. split; [reflexivity |]. now apply not_in_false.
    - simpl. intuition. }
  assert (Hopen :
    open_now_only && negb (is_True (open_now place)) = false
    <-> (open_now_only = true -> open_now place = Some true)).
  { destruct open_now_only; [| simpl; intuition discriminate].
    destruct (open_now place) as [[] |]; simpl;
      (split; [intros H _ | intros H; specialize (H eq_refl)]; congruence). }
  assert (Hdist :
    truthy_float (distance_mi place)
      && match distance_mi place with
         | Some d => flt max_distance_mi d
         | None => false
         end = false
    <-> match distance_mi place with
        | Some d => float_truthy d = true -> flt max_distance_mi d = false
        | None => True
        end).
  { destruct (distance_mi place) as [d |]; cbn [truthy_float]; [| simpl; intuition].
    destruct (float_truthy d), (flt max_distance_mi d); simpl;
      (split; [intros H H' | intros H; try specialize (H eq_refl)]; congruence). }
  rewrite <- Hrating, <- Hprice, <- Hopen, <- Hdist. tauto.
Qed.

Lemma flt_fle_trans (a b c : float) :
  flt a b = true -> fle b c = true -> flt a c = true.
Proof.
  unfold flt, fle, SFltb, SFleb, SFcompare.
  destruct a as [sa | sa | | sa ma ea], b as [sb | sb | | sb mb eb],
    c as [sc | sc | | sc mc ec];
    try destruct sa; try destruct sb; try destruct sc;
    try discriminate; try reflexivity;
    intros H1 H2; cmp_cases; simpl in *;
    try discriminate; try reflexivity; try lia.
Qed.

Lemma fle_flt_trans (a b c : float) :
  fle a b = true -> flt b c = true -> flt a c = true.
Proof.
  unfold flt, fle, SFltb, SFleb, SFcompare.
  destruct a as [sa | sa | | sa ma ea], b as [sb | sb | | sb mb eb],
    c as [sc | sc | | sc mc ec];
    try destruct sa; try destruct sb; try destruct sc;
    try discriminate; try reflexivity;
    intros H1 H2; cmp_cases; simpl in *;
    try discriminate; try reflexivity; try lia.
Qed.

(** X10. The filter loop keeps a place exactly when it meets the four criteria:
    a rating that is not below the minimum (a missing rating, or the rating
    [0.0], only when the minimum is not above zero); no price tier, or an
    allowed one, when a price filter is set; known to be open when that is
    asked for; and a distance, when known and not zero, that does not exceed
    the maximum. *)
Theorem filter_results_criteria (min_rating max_distance_mi : float)
    (price_filter : list string) (open_now_only : bool)
    (results : list PlaceResult) (place : PlaceResult) :
  In place (filter_results min_rating price_filter open_now_only max_distance_mi results)
  <->
  In place results /\
  match rating place with
  | Some r => if float_truthy r then flt r min_rating = false
              else flt fzero min_rating = false
  | None => flt fzero min_rating = false
  end /\
  (price_filter = [] \/ truthy_string (price_level place) = false \/
   exists tier, price_level place = Some tier /\ In tier price_filter) /\
  (open_now_only = true -> open_now place = Some true) /\
  match distance_mi place with
  | Some d => float_truthy d = true -> flt max_distance_mi d = false
  | None => True
  end.
Proof.
  unfold filter_results. rewrite filter_In.
  apply and_iff_compat_l. apply passes_filters_criteria.
Qed.

Lemma filter_sublist {A : Type} (f g : A -> bool) (l : list A) :
  (forall x, In x l -> f x = true -> g x = true) ->
  sublist (List.filter f l) (List.filter g l).
Proof.
  induction l as [| a l IH]; intros Hfg; [constructor |].
  assert (IH' : sublist (List.filter f l) (List.filter g l))
    by (apply IH; intros x Hx; apply Hfg; now right).
  cbn [List.filter]. destruct (f a) eqn:Ef.
  - rewrite (Hfg a (or_introl eq_refl) Ef). now constructor.
  - destruct (g a); [now constructor | exact IH'].
Qed.

(** X11. Tightening the sliders never adds a place: with a minimum rating that
    is not lower, a maximum distance that is not higher, and the open-now
    box ticked if it was before, what the filter keeps is a subsequence of
    what it kept before. *)
Theorem filter_results_tightening (min1 min2 max1 max2 : float)
    (price_filter : list string) (open1 open2 : bool)
    (results : list PlaceResult) :
  fle min1 min2 = true -> fle max2 max1 = true ->
  (open1 = true -> open2 = true) ->
  sublist (filter_results min2 price_filter open2 max2 results)
          (filter_results min1 price_filter open1 max1 results).
Proof.
  intros Hmin Hmax Hopen. unfold filter_results.
  apply filter_sublist. intros place _.
  rewrite !passes_filters_criteria.
  intros (Hr & Hp & Ho & Hd). split; [| split; [exact Hp | split]].
  - assert (Hlow : forall r, flt r min2 = false -> flt r min1 = false).
    { intros r H2. destruct (flt r min1) eqn:H1; [| reflexivity].
      now rewrite (flt_fle_trans _ _ _ H1 Hmin) in H2. }
    destruct (rating place) as [r |]; [destruct (float_truthy r) |]; auto.
  - auto.
  - destruct (distance_mi place) as [d |]; [| exact I].
    intros Ht. specialize (Hd Ht).
    destruct (flt max1 d) eqn:H1; [| reflexivity].
    now rewrite (fle_flt_trans _ _ _ Hmax H1) in Hd.
Qed.

Lemma filter_results_tightening_witness :
  sublist (filter_results (float_of_Z 4) [] true (float_of_Z 2) [priced None])
          (filter_results fzero [] false (float_of_Z 5) [priced None]).
Proof.
  apply filter_results_tightening.
  - reflexivity.
  - reflexivity.
  - intros _. reflexivity.
Defined.

(** ** Text: splitting and joining *)

Lemma append_nil (b : string) : ("" ++ b = b)%string.
Proof. reflexivity. Qed.

Lemma append_cons (c : ascii) (a b : string) :
  (String c a ++ b = String c (a ++ b))%string.
Proof. reflexivity. Qed.

Lemma string_app_assoc (a b c : string) :
  ((a ++ b) ++ c = a ++ (b ++ c))%string.
Proof.
  induction a as [| x a IH]; [reflexivity |].
  rewrite !append_cons. now rewrite IH.
Qed.

Lemma string_app_nil_r (a : string) : (a ++ "" = a)%string.
Proof.
  induction a as [| x a IH]; [reflexivity |].
  rewrite append_cons. now rewrite IH.
Qed.

Lemma concat_cons (sep x y : string) (l : list string) :
  String.concat sep (x :: y :: l)
  = (x ++ sep ++ String.concat sep (y :: l))%string.
Proof. reflexivity. Qed.

(** *** [split] on a separator *)

Lemma str_split_nonempty (sep : ascii) (s : string) : str_split sep s <> [].
Proof.
  destruct s as [| c s]; [discriminate |]. cbn [str_split].
  destruct (Ascii.eqb c sep); [discriminate |].
  destruct (str_split sep s); discriminate.
Qed.

Lemma str_split_app (sep : ascii) (piece s : string) :
  all_chars (fun c => negb (Ascii.eqb c sep)) piece = true ->
  str_split sep (piece ++ s)
  = match str_split sep s with
    | p :: ps => (piece ++ p)%string :: ps
    | [] => []
    end.
Proof.
  induction piece as [| c piece IH]; intros Hfree.
  - rewrite append_nil. now destruct (str_split sep s).
  - cbn in Hfree. apply andb_prop in Hfree as [Hc Hfree].
    apply negb_true_iff in Hc. rewrite append_cons. cbn [str_split]. rewrite Hc.
    rewrite IH by exact Hfree.
    pose proof (str_split_nonempty sep s) as Hne.
    destruct (str_split sep s); [contradiction | reflexivity].
Qed.

(** Joining pieces that hold no separator and splitting again gives the
    pieces back. *)
Lemma str_split_concat (sep : ascii) (pieces : list string) :
  pieces <> [] ->
  Forall (fun piece => all_chars (fun c => negb (Ascii.eqb c sep)) piece = true) pieces ->
  str_split sep (String.concat (String sep EmptyString) pieces) = pieces.
Proof.
  intros Hne Hfree. induction Hfree as [| piece pieces Hpiece Hfree IH];
    [contradiction |].
  destruct pieces as [| piece' pieces].
  - cbn [String.concat]. rewrite <- (string_app_nil_r piece) at 1.
    rewrite str_split_app by exact Hpiece. cbn [str_split].
    now rewrite string_app_nil_r.
  - rewrite concat_cons. rewrite str_split_app by exact Hpiece.
    rewrite append_cons, append_nil. cbn [str_split]. rewrite Ascii.eqb_refl.
    rewrite IH by discriminate. now rewrite string_app_nil_r.
Qed.

(** *** [split] on whitespace *)

Section WhitespaceProperties.
Variable isspace : ascii -> bool.

Lemma words_true_nonempty (s : string) : words isspace true s <> [].
Proof.
  destruct s as [| c s]; [discriminate |]. cbn [words].
  destruct (isspace c); [discriminate |].
  destruct (words isspace true s); discriminate.
Qed.

Lemma words_rstrip (s : string) :
  forall inside, words isspace inside (rstrip isspace s) = words isspace inside s.
Proof.
  induction s as [| c s IH]; intros inside; [reflexivity |].
  cbn [rstrip]. destruct (rstrip isspace s) as [| c' kept] eqn:Hkept.
  - destruct (isspace c) eqn:Hc.
    + cbn [words]. rewrite Hc, <- (IH false). cbn [words]. reflexivity.
    + cbn [words]. rewrite Hc, <- (IH true). reflexivity.
  - cbn [words]. destruct (isspace c); rewrite <- ?IH; reflexivity.
Qed.

Lemma words_lstrip (s : string) :
  words isspace false (lstrip isspace s) = words isspace false s.
Proof.
  induction s as [| c s IH]; [reflexivity |].
  cbn [lstrip]. destruct (isspace c) eqn:Hc; [| reflexivity].
  cbn [words]. now rewrite Hc.
Qed.

(** [strip] before [split] changes nothing. *)
Lemma split_whitespace_strip (s : string) :
  split_whitespace isspace (strip isspace s) = split_whitespace isspace s.
Proof.
  unfold split_whitespace, strip. now rewrite words_rstrip, words_lstrip.
Qed.

Lemma words_pad (pad s : string) :
  all_chars isspace pad = true ->
  words isspace false (pad ++ s) = words isspace false s.
Proof.
  induction pad as [| c pad IH]; intros Hpad; [reflexivity |].
  cbn in Hpad. apply andb_prop in Hpad as [Hc Hpad].
  rewrite append_cons. cbn [words]. rewrite Hc. now apply IH.
Qed.

Lemma words_sep (sep s : string) :
  all_chars isspace sep = true -> sep <> EmptyString ->
  words isspace true (sep ++ s) = EmptyString :: words isspace false s.
Proof.
  intros Hsep Hne. destruct sep as [| c sep]; [contradiction |].
  cbn in Hsep. apply andb_prop in Hsep as [Hc Hsep].
  rewrite append_cons. cbn [words]. rewrite Hc. f_equal. now apply words_pad.
Qed.

Lemma words_token (token s : string) :
  all_chars (fun c => negb (isspace c)) token = true ->
  words isspace true (token ++ s)
  = match words isspace true s with
    | word :: rest => (token ++ word)%string :: rest
    | [] => []
    end.
Proof.
  induction token as [| c token IH]; intros Hfree.
  - rewrite append_nil. now destruct (words isspace true s).
  - cbn in Hfree. apply andb_prop in Hfree as [Hc Hfree].
    apply negb_true_iff in Hc. rewrite append_cons. cbn [words]. rewrite Hc.
    rewrite IH by exact Hfree.
    pose proof (words_true_nonempty s) as Hne.
    destruct (words isspace true s); [contradiction | reflexivity].
Qed.

Lemma words_token_start (token s : string) :
  all_chars (fun c => negb (isspace c)) token = true -> token <> EmptyString ->
  words isspace false (token ++ s) = words isspace true (token ++ s).
Proof.
  intros Hfree Hne. destruct token as [| c token]; [contradiction |].
  cbn in Hfree. apply andb_prop in Hfree as [Hc _].
  apply negb_true_iff in Hc. rewrite append_cons. cbn [words]. now rewrite Hc.
Qed.

Lemma words_true_pad (pad : string) :
  all_chars isspace pad = true -> words isspace true pad = [EmptyString].
Proof.
  intros Hpad. destruct pad as [| c pad]; [reflexivity |].
  rewrite <- (string_app_nil_r (String c pad)).
  rewrite words_sep by (auto; discriminate). reflexivity.
Qed.

(** Words joined by whitespace, with whitespace around them, are what
    [split] gives back. *)
Lemma split_whitespace_concat (pad_l sep pad_r : string) (tokens : list string) :
  all_chars isspace pad_l = true -> all_chars isspace pad_r = true ->
  all_chars isspace sep = true -> sep <> EmptyString ->
  Forall (fun token => token <> EmptyString /\
            all_chars (fun c => negb (isspace c)) token = true) tokens ->
  split_whitespace isspace (pad_l ++ String.concat sep tokens ++ pad_r) = tokens.
Proof.
  intros Hl Hr Hsep Hne Htokens. unfold split_whitespace.
  rewrite words_pad by exact Hl.
  induction Htokens as [| token tokens [Htok Hfree] Htokens IH].
  - cbn [String.concat]. rewrite append_nil.
    rewrite <- (string_app_nil_r pad_r). now rewrite words_pad.
  - destruct tokens as [| token' tokens].
    + cbn [String.concat]. rewrite words_token_start, words_token by auto.
      rewrite words_true_pad by exact Hr. now rewrite string_app_nil_r.
    + rewrite concat_cons, !string_app_assoc.
      rewrite words_token_start, words_token by auto.
      rewrite words_sep by auto. rewrite IH. now rewrite string_app_nil_r.
Qed.
End WhitespaceProperties.

(** Splitting and joining again gives the text back, and no piece holds
    the separator. *)
Lemma str_split_pieces (sep : ascii) (s : string) :
  Forall (fun piece => all_chars (fun c => negb (Ascii.eqb c sep)) piece = true)
    (str_split sep s) /\
  String.concat (String sep EmptyString) (str_split sep s) = s.
Proof.
  induction s as [| c s IH]; [split; [repeat constructor | reflexivity] |].
  destruct IH as [IHfree IHjoin].
  pose proof (str_split_nonempty sep s) as Hne.
  cbn [str_split]. destruct (Ascii.eqb_spec c sep) as [-> | Hc].
  - split; [now constructor |].
    destruct (str_split sep s) as [| p ps]; [contradiction |].
    rewrite concat_cons, IHjoin. reflexivity.
  - destruct (str_split sep s) as [| p ps]; [contradiction |].
    inversion IHfree as [| ? ? Hp Hps]; subst. split.
    + constructor; [| exact Hps]. cbn [all_chars]. rewrite Hp.
      now destruct (Ascii.eqb_spec c sep).
    + destruct ps as [| p' ps].
      * reflexivity.
      * rewrite !concat_cons, append_cons. reflexivity.
Qed.

Lemma concat_snoc (sep : string) (init : list string) (x : string) :
  init <> [] ->
  String.concat sep (init ++ [x]) = (String.concat sep init ++ sep ++ x)%string.
Proof.
  induction init as [| a init IH]; intros Hne; [contradiction |].
  destruct init as [| b init]; [reflexivity |].
  cbn [app]. rewrite !concat_cons. cbn [app] in IH. rewrite IH by discriminate.
  now rewrite !string_app_assoc.
Qed.

(** [s.split(sep)[-1]] is what follows the last separator, or all of [s]
    when there is none. *)
Lemma str_split_last (sep : ascii) (s : string) :
  exists tail,
    getitem (str_split sep s) (-1) = Ok tail /\
    all_chars (fun c => negb (Ascii.eqb c sep)) tail = true /\
    (s = tail \/ exists stem, s = (stem ++ String sep EmptyString ++ tail)%string).
Proof.
  destruct (str_split_pieces sep s) as [Hfree Hjoin].
  destruct (exists_last (str_split_nonempty sep s)) as (init & tail & Hsplit).
  rewrite Hsplit in *. exists tail. split; [apply getitem_last |]. split.
  - apply List.Forall_app in Hfree as [_ Htail]. now inversion Htail.
  - destruct init as [| a init]; [left; now rewrite <- Hjoin |].
    right. exists (String.concat (String sep EmptyString) (a :: init)).
    rewrite <- Hjoin. apply concat_snoc. discriminate.
Qed.

(** ** Route parser: the coordinates of a KML document *)

Lemma Element_induction (P : Element -> Prop) :
  (forall coordinates children, Forall P children -> P (element coordinates children)) ->
  forall e, P e.
Proof.
  intros H. fix IH 1. intros [coordinates children]. apply H.
  induction children as [| child children IHc]; constructor; [apply IH | exact IHc].
Qed.

Lemma comprehension_app {A B : Type} (f : A -> result B) (l1 l2 : list A) :
  comprehension f (l1 ++ l2)
  = let* a := comprehension f l1 in
    let* b := comprehension f l2 in
    Ok (a ++ b).
Proof.
  induction l1 as [| x l1 IH]; cbn [app comprehension bind].
  - now destruct (comprehension f l2).
  - destruct (f x); [| reflexivity]. cbn [bind]. rewrite IH.
    destruct (comprehension f l1); [| reflexivity]. cbn [bind].
    now destruct (comprehension f l2).
Qed.

Lemma comprehension_map {A B C : Type} (g : A -> B) (f : B -> result C) (l : list A) :
  comprehension f (map g l) = comprehension (fun a => f (g a)) l.
Proof.
  induction l as [| a l IH]; [reflexivity |]. cbn [map comprehension].
  now rewrite IH.
Qed.

Lemma comprehension_ext {A B : Type} (f g : A -> result B) (l : list A) :
  Forall (fun a => f a = g a) l -> comprehension f l = comprehension g l.
Proof.
  induction 1 as [| a l Ha _ IH]; [reflexivity |]. cbn [comprehension].
  now rewrite Ha, IH.
Qed.

Lemma all_chars_app (P : ascii -> bool) (a b : string) :
  all_chars P (a ++ b) = all_chars P a && all_chars P b.
Proof.
  induction a as [| c a IH]; [reflexivity |].
  rewrite append_cons. cbn [all_chars]. now rewrite IH, andb_assoc.
Qed.

Lemma all_chars_concat (P : ascii -> bool) (sep : string) (pieces : list string) :
  all_chars P sep = true -> Forall (fun piece => all_chars P piece = true) pieces ->
  all_chars P (String.concat sep pieces) = true.
Proof.
  intros Hsep. induction 1 as [| piece pieces Hp _ IH]; [reflexivity |].
  destruct pieces as [| piece' pieces]; [exact Hp |].
  rewrite concat_cons, !all_chars_app, Hp, Hsep, IH. reflexivity.
Qed.

Lemma all_chars_impl (P Q : ascii -> bool) (s : string) :
  (forall c, P c = true -> Q c = true) -> all_chars P s = true -> all_chars Q s = true.
Proof.
  intros HPQ. induction s as [| c s IH]; [reflexivity |]. cbn [all_chars].
  intros H. apply andb_prop in H as [Hc Hs]. now rewrite (HPQ c Hc), IH.
Qed.

Section KmlProperties.
Variable isspace : ascii -> bool.
Variable float_of_str : string -> result float.

Lemma extract_coord_tuple (pieces : list string) :
  pieces <> [] ->
  Forall (fun piece => all_chars (fun c => negb (Ascii.eqb c ",")) piece = true) pieces ->
  extract_coord float_of_str (String.concat "," pieces)
  = point_of_tuple float_of_str pieces.
Proof.
  intros Hne Hfree. unfold extract_coord.
  rewrite (str_split_concat "," pieces Hne Hfree).
  destruct pieces as [| lon [| lat rest]]; [contradiction | reflexivity |].
  assert (Hlen : (2 <=? len (lon :: lat :: rest)) = true)
    by (apply Z.leb_le; unfold len; cbn [length]; lia).
  rewrite Hlen. reflexivity.
Qed.

(** X12. A coordinates text of tuples [lon,lat] or [lon,lat,alt,...], separated
    and surrounded by whitespace, gives one coordinate (lat, lon) per tuple,
    in the order of the text: the two numbers are swapped, anything after
    them is ignored, a tuple of one number is passed over, and a number
    that cannot be read fails the whole text. *)
Theorem extract_coords_tuples (pad_l sep pad_r : string)
    (tuples : list (list string)) :
  isspace "," = false ->
  all_chars isspace pad_l = true -> all_chars isspace pad_r = true ->
  all_chars isspace sep = true -> sep <> EmptyString ->
  Forall (fun pieces =>
    pieces <> [] /\
    Forall (fun piece =>
      piece <> EmptyString /\
      all_chars (fun c => negb (isspace c) && negb (Ascii.eqb c ",")) piece = true)
      pieces) tuples ->
  extract_coords isspace float_of_str
    (pad_l ++ String.concat sep (map (String.concat ",") tuples) ++ pad_r)
  = let* points := comprehension (point_of_tuple float_of_str) tuples in
    Ok (concat points).
Proof.
  intros Hcomma Hl Hr Hsep Hne Htuples. unfold extract_coords.
  rewrite split_whitespace_strip. rewrite split_whitespace_concat; auto.
  - rewrite comprehension_map.
    rewrite (comprehension_ext _ (point_of_tuple float_of_str)); [reflexivity |].
    eapply List.Forall_impl; [| exact Htuples]. cbn beta.
    intros pieces [Hpieces Hfree]. apply extract_coord_tuple; [exact Hpieces |].
    eapply List.Forall_impl; [| exact Hfree]. cbn beta. intros piece [_ Hp].
    revert Hp. apply all_chars_impl. intros c Hc.
    now apply andb_prop in Hc as [_ Hc].
  - rewrite List.Forall_map. eapply List.Forall_impl; [| exact Htuples]. cbn beta.
    intros pieces [Hpieces Hfree]. split.
    + destruct pieces as [| piece pieces]; [contradiction |].
      inversion Hfree as [| ? ? [Hpiece _] _]; subst.
      destruct piece as [| c piece]; [contradiction |].
      destruct pieces; [discriminate |].
      rewrite concat_cons, append_cons. discriminate.
    + apply all_chars_concat; [cbn; now rewrite Hcomma |].
      eapply List.Forall_impl; [| exact Hfree]. cbn beta. intros piece [_ Hp].
      revert Hp. apply all_chars_impl. intros c Hc.
      now apply andb_prop in Hc as [Hc _].
Qed.

Variable kml_parse : list Byte.byte -> result Element.

Lemma find_coordinates_flat (e : Element) :
  find_coordinates isspace float_of_str e
  = let* found := comprehension (extract_coords isspace float_of_str)
                    (coordinate_texts e) in
    Ok (concat found).
Proof.
  induction e as [coordinates children IH] using Element_induction.
  cbn [find_coordinates coordinate_texts]. rewrite comprehension_app.
  assert (Hchildren :
    (fix iterchildren (l : list Element) : result (list (float * float)) :=
       match l with
       | [] => Ok []
       | child :: l' =>
           let* here := find_coordinates isspace float_of_str child in
           let* after := iterchildren l' in
           Ok (here ++ after)
       end) children
    = let* found := comprehension (extract_coords isspace float_of_str)
                      (flat_map coordinate_texts children) in
      Ok (concat found)).
  { induction IH as [| child children Hchild _ IHc]; [reflexivity |].
    cbn [flat_map]. rewrite comprehension_app, Hchild, IHc.
    destruct (comprehension _ (coordinate_texts child)); [| reflexivity].
    cbn [bind].
    destruct (comprehension _ (flat_map coordinate_texts children)); [| reflexivity].
    cbn [bind]. now rewrite concat_app. }
  rewrite Hchildren.
  destruct coordinates as [text |]; cbn [comprehension bind].
  - destruct (extract_coords isspace float_of_str text); [| reflexivity].
    cbn [bind].
    destruct (comprehension _ (flat_map coordinate_texts children)); reflexivity.
  - destruct (comprehension _ (flat_map coordinate_texts children)); [| reflexivity].
    reflexivity.
Qed.

(** X13. The route read from a KML document is the concatenation, in document
    order, of the coordinates of every element that has some, whatever its
    depth and kind; a text that cannot be read fails the whole document. *)
Theorem parse_kml_document_order (file_content : list Byte.byte) (root : Element) :
  kml_parse file_content = Ok root ->
  parse_kml isspace float_of_str kml_parse file_content
  = let* found := comprehension (extract_coords isspace float_of_str)
                    (coordinate_texts root) in
    Ok (concat found).
Proof.
  intros Hparse. unfold parse_kml. rewrite Hparse. cbn [bind].
  apply find_coordinates_flat.
Qed.
End KmlProperties.

Lemma extract_coords_tuples_witness :
  extract_coords Ascii.is_space integer_reader "-97,30,0 -97,31" = Ok austin_route.
Proof.
  apply (extract_coords_tuples Ascii.is_space integer_reader
           EmptyString " " EmptyString
           [["-97"; "30"; "0"]; ["-97"; "31"]]%string);
    try reflexivity; try discriminate.
  repeat (constructor; [split; [discriminate |] |]);
    repeat (constructor; [split; [discriminate | reflexivity] |]);
    constructor.
Defined.

Lemma parse_kml_document_order_witness :
  parse_kml Ascii.is_space integer_reader (fun _ => Ok austin_kml) []
  = Ok austin_route.
Proof.
  rewrite (parse_kml_document_order Ascii.is_space integer_reader
             (fun _ => Ok austin_kml) [] austin_kml eq_refl).
  vm_compute. reflexivity.
Defined.

(** ** Map rendering *)

Section MapProperties.
Context {F : PyFormat}.

Lemma generate_map_built (route_points : list (float * float))
    (places : option (list PlaceResult)) :
  exists m,
    generate_map route_points places = Ok m /\
    (route_points = [] ->
       map_location m = austin /\ zoom_start m = 10 /\
       fit_bounds m = None /\
       layers m = flat_map place_marker (truthy_places places)) /\
    (route_points <> [] ->
       exists start stop,
         nth_error route_points 0 = Some start /\
         nth_error route_points (length route_points - 1) = Some stop /\
         nth_error route_points (length route_points / 2) = Some (map_location m) /\
         zoom_start m = 12 /\
         layers m = [PolyLine route_points; RouteMarker start "Start";
                     RouteMarker stop "End"]
                    ++ flat_map place_marker (truthy_places places) /\
         fit_bounds m
         = Some (map (fun p => (Some (fst p), Some (snd p))) route_points
                   ++ map (fun p => (lat p, lon p))
                        (List.filter (fun p => truthy_float (lat p))
                           (truthy_places places)))).
Proof.
  destruct route_points as [| p route] eqn:Hroute.
  - eexists. split; [reflexivity |]. split; [| congruence].
    intros _. repeat split.
  - rewrite <- Hroute.
    assert (Hne : route_points <> []) by (subst; discriminate).
    assert (Hlen : 0 < len route_points) by (subst; unfold len; cbn; lia).
    destruct (getitem_in_range route_points (len route_points / 2))
      as (center & Hcenter & Hmid).
    { split; [apply Z.div_pos; lia | apply Z.div_lt_upper_bound; lia]. }
    destruct (route_ends route_points Hne) as (start & body & stop & Hbody & Hstart).
    assert (Hstop : getitem route_points (-1) = Ok stop)
      by (rewrite Hbody; apply getitem_last).
    assert (Hfirst : getitem route_points 0 = Ok start).
    { destruct (getitem_in_range route_points 0) as (a & Hget & Hnth); [lia |].
      change (Z.to_nat 0) with 0%nat in Hnth. congruence. }
    unfold generate_map.
    replace (is_empty route_points) with false by (subst; reflexivity).
    rewrite Hcenter, Hfirst, Hstop. cbn [bind].
    eexists. split; [reflexivity |]. split; [congruence |].
    intros _. exists start, stop.
    cbn [map_location zoom_start layers fit_bounds fst snd].
    split; [exact Hstart |]. split.
    { rewrite Hbody at 2. rewrite Hbody, length_app. cbn [length].
      rewrite nth_error_app2 by lia.
      now replace (length body + 1 - 1 - length body)%nat with 0%nat by lia. }
    split; [| repeat split; reflexivity].
    rewrite <- Hmid. f_equal. unfold len.
    change 2 with (Z.of_nat 2). rewrite <- Nat2Z.inj_div. symmetry. apply Nat2Z.id.
Qed.


Lemma place_marker_location (place : PlaceResult) (layer : Layer) :
  In layer (place_marker place) ->
  exists la lo popup tooltip,
    layer = PlaceMarker (la, lo) popup tooltip /\
    lat place = Some la /\ lon place = Some lo /\
    float_truthy la = true /\ float_truthy lo = true.
Proof.
  unfold place_marker.
  destruct (lat place) as [la |], (lon place) as [lo |]; try (now intros []).
  destruct (float_truthy la) eqn:Hla, (float_truthy lo) eqn:Hlo;
    cbn [andb]; try (now intros []).
  intros [<- | []]. exists la, lo. eexists. eexists.
  repeat split; first [reflexivity | assumption].
Qed.

(** X15. With a route, the bounds the map is fitted to hold every coordinate of
    the route, the locations of all markers, and the location of every
    place whose latitude is present and not zero, whether or not it has a
    marker. *)
Theorem generate_map_bounds (route_points : list (float * float))
    (places : option (list PlaceResult)) :
  route_points <> [] ->
  exists m all_points,
    generate_map route_points places = Ok m /\
    fit_bounds m = Some all_points /\
    (forall p, In p route_points -> In (Some (fst p), Some (snd p)) all_points) /\
    (forall layer, In layer (layers m) ->
       match layer with
       | PolyLine locations =>
           forall p, In p locations -> In (Some (fst p), Some (snd p)) all_points
       | RouteMarker location _ | PlaceMarker location _ _ =>
           In (Some (fst location), Some (snd location)) all_points
       end) /\
    (forall place, In place (truthy_places places) ->
       truthy_float (lat place) = true -> In (lat place, lon place) all_points).
Proof.
  intros Hne.
  destruct (generate_map_built route_points places) as (m & Hm & _ & Hroute).
  destruct (Hroute Hne) as (start & stop & Hstart & Hstop & _ & _ & Hlayers & Hbounds).
  exists m. eexists. split; [exact Hm |]. split; [exact Hbounds |].
  assert (Hin : forall p, In p route_points ->
            In (Some (fst p), Some (snd p))
              (map (fun p => (Some (fst p), Some (snd p))) route_points
                 ++ map (fun p => (lat p, lon p))
                      (List.filter (fun p => truthy_float (lat p))
                         (truthy_places places)))).
  { intros p Hp. apply in_or_app. left.
    now apply (in_map (fun p => (Some (fst p), Some (snd p)))). }
  assert (Hplace : forall place, In place (truthy_places places) ->
            truthy_float (lat place) = true ->
            In (lat place, lon place)
              (map (fun p => (Some (fst p), Some (snd p))) route_points
                 ++ map (fun p => (lat p, lon p))
                      (List.filter (fun p => truthy_float (lat p))
                         (truthy_places places)))).
  { intros place Hp Hlat. apply in_or_app. right.
    apply (in_map (fun p => (lat p, lon p))). apply filter_In. auto. }
  split; [exact Hin |]. split; [| exact Hplace].
  intros layer Hlayer. rewrite Hlayers in Hlayer.
  destruct Hlayer as [<- | [<- | [<- | Hlayer]]].
  - exact Hin.
  - apply Hin. eapply nth_error_In, Hstart.
  - apply Hin. eapply nth_error_In, Hstop.
  - apply in_flat_map in Hlayer as (place & Hp & Hlayer).
    apply place_marker_location in Hlayer
      as (la & lo & popup & tooltip & -> & Hla & Hlo & Hta & _).
    cbn [fst snd]. rewrite <- Hla, <- Hlo. apply Hplace; [exact Hp |].
    rewrite Hla. exact Hta.
Qed.
End MapProperties.

Lemma generate_map_bounds_witness :
  exists m all_points,
    @generate_map integer_part_format austin_route None = Ok m /\
    fit_bounds m = Some all_points /\
    In (Some (float_of_Z 31), Some (float_of_Z (-97))) all_points.
Proof.
  destruct (@generate_map_bounds integer_part_format austin_route None
              ltac:(discriminate))
    as (m & all_points & Hm & Hbounds & Hroute & _).
  exists m, all_points. split; [exact Hm |]. split; [exact Hbounds |].
  apply (Hroute (float_of_Z 31, float_of_Z (-97))). right. left. reflexivity.
Defined.

(** ** The page: upload, search, display *)

Section Upload.
Context {L : Libraries}.

(** X16. The file type of an upload is what follows the last dot of its name,
    or the whole name when it has no dot.  Unless this is [gpx] or [kml]
    once put in lower case, no parser is called: the session is left
    without a route and the error of the dispatcher is shown. *)
Theorem upload_file_type (file : UploadedFile) (s : SessionState) :
  exists extension,
    all_chars (fun c => negb (Ascii.eqb c ".")) extension = true /\
    (file_name file = extension \/
     exists stem, file_name file = (stem ++ "." ++ extension)%string) /\
    (str_lower (str_lower extension) <> "gpx"%string ->
     str_lower (str_lower extension) <> "kml"%string ->
     ss_route_points (fst (load_route (Some file) s)) = None /\
     snd (load_route (Some file) s)
     = [st_error (ErrorParsingRoute (exn_str ValueError))]) /\
    (str_lower (str_lower extension) = "gpx"%string ->
     ss_route_points (fst (load_route (Some file) s))
     = match parse_gpx gpxpy_parse (getvalue file) with
       | Ok points => if len points <? 2 then None else Some points
       | Raise _ => None
       end) /\
    (str_lower (str_lower extension) = "kml"%string ->
     ss_route_points (fst (load_route (Some file) s))
     = match parse_kml isspace float_of_str kml_parse (getvalue file) with
       | Ok points => if len points <? 2 then None else Some points
       | Raise _ => None
       end).
Proof.
  destruct (str_split_last "." (file_name file)) as (extension & Hget & Hfree & Hname).
  exists extension. split; [exact Hfree |]. split; [exact Hname |].
  unfold load_route. rewrite Hget. cbn [bind]. unfold parse_route.
  split; [| split].
  - intros Hgpx Hkml.
    destruct (String.eqb_spec (str_lower (str_lower extension)) "gpx"); [contradiction |].
    destruct (String.eqb_spec (str_lower (str_lower extension)) "kml"); [contradiction |].
    split; reflexivity.
  - intros ->. cbn [String.eqb Ascii.eqb Bool.eqb].
    destruct (parse_gpx gpxpy_parse (getvalue file)) as [points | e]; [| reflexivity].
    now destruct (len points <? 2).
  - intros ->. cbn [String.eqb Ascii.eqb Bool.eqb].
    destruct (parse_kml isspace float_of_str kml_parse (getvalue file))
      as [points | e]; [| reflexivity].
    now destruct (len points <? 2).
Qed.
End Upload.

Section PageProperties.
Context {M : PyMath} {F : PyFormat} {L : Libraries}.
Variable places_search : string -> string -> string -> Z -> result (list Place).

Lemma load_route_consistent (uploaded : option UploadedFile) (s : SessionState) :
  session_consistent s -> session_consistent (fst (load_route uploaded s)).
Proof.
  intros Hs. unfold load_route.
  destruct uploaded as [file |]; [| exact Hs].
  destruct Hs as (Hroute & Hcount & Hfiltered).
  destruct (let* extension := _ in _) as [points | e]; [| now repeat split].
  destruct (Z.ltb_spec (len points) 2); repeat split; cbn; auto; lia.
Qed.

Lemma handle_search_consistent (w : Sidebar) (s : SessionState) :
  session_consistent s -> session_consistent (fst (handle_search places_search w s)).
Proof.
  intros Hs. unfold handle_search.
  destruct (search_btn w); cbn [negb]; [| exact Hs].
  destruct (ss_route_points s) as [[| p points] |] eqn:Hpts; try exact Hs.
  destruct (String.eqb (query w) ""); [exact Hs |].
  destruct (String.eqb (api_key w) ""); [exact Hs |].
  destruct (let* encoded := _ in _) as [results | e]; [| exact Hs].
  destruct Hs as (Hroute & Hcount & Hfiltered). rewrite Hpts in Hroute.
  repeat split; cbn; auto.
Qed.

Lemma display_results_consistent (w : Sidebar) (s : SessionState) :
  session_consistent s -> session_consistent (fst (display_results w s)).
Proof.
  intros Hs. unfold display_results.
  destruct (ss_results s) as [[| r results] |] eqn:Hres; try exact Hs.
  cbv zeta.
  destruct (filter_results (min_rating w) (price_filter w) (open_now_only w)
              (max_distance_mi w) (r :: results)) as [| r' kept] eqn:Hkept;
    cbn [is_empty fst]; [exact Hs |].
  destruct Hs as (Hroute & Hcount & Hfiltered).
  repeat split; cbn; auto. now rewrite Hres in Hcount.
Qed.

Lemma script_consistent (w : Sidebar) (s : SessionState) :
  session_consistent s -> session_consistent (fst (script places_search w s)).
Proof.
  intros Hs. unfold script. cbn [fst].
  now apply display_results_consistent, handle_search_consistent,
    load_route_consistent.
Qed.

(** X17. Whatever was uploaded, typed and clicked in any number of runs, the
    session holds either no route or one of at least two coordinates, the
    stored count is the number of stored results, and the places kept for
    the map are never an empty list. *)
Theorem session_stays_consistent (runs : list Sidebar) :
  session_consistent (session_after places_search runs fresh_session).
Proof.
  unfold session_after.
  assert (Hfresh : session_consistent fresh_session) by (repeat split; discriminate).
  revert Hfresh. generalize fresh_session.
  induction runs as [| w runs IH]; intros s Hs; [exact Hs |].
  cbn [fold_left]. apply IH. now apply script_consistent.
Qed.

Lemma load_route_keeps (uploaded : option UploadedFile) (s : SessionState) :
  ss_results (fst (load_route uploaded s)) = ss_results s /\
  ss_filtered_results (fst (load_route uploaded s)) = ss_filtered_results s /\
  ss_results_unfiltered_count (fst (load_route uploaded s))
  = ss_results_unfiltered_count s.
Proof.
  unfold load_route. destruct uploaded as [file |]; [| now repeat split].
  destruct (let* extension := _ in _) as [points | e]; [| now repeat split].
  destruct (len points <? 2); now repeat split.
Qed.

Lemma handle_search_keeps (w : Sidebar) (s : SessionState) :
  ss_route_points (fst (handle_search places_search w s)) = ss_route_points s /\
  ss_filtered_results (fst (handle_search places_search w s)) = ss_filtered_results s.
Proof.
  unfold handle_search.
  destruct (search_btn w); cbn [negb]; [| now split].
  destruct (ss_route_points s) as [[| p points] |] eqn:Hpts; try (now split).
  destruct (String.eqb (query w) ""); [now split |].
  destruct (String.eqb (api_key w) ""); [now split |].
  destruct (let* encoded := _ in _) as [results | e]; now split.
Qed.

Lemma display_results_keeps (w : Sidebar) (s : SessionState) :
  ss_route_points (fst (display_results w s)) = ss_route_points s /\
  ss_results (fst (display_results w s)) = ss_results s /\
  ss_filtered_results (fst (display_results w s))
  = (if is_empty (filter_results (min_rating w) (price_filter w) (open_now_only w)
                    (max_distance_mi w) (default [] (ss_results s)))
     then ss_filtered_results s
     else Some (filter_results (min_rating w) (price_filter w) (open_now_only w)
                  (max_distance_mi w) (default [] (ss_results s)))).
Proof.
  unfold display_results.
  destruct (ss_results s) as [[| r results] |] eqn:Hres; try (now repeat split).
  cbv zeta. cbn [from_option id].
  destruct (filter_results (min_rating w) (price_filter w) (open_now_only w)
              (max_distance_mi w) (r :: results)) as [| r' kept];
    cbn [is_empty fst]; repeat split; rewrite ?Hres; reflexivity.
Qed.

(** X18. The places on the map are those that pass the filters in this run;
    when none passes, or there are no results, the map shows the places
    kept by the last run in which some passed, not an empty map and not
    the unfiltered results. *)
Theorem map_shows_last_kept_places (w : Sidebar) (s : SessionState)
    (route_points : list (float * float)) :
  ss_route_points (fst (script places_search w s)) = Some route_points ->
  route_points <> [] ->
  exists shown m before,
    shown = filter_results (min_rating w) (price_filter w) (open_now_only w)
              (max_distance_mi w)
              (default [] (ss_results (fst (script places_search w s)))) /\
    generate_map route_points
      (if is_empty shown then ss_filtered_results s else Some shown) = Ok m /\
    snd (script places_search w s)
    = before ++ [st_subheader MapHeading; st_folium m 600].
Proof.
  intros Hroute Hne. eexists. 
  set (shown := filter_results _ _ _ _ _).
  destruct (generate_map_built route_points
              (if is_empty shown then ss_filtered_results s else Some shown))
    as (m & Hm & _).
  exists m. eexists. split; [reflexivity |]. split; [exact Hm |].
  unfold script in *. cbn [fst snd] in *.
  set (loaded := load_route (uploaded_file w) s) in *.
  set (searched := handle_search places_search w (fst loaded)) in *.
  set (displayed := display_results w (fst searched)) in *.
  destruct (display_results_keeps w (fst searched)) as (_ & Hres & Hfiltered).
  fold displayed in Hres, Hfiltered.
  destruct (handle_search_keeps w (fst loaded)) as (_ & Hf2). fold searched in Hf2.
  destruct (load_route_keeps (uploaded_file w) s) as (_ & Hf1 & _). fold loaded in Hf1.
  rewrite Hf2, Hf1, <- Hres in Hfiltered. fold shown in Hfiltered.
  unfold display_map. rewrite Hroute.
  destruct route_points as [| p route_points]; [contradiction |].
  rewrite Hfiltered, Hm. rewrite !app_assoc. reflexivity.
Qed.
End PageProperties.

Section SearchGuard.
Context {M : PyMath} {F : PyFormat} {L : Libraries}.

(** X19. No request is made unless the button is pressed, the session holds a
    route once the upload is handled, and both the query and the key are
    non-empty: in every other case the run is the same whatever the
    service would answer. *)
Theorem search_needs_route_query_key
    (search1 search2 : string -> string -> string -> Z -> result (list Place))
    (w : Sidebar) (s : SessionState) :
  search_btn w = false \/
  truthy_route (ss_route_points (fst (load_route (uploaded_file w) s))) = false \/
  query w = EmptyString \/ api_key w = EmptyString ->
  script search1 w s = script search2 w s.
Proof.
  intros Hguard. unfold script.
  assert (Hsame : handle_search search1 w (fst (load_route (uploaded_file w) s))
                  = handle_search search2 w (fst (load_route (uploaded_file w) s))).
  { unfold handle_search.
    destruct (search_btn w); cbn [negb]; [| reflexivity].
    destruct (ss_route_points (fst (load_route (uploaded_file w) s)))
      as [[| p points] |]; try reflexivity.
    destruct (String.eqb_spec (query w) ""); [reflexivity |].
    destruct (String.eqb_spec (api_key w) ""); [reflexivity |].
    destruct Hguard as [H | [H | [H | H]]]; try discriminate; contradiction. }
  now rewrite Hsame.
Qed.
End SearchGuard.

Lemma map_shows_last_kept_places_witness :
  exists m before,
    @generate_map integer_part_format austin_route None = Ok m /\
    snd (@script small_angle_math integer_part_format plain_libraries
           (fun _ _ _ _ => Ok []) idle_sidebar route_session)
    = before ++ [st_subheader MapHeading; st_folium m 600].
Proof.
  destruct (@map_shows_last_kept_places small_angle_math integer_part_format
              plain_libraries (fun _ _ _ _ => Ok []) idle_sidebar route_session
              austin_route eq_refl ltac:(discriminate))
    as (shown & m & before & Hshown & Hm & Hout).
  exists m, before. subst shown. split; [exact Hm | exact Hout].
Defined.

Lemma search_needs_route_query_key_witness :
  @script small_angle_math integer_part_format plain_libraries
    (fun _ _ _ _ => Ok []) idle_sidebar fresh_session
  = @script small_angle_math integer_part_format plain_libraries
      (fun _ _ _ _ => Raise ValueError) idle_sidebar fresh_session.
Proof.
  apply search_needs_route_query_key. left. reflexivity.
Defined.

Lemma filter_all_or_fewer {A : Type} (f : A -> bool) (l : list A) :
  (length (List.filter f l) <= length l)%nat /\
  (length (List.filter f l) = length l -> List.filter f l = l).
Proof.
  induction l as [| a l [IHle IHeq]]; [split; reflexivity |].
  cbn [List.filter]. destruct (f a); cbn [length]; split; try lia.
  intros H. f_equal. apply IHeq. lia.
Qed.

(** X20. The heading over the results.  In a consistent session it counts
    against the number of results of the last search: "Found n places"
    when the filters keep all n of them, and "Showing k of n places", with
    k below n, as soon as one is filtered out. *)
Theorem results_heading (w : Sidebar) (s : SessionState)
    (results : list PlaceResult) :
  session_consistent s ->
  ss_results s = Some results -> results <> [] ->
  exists kept,
    kept = filter_results (min_rating w) (price_filter w) (open_now_only w)
             (max_distance_mi w) results /\
    (kept = results ->
     hd_error (snd (display_results w s))
     = Some (st_subheader (Found (len results)))) /\
    (kept <> results ->
     len kept < len results /\
     hd_error (snd (display_results w s))
     = Some (st_subheader (Showing (len kept) (len results)))).
Proof.
  intros (_ & Hcount & _) Hres Hne. rewrite Hres in Hcount.
  eexists. split; [reflexivity |].
  set (kept := filter_results _ _ _ _ results).
  destruct (filter_all_or_fewer
              (passes_filters (min_rating w) (price_filter w) (open_now_only w)
                 (max_distance_mi w)) results) as [Hle Heq].
  fold (filter_results (min_rating w) (price_filter w) (open_now_only w)
          (max_distance_mi w) results) in Hle, Heq. fold kept in Hle, Heq.
  unfold display_results. rewrite Hres, Hcount.
  destruct results as [| r results]; [contradiction |].
  cbv zeta. cbn [from_option id]. fold kept.
  destruct (Z.ltb_spec (len kept) (len (r :: results))) as [Hlt | Hge].
  - split.
    + intros Hall. rewrite Hall in Hlt. lia.
    + intros _. split; [exact Hlt |].
      destruct kept; cbn [is_empty snd]; reflexivity.
  - assert (Hall : kept = r :: results) by (apply Heq; unfold len in Hge; lia).
    split; [| contradiction].
    intros _. rewrite Hall. reflexivity.
Qed.

Lemma results_heading_witness :
  hd_error (snd (display_results idle_sidebar results_session))
  = Some (st_subheader (Found 2)).
Proof.
  destruct (results_heading idle_sidebar results_session
              [priced None; priced (Some "$$"%string)])
    as (kept & Hkept & Hall & _).
  - repeat split. discriminate.
  - reflexivity.
  - discriminate.
  - apply Hall. rewrite Hkept. reflexivity.
Defined.
